(** * MiddletonGrangeWeb: the WordPress migration pipeline

    A shallow embedding of the migration scripts (WordPress export parser,
    content cleaner, media migrator and the [migrate] orchestrator) and the
    properties of the specification that concern them.

    Conventions of the embedding.
    - A JavaScript string is a [string]: a sequence of code units, here the
      code units below 256.
    - A JavaScript [Map] is an association list in insertion order with
      unique keys ([Map.prototype.set] overwrites in place or appends).
    - A plain object literal used as a lookup table is its list of own
      properties followed by the members it inherits from
      [Object.prototype].
    - Code that can throw returns a [result]. *)

From Stdlib Require Import List String Ascii ZArith Lia Bool Arith Permutation.
From Stdlib Require Import Numbers.DecimalString.
Import ListNotations.
Open Scope string_scope.
Open Scope list_scope.

Set Implicit Arguments.
#[local] Set Warnings "-register-all".

(* ================================================================== *)
(** * JavaScript values and strings *)
(* ================================================================== *)

Module Js.

(** Outcome of code that may throw. *)
Inductive result (A : Type) : Type :=
| Ok (a : A)
| Throw (msg : string).
Arguments Ok {A} a.
Arguments Throw {A} msg.

Definition bind {A B} (r : result A) (k : A -> result B) : result B :=
  match r with
  | Ok a => k a
  | Throw m => Throw m
  end.

Notation "x <- r ;; k" := (bind r (fun x => k))
  (at level 61, r at next level, right associativity).

(** Primitive values that appear as attachment ids, urls and [Map] keys. *)
Inductive prim : Type :=
| Undefined
| Null
| Num (z : Z)
| Str (s : string).

Definition prim_eqb (a b : prim) : bool :=
  match a, b with
  | Undefined, Undefined => true
  | Null, Null => true
  | Num x, Num y => Z.eqb x y
  | Str x, Str y => String.eqb x y
  | _, _ => false
  end.

(** [String(v)] for a primitive; a number is an integer below 10^21 in
    absolute value, which [String] prints in plain digits. *)
Definition ToString (v : prim) : string :=
  match v with
  | Undefined => "undefined"
  | Null => "null"
  | Num z => NilZero.string_of_int (Z.to_int z)
  | Str s => s
  end.

(** [typeof v === 'string'] *)
Definition is_string (v : prim) : bool :=
  match v with Str _ => true | _ => false end.

(** [s.startsWith(p)] *)
Definition startsWith (s p : string) : bool := String.prefix p s.

(** [s.includes(p)] *)
Fixpoint includes (s p : string) : bool :=
  startsWith s p ||
  match s with
  | EmptyString => false
  | String _ s' => includes s' p
  end.

Definition snoc (s : string) (c : ascii) : string := s ++ String c "".

(** [s.split(sep)] for a non-empty separator: [cur] is the piece being
    read, [skip] the code units of a matched separator still to pass. *)
Fixpoint split_go (sep s : string) (skip : nat) (cur : string) : list string :=
  match s with
  | EmptyString => [cur]
  | String c s' =>
      match skip with
      | S k => split_go sep s' k cur
      | O =>
          if startsWith s sep
          then cur :: split_go sep s' (String.length sep - 1) ""
          else split_go sep s' 0 (snoc cur c)
      end
  end.

Fixpoint chars (s : string) : list string :=
  match s with
  | EmptyString => []
  | String c s' => String c "" :: chars s'
  end.

(** [s.split(sep)]: an empty separator splits into code units. *)
Definition split (s sep : string) : list string :=
  match sep with
  | EmptyString => chars s
  | _ => split_go sep s 0 ""
  end.

(** [parts.join(sep)] *)
Fixpoint join (parts : list string) (sep : string) : string :=
  match parts with
  | [] => ""
  | [p] => p
  | p :: rest => p ++ sep ++ join rest sep
  end.

(** White space as [\s] and [String.prototype.trim] see it, among the code
    units below 256: TAB, LF, VT, FF, CR, SPACE and NBSP. *)
Definition is_space (c : ascii) : bool :=
  let n := nat_of_ascii c in
  ((9 <=? n) && (n <=? 13) || (n =? 32) || (n =? 160))%nat.

(** Line terminators, for [^] and [$] under the [m] flag. *)
Definition is_line_terminator (c : ascii) : bool :=
  let n := nat_of_ascii c in ((n =? 10) || (n =? 13))%nat.

Fixpoint trimStart (s : string) : string :=
  match s with
  | String c s' => if is_space c then trimStart s' else s
  | EmptyString => EmptyString
  end.

Fixpoint all_space (s : string) : bool :=
  match s with
  | EmptyString => true
  | String c s' => is_space c && all_space s'
  end.

Fixpoint trimEnd (s : string) : string :=
  match s with
  | EmptyString => EmptyString
  | String c s' => if all_space s then EmptyString else String c (trimEnd s')
  end.

(** [s.trim()] *)
Definition trim (s : string) : string := trimEnd (trimStart s).

(** [s.toLowerCase()] on code units below 256: A-Z and the capital
    letters of the Latin-1 supplement (0xC0-0xDE without 0xD7). *)
Definition lower_char (c : ascii) : ascii :=
  let n := nat_of_ascii c in
  if ((65 <=? n) && (n <=? 90) ||
      (192 <=? n) && (n <=? 222) && negb (n =? 215))%nat
  then ascii_of_nat (n + 32) else c.

Fixpoint map_string (f : ascii -> ascii) (s : string) : string :=
  match s with
  | EmptyString => EmptyString
  | String c s' => String (f c) (map_string f s')
  end.

Definition toLowerCase (s : string) : string := map_string lower_char s.

(** ** Property lookup on an object literal *)

(** What a lookup on a table of strings can produce. *)
Inductive value : Type :=
| VUndefined
| VString (s : string)
| VFunction (name : string)     (* a built-in function object *)
| VObjectPrototype.             (* the object [Object.prototype] *)

(** The members every object literal inherits from [Object.prototype]. *)
Definition Object_prototype_functions : list string :=
  [ "constructor"; "__defineGetter__"; "__defineSetter__"; "hasOwnProperty";
    "__lookupGetter__"; "__lookupSetter__"; "isPrototypeOf";
    "propertyIsEnumerable"; "toString"; "valueOf"; "toLocaleString" ].

Definition mem_string (k : string) (l : list string) : bool :=
  existsb (String.eqb k) l.

Definition Object_prototype_get (k : string) : value :=
  if String.eqb k "__proto__" then VObjectPrototype
  else if mem_string k Object_prototype_functions then VFunction k
  else VUndefined.

Fixpoint own_get {A} (own : list (string * A)) (k : string) : option A :=
  match own with
  | [] => None
  | (k', v) :: rest => if String.eqb k k' then Some v else own_get rest k
  end.

(** [obj[k]] for an object literal with the string-valued own properties
    [own]. *)
Definition get_property (own : list (string * string)) (k : string) : value :=
  match own_get own k with
  | Some v => VString v
  | None => Object_prototype_get k
  end.

(** [ToBoolean] *)
Definition truthy (v : value) : bool :=
  match v with
  | VUndefined => false
  | VString s => negb (String.eqb s "")
  | VFunction _ => true
  | VObjectPrototype => true
  end.

(** [a || b] *)
Definition or_else (a b : value) : value := if truthy a then a else b.

(** ** [Map] *)

Definition JsMap : Type := list (prim * string).

Fixpoint map_get (m : JsMap) (k : prim) : option string :=
  match m with
  | [] => None
  | (k', v) :: rest => if prim_eqb k k' then Some v else map_get rest k
  end.

Fixpoint map_set (m : JsMap) (k : prim) (v : string) : JsMap :=
  match m with
  | [] => [(k, v)]
  | (k', v') :: rest =>
      if prim_eqb k k' then (k', v) :: rest else (k', v') :: map_set rest k v
  end.

End Js.

Import Js.

(* ================================================================== *)
(** * WordPressParser (wp-parser.js) *)
(* ================================================================== *)

Module WordPressParser.

Definition statusMap : list (string * string) :=
  [ ("publish", "published");
    ("draft", "draft");
    ("pending", "draft");
    ("private", "draft");
    ("future", "draft");
    ("trash", "archived") ].

(** [mapStatus(wpStatus)]: [statusMap[wpStatus] || 'draft']. *)
Definition mapStatus (wpStatus : string) : value :=
  or_else (get_property statusMap wpStatus) (VString "draft").

End WordPressParser.

(* ================================================================== *)
(** * MediaMigrator (media-migrator.js) *)
(* ================================================================== *)

Module MediaMigrator.

Record Attachment : Type := {
  url : string;
  filename : string;
  id : prim;
  mimeType : string;
  alt : string;
  caption : string;
  createdAt : string
}.

Record Options : Type := {
  downloadDir : string;
  storageBucket : option string;
  concurrency : nat;
  skipExisting : bool
}.

(** The constructor's [options.concurrency || 5]. *)
Definition effective_concurrency (o : Options) : nat :=
  match concurrency o with
  | O => 5
  | n => n
  end.

Record Stats : Type := {
  total : nat;
  downloaded : nat;
  uploaded : nat;
  skipped : nat;
  failed : nat;
  errors : list (string * string)
}.

(** The mutable part of a migrator: [this.stats] and [this.urlMap]. *)
Record State : Type := {
  stats : Stats;
  urlMap : JsMap
}.

Definition fresh : State :=
  {| stats := {| total := 0; downloaded := 0; uploaded := 0; skipped := 0;
                 failed := 0; errors := [] |};
     urlMap := [] |}.

(** What the world answers to the migrator.  Every answer is indexed by
    the position of the attachment in the list given to [migrate], so
    that no relation between two answers is assumed.  [path_join] and
    [path_basename] are Node's [path.join] and [path.basename]. *)
Record Env : Type := {
  path_join : string -> string -> string;
  path_basename : string -> string;
  fileExists : nat -> bool;                 (* fs.access succeeds *)
  downloadFile : nat -> result unit;        (* rejects on network error,
                                               non-200 status, timeout *)
  uploadToStorage_io : nat -> result unit;  (* bucket.upload, makePublic *)
  dateNow : nat -> string;                  (* Date.now() *)
  getYearMonth : nat -> string
}.

(** [/[^a-zA-Z0-9.-]/] *)
Definition filename_char_ok (c : ascii) : bool :=
  let n := nat_of_ascii c in
  ((97 <=? n) && (n <=? 122) || (65 <=? n) && (n <=? 90) ||
   (48 <=? n) && (n <=? 57) || (n =? 46) || (n =? 45))%nat.

Definition hyphen : ascii := "-"%char.

(** [.replace(/-+/g, '-')] *)
Fixpoint collapse_hyphens (s : string) : string :=
  match s with
  | EmptyString => EmptyString
  | String c s' =>
      if Ascii.eqb c hyphen
      then match s' with
           | String c' _ =>
               if Ascii.eqb c' hyphen then collapse_hyphens s'
               else String c (collapse_hyphens s')
           | EmptyString => String c EmptyString
           end
      else String c (collapse_hyphens s')
  end.

Definition sanitizeFilename (name : string) : string :=
  toLowerCase
    (collapse_hyphens
       (map_string (fun c => if filename_char_ok c then c else hyphen) name)).

Definition last_part (parts : list string) : string := List.last parts "".

Definition first_part (parts : list string) : string := List.hd "" parts.

(** [extractFilename(url)]; [now] is [Date.now()] as text. *)
Definition extractFilename (now : string) (u : string) : string :=
  let name := first_part (split (last_part (split u "/")) "?") in
  if String.eqb name "" then "file-" ++ now else name.

Definition bucket_text (o : Options) : string :=
  match storageBucket o with
  | Some b => b
  | None => "null"
  end.

Section Process.

Variable env : Env.
Variable o : Options.
(** [this.storage] is set: [initStorage] was called with a bucket. *)
Variable storage : bool.

Definition localPath (i : nat) (a : Attachment) : string :=
  path_join env (downloadDir o)
    (sanitizeFilename
       (if String.eqb (filename a) ""
        then extractFilename (dateNow env i) (url a)
        else filename a)).

Definition localUrl (i : nat) (a : Attachment) : string :=
  "/images/" ++ path_basename env (localPath i a).

(** [getStorageUrl(localPath)] *)
Definition getStorageUrl (i : nat) (a : Attachment) : string :=
  "https://storage.googleapis.com/" ++ bucket_text o ++ "/media/"
    ++ path_basename env (localPath i a).

(** The url returned by [uploadToStorage(localPath, attachment)]. *)
Definition uploadedUrl (i : nat) (a : Attachment) : string :=
  "https://storage.googleapis.com/" ++ bucket_text o ++ "/media/"
    ++ getYearMonth env i ++ "/" ++ path_basename env (localPath i a).

(** The writes of [processAttachment] to the shared migrator state. *)
Inductive effect : Type :=
| IncSkipped
| IncDownloaded
| IncUploaded
| IncFailed (u msg : string)
| SetUrl (k : prim) (v : string).

(** [processAttachment(attachment)] for the attachment at position [i]:
    its writes to the migrator state, in program order. *)
Definition processAttachment (i : nat) (a : Attachment) : list effect :=
  if String.eqb (url a) "" then [IncSkipped]
  else if skipExisting o && fileExists env i then
    let newUrl := if storage then getStorageUrl i a else localUrl i a in
    [IncSkipped; SetUrl (Str (url a)) newUrl; SetUrl (id a) newUrl]
  else
    match downloadFile env i with
    | Throw msg => [IncFailed (url a) msg]
    | Ok _ =>
        IncDownloaded ::
        (if storage then
           match uploadToStorage_io env i with
           | Throw msg => [IncFailed (url a) msg]
           | Ok _ =>
               [IncUploaded; SetUrl (Str (url a)) (uploadedUrl i a);
                SetUrl (id a) (uploadedUrl i a)]
           end
         else [SetUrl (Str (url a)) (localUrl i a);
               SetUrl (id a) (localUrl i a)])
    end.

Definition apply_stats (e : effect) (s : Stats) : Stats :=
  match e with
  | IncSkipped =>
      {| total := total s; downloaded := downloaded s; uploaded := uploaded s;
         skipped := S (skipped s); failed := failed s; errors := errors s |}
  | IncDownloaded =>
      {| total := total s; downloaded := S (downloaded s);
         uploaded := uploaded s; skipped := skipped s; failed := failed s;
         errors := errors s |}
  | IncUploaded =>
      {| total := total s; downloaded := downloaded s;
         uploaded := S (uploaded s); skipped := skipped s; failed := failed s;
         errors := errors s |}
  | IncFailed u msg =>
      {| total := total s; downloaded := downloaded s; uploaded := uploaded s;
         skipped := skipped s; failed := S (failed s);
         errors := errors s ++ [(u, msg)] |}
  | SetUrl _ _ => s
  end.

Definition apply (st : State) (e : effect) : State :=
  {| stats := apply_stats e (stats st);
     urlMap := match e with
               | SetUrl k v => map_set (urlMap st) k v
               | _ => urlMap st
               end |}.

Definition run (trace : list effect) (st : State) : State :=
  fold_left apply trace st.

(** [chunk(array, size)] *)
Fixpoint chunk_go {A} (fuel : nat) (l : list A) (size : nat) : list (list A) :=
  match fuel with
  | O => []
  | S fuel' =>
      match l with
      | [] => []
      | _ => firstn size l :: chunk_go fuel' (skipn size l) size
      end
  end.

Definition chunk {A} (l : list A) (size : nat) : list (list A) :=
  chunk_go (List.length l) l size.

Definition indexed {A} (l : list A) : list (nat * A) :=
  combine (seq 0 (List.length l)) l.

(** The tasks of [migrate], one list of writes per attachment, grouped
    in batches of [concurrency]. *)
Definition batches (atts : list Attachment) : list (list (list effect)) :=
  map (map (fun ia => processAttachment (fst ia) (snd ia)))
      (chunk (indexed atts) (effective_concurrency o)).

(** [Promise.all] over a batch: the tasks run interleaved, each in its
    own program order. *)
Inductive interleave : list (list effect) -> list effect -> Prop :=
| interleave_done : forall tasks,
    Forall (fun t => t = []) tasks -> interleave tasks []
| interleave_step : forall pre e t post trace,
    interleave (pre ++ t :: post) trace ->
    interleave (pre ++ (e :: t) :: post) (e :: trace).

(** The batches run one after the other. *)
Inductive schedule : list (list (list effect)) -> list effect -> Prop :=
| schedule_nil : schedule [] []
| schedule_cons : forall b bs tb tbs,
    interleave b tb -> schedule bs tbs -> schedule (b :: bs) (tb ++ tbs).

Definition set_total (n : nat) (st : State) : State :=
  {| stats := {| total := n; downloaded := downloaded (stats st);
                 uploaded := uploaded (stats st);
                 skipped := skipped (stats st); failed := failed (stats st);
                 errors := errors (stats st) |};
     urlMap := urlMap st |}.

(** [migrate(attachments)] started in state [st] can end in state [st']. *)
Definition migrate (atts : list Attachment) (st st' : State) : Prop :=
  exists trace,
    schedule (batches atts) trace /\
    st' = run trace (set_total (List.length atts) st).

(** The run in which every task finishes before the next one starts. *)
Definition migrate_in_order (atts : list Attachment) (st : State) : State :=
  run (List.concat (List.concat (batches atts))) (set_total (List.length atts) st).

End Process.

(** [v || ...] on the result of [Map.prototype.get]. *)
Definition nonempty (v : option string) : option string :=
  match v with
  | Some s => if String.eqb s "" then None else Some s
  | None => None
  end.

(** [getNewUrl(idOrUrl)]; [None] is [null]. *)
Definition getNewUrl (m : JsMap) (idOrUrl : prim) : option string :=
  match nonempty (map_get m idOrUrl) with
  | Some v => Some v
  | None => nonempty (map_get m (Str (ToString idOrUrl)))
  end.

(** One turn of the loop of [updateContentUrls]. *)
Definition substitute (updated : string) (entry : prim * string) : string :=
  match fst entry with
  | Str oldUrl =>
      if startsWith oldUrl "http"
      then join (split updated oldUrl) (snd entry)
      else updated
  | _ => updated
  end.

(** [updateContentUrls(content)] *)
Definition updateContentUrls (m : JsMap) (content : string) : string :=
  fold_left substitute m content.

End MediaMigrator.

(* ================================================================== *)
(** * The document tree the cleaner works on *)
(* ================================================================== *)

Module Dom.

(** A node of the parsed content.  [tag] is the local name of an HTML
    element (the parser gives it in lower case), [attrs] its attributes in
    document order.  The model has the elements of the HTML namespace
    only.  Content with an [svg] or [math] element is beyond it: there
    the script properties differ ([className] of an SVG element is
    read-only, so that [cleanAttributes] ends in a [TypeError] on an SVG
    element with a class), and what is proved of a result of the cleaner
    is proved of content within the model. *)
Inductive node : Type :=
| Element (tag : string) (attrs : list (string * string))
          (children : list node)
| Text (data : string)
| Comment (data : string).

Definition forest : Type := list node.

Definition is_element (n : node) : bool :=
  match n with Element _ _ _ => true | _ => false end.

Definition childNodes (n : node) : forest :=
  match n with Element _ _ cs => cs | _ => [] end.

(** [element.children]: the element children. *)
Definition children_of (n : node) : forest := filter is_element (childNodes n).

Definition attributes (n : node) : list (string * string) :=
  match n with Element _ a _ => a | _ => [] end.

(** ** Attributes *)

Definition getAttribute (a : list (string * string)) (name : string)
  : option string := own_get a name.

Definition hasAttribute (a : list (string * string)) (name : string) : bool :=
  match getAttribute a name with Some _ => true | None => false end.

Fixpoint setAttribute (a : list (string * string)) (name v : string)
  : list (string * string) :=
  match a with
  | [] => [(name, v)]
  | (k, w) :: rest =>
      if String.eqb name k then (k, v) :: rest
      else (k, w) :: setAttribute rest name v
  end.

Definition removeAttribute (a : list (string * string)) (name : string)
  : list (string * string) :=
  filter (fun kv => negb (String.eqb name (fst kv))) a.

(** A reflecting string property such as [alt], [id], [target]: the
    attribute's value, or the empty string. *)
Definition reflect (a : list (string * string)) (name : string) : string :=
  match getAttribute a name with Some v => v | None => "" end.

(** ** Text *)

Fixpoint textContent (n : node) : string :=
  match n with
  | Element _ _ cs => String.concat "" (map textContent cs)
  | Text d => d
  | Comment _ => ""
  end.

(** The children after [element.textContent = s]. *)
Definition text_children (s : string) : forest :=
  if String.eqb s "" then [] else [Text s].

(** ** Tag names *)

Definition upper_ascii_char (c : ascii) : ascii :=
  let n := nat_of_ascii c in
  if ((97 <=? n) && (n <=? 122))%nat then ascii_of_nat (n - 32) else c.

(** [element.tagName] of an HTML element. *)
Definition tagName (n : node) : string :=
  match n with
  | Element t _ _ => map_string upper_ascii_char t
  | _ => ""
  end.

(** [element.tagName.toLowerCase()] *)
Definition tagName_lower (n : node) : string := toLowerCase (tagName n).

(** ASCII lower case, as the parser and the selectors use it. *)
Definition lower_ascii_char (c : ascii) : ascii :=
  let n := nat_of_ascii c in
  if ((65 <=? n) && (n <=? 90))%nat then ascii_of_nat (n + 32) else c.

Definition lower_ascii (s : string) : string := map_string lower_ascii_char s.

(** ** Class lists *)

(** ASCII white space, which separates class names. *)
Definition is_ascii_whitespace (c : ascii) : bool :=
  let n := nat_of_ascii c in
  ((n =? 9) || (n =? 10) || (n =? 12) || (n =? 13) || (n =? 32))%nat.

Fixpoint tokens_go (s : string) (cur : string) : list string :=
  match s with
  | EmptyString => if String.eqb cur "" then [] else [cur]
  | String c s' =>
      if is_ascii_whitespace c
      then (if String.eqb cur "" then tokens_go s' ""
            else cur :: tokens_go s' "")
      else tokens_go s' (snoc cur c)
  end.

Fixpoint dedup (l : list string) : list string :=
  match l with
  | [] => []
  | x :: rest => x :: filter (fun y => negb (String.eqb x y)) (dedup rest)
  end.

(** [element.classList] as a list. *)
Definition classList (a : list (string * string)) : list string :=
  dedup (tokens_go (reflect a "class") "").

(** ** Selectors *)

Inductive simple_selector : Type :=
| Tag (t : string)                    (* [t]               *)
| Class (c : string)                  (* [.c]              *)
| HasAttr (a : string)                (* [[a]]             *)
| AttrEquals (a v : string)           (* [[a="v"]]         *)
| AttrContains (a v : string)         (* [[a*="v"]]        *)
| Empty.                              (* [:empty]          *)

(** [.c] on an element with the class attribute [a].  The cleaner
    builds its document from [<div id="content">...</div>], without a
    doctype: the document is in quirks mode, in which a class selector
    matches a class name without regard to ASCII case.  ([classList]
    and the patterns on class names keep the case.) *)
Definition has_class (c : string) (a : list (string * string)) : bool :=
  existsb (fun cls => String.eqb (lower_ascii cls) (lower_ascii c))
          (classList a).

(** A compound selector is a conjunction, a selector list a disjunction. *)
Definition compound : Type := list simple_selector.
Definition selector : Type := list compound.

(** [:empty]: no element child and no text; comments do not count. *)
Definition is_empty_child (n : node) : bool :=
  match n with
  | Element _ _ _ => false
  | Text d => String.eqb d ""
  | Comment _ => true
  end.

Definition matches_simple (s : simple_selector) (n : node) : bool :=
  match n with
  | Element t a cs =>
      match s with
      | Tag t' => String.eqb t t'
      | Class c => has_class c a
      | HasAttr k => hasAttribute a k
      | AttrEquals k v =>
          match getAttribute a k with
          | Some w => String.eqb w v
          | None => false
          end
      | AttrContains k v =>
          match getAttribute a k with
          | Some w => negb (String.eqb v "") && includes w v
          | None => false
          end
      | Empty => forallb is_empty_child cs
      end
  | _ => false
  end.

Definition matches (sel : selector) (n : node) : bool :=
  existsb (fun c => forallb (fun s => matches_simple s n) c) sel.

(** The nodes of a subtree, in document order. *)
Fixpoint subtree (n : node) : list node :=
  n :: match n with
       | Element _ _ cs => flat_map subtree cs
       | _ => []
       end.

Definition descendants (n : node) : list node := flat_map subtree (childNodes n).

Definition querySelectorAll (sel : selector) (n : node) : list node :=
  filter (matches sel) (descendants n).

Definition querySelector (sel : selector) (n : node) : option node :=
  List.hd_error (querySelectorAll sel n).

(** All nodes below a container whose children are [f]. *)
Definition nodes_of (f : forest) : list node := flat_map subtree f.

(** ** The services of the DOM implementation (jsdom) *)

Record Library : Type := {
  (** The children of [<div id="content">] in the document parsed from
      the markup [<div id="content">html</div>]. *)
  parse_content : string -> forest;
  (** The children given to a new [div] by [div.innerHTML = html]. *)
  parse_inner : string -> forest;
  (** [element.innerHTML] for an element with these children. *)
  serialize : forest -> string;
  (** The value a url property ([a.href], [img.src], [iframe.src]) returns
      for an attribute with this value. *)
  resolve_url : string -> string;
  (** Whether [img.loading] reflects the attribute [loading].  In jsdom
      it does not: an image has no such property there, so that an
      assignment to it sets a property of the script object and leaves
      the attributes alone.  A DOM that follows the HTML standard in
      this reflects the attribute. *)
  reflects_loading : bool
}.

(** A reflecting url property: [''] when the attribute is absent. *)
Definition reflect_url (lib : Library) (a : list (string * string))
  (name : string) : string :=
  match getAttribute a name with
  | Some v => resolve_url lib v
  | None => ""
  end.

End Dom.

(* ================================================================== *)
(** * ContentCleaner (content-cleaner.js) *)
(* ================================================================== *)

Module ContentCleaner.

Import Dom.

(** An entry of [keepClasses] or [classesToRemove]: a literal class name
    or a regular expression, given by its [test]. *)
Inductive pattern : Type :=
| Exact (s : string)
| RegExp (test : string -> bool).

(** [pattern instanceof RegExp ? pattern.test(cls) : cls === pattern] *)
Definition pattern_matches (cls : string) (p : pattern) : bool :=
  match p with
  | Exact s => String.eqb cls s
  | RegExp test => test cls
  end.

Record Options : Type := {
  baseUrl : string;
  newBaseUrl : string;
  keepClasses : list pattern;
  removeEmpty : bool;
  semanticize_opt : bool
}.

(** [new ContentCleaner({removeEmpty: true, semanticize: true})], which is
    also [new ContentCleaner()]. *)
Definition default_options : Options :=
  {| baseUrl := ""; newBaseUrl := ""; keepClasses := [];
     removeEmpty := true; semanticize_opt := true |}.

Definition starts (p : string) : pattern := RegExp (fun cls => startsWith cls p).

Definition classesToRemove : list pattern :=
  [ starts "wp-"; starts "elementor-"; starts "e-"; starts "attachment-";
    starts "size-";
    RegExp (fun cls => startsWith cls "alignleft" || startsWith cls "alignright"
                       || startsWith cls "aligncenter"
                       || startsWith cls "alignnone");
    starts "gallery-"; starts "widget-"; starts "menu-"; starts "post-";
    starts "page-"; starts "entry-"; starts "hentry"; starts "clearfix";
    starts "has-"; starts "is-"; starts "block-" ].

Definition elementsToRemove : list selector :=
  [ [[Tag "script"]];
    [[Tag "style"]];
    [[Tag "noscript"]];
    [[Tag "iframe"; AttrContains "src" "facebook"]];
    [[Tag "iframe"; AttrContains "src" "twitter"]];
    [[Class "elementor-screen-only"]];
    [[Class "screen-reader-text"]];
    [[AttrEquals "aria-hidden" "true"; Empty]] ].

(** ** Tree surgery *)

(** Remove every node on which [p] holds, with its subtree.  [p] is
    judged on the node as it is before anything below it is removed. *)
Fixpoint prune (p : node -> bool) (n : node) : forest :=
  if p n then []
  else match n with
       | Element t a cs => [Element t a (flat_map (prune p) cs)]
       | _ => [n]
       end.

(** Replace every element on which [p] holds by its children
    ([unwrapElement]).  [p] is judged on the element as it is before
    anything below it is unwrapped. *)
Fixpoint unwrap (p : node -> bool) (n : node) : forest :=
  match n with
  | Element t a cs =>
      let cs' := flat_map (unwrap p) cs in
      if p n then cs' else [Element t a cs']
  | _ => [n]
  end.

(** Rewrite the attributes of every element. *)
Fixpoint map_attributes
  (g : string -> list (string * string) -> list (string * string))
  (n : node) : node :=
  match n with
  | Element t a cs => Element t (g t a) (map (map_attributes g) cs)
  | _ => n
  end.

(** ** Step 1 *)

(** For each selector the matching elements are listed first and removed
    afterwards.  The tree walker that follows is made with
    [whatToShow = 8], which is [NodeFilter.SHOW_CDATA_SECTION]
    ([SHOW_COMMENT] is 128): it shows CDATA sections, of which an HTML
    document has none, so that the list [comments] stays empty and no
    comment is removed. *)
Definition removeUnwantedElements (f : forest) : forest :=
  fold_left (fun f sel => flat_map (prune (matches sel)) f)
            elementsToRemove f.

Section Cleaner.

Variable lib : Library.
Variable opts : Options.

(** ** Step 2: the widget converters *)

Definition sel_class (c : string) : selector := [[Class c]].
Definition sel_tag (t : string) : selector := [[Tag t]].

Definition convertHeadingWidget (widget : node) : option forest :=
  match querySelector (sel_class "elementor-heading-title") widget with
  | Some heading =>
      Some [Element (tagName_lower heading) []
                    (text_children (textContent heading))]
  | None => None
  end.

(** [div.innerHTML = source.innerHTML] *)
Definition copy_innerHTML (source : node) : forest :=
  parse_inner lib (serialize lib (childNodes source)).

Definition convertTextWidget (widget : node) : option forest :=
  match querySelector (sel_class "elementor-text-editor") widget with
  | Some textContent => Some [Element "div" [] (copy_innerHTML textContent)]
  | None => None
  end.

(** [img.getAttribute('data-src') || img.src] *)
Definition image_source (img : node) : string :=
  match getAttribute (attributes img) "data-src" with
  | Some d => if String.eqb d "" then reflect_url lib (attributes img) "src"
              else d
  | None => reflect_url lib (attributes img) "src"
  end.

(** A created [img] after [newImg.src = ...; newImg.alt = img.alt || '']. *)
Definition new_image (img : node) : list (string * string) :=
  [("src", image_source img); ("alt", reflect (attributes img) "alt")].

Definition convertImageWidget (widget : node) : option forest :=
  match querySelector (sel_tag "img") widget with
  | Some img =>
      let figcaption :=
        match querySelector [[Class "widget-image-caption"]; [Tag "figcaption"]]
                            widget with
        | Some caption =>
            if String.eqb (trim (textContent caption)) "" then []
            else [Element "figcaption" []
                          (text_children (trim (textContent caption)))]
        | None => []
        end in
      Some [Element "figure" []
                    (Element "img" (new_image img) [] :: figcaption)]
  | None => None
  end.

Definition convertVideoWidget (widget : node) : option forest :=
  match querySelector (sel_tag "iframe") widget with
  | Some iframe =>
      Some [Element "div" [("class", "video-embed")]
              [Element "iframe"
                 [("src", reflect_url lib (attributes iframe) "src");
                  ("allowfullscreen", ""); ("loading", "lazy")] []]]
  | None => None
  end.

(** [text ? text.textContent : link.textContent] *)
Definition label (text : option node) (link : node) : string :=
  match text with
  | Some t => textContent t
  | None => textContent link
  end.

Definition convertButtonWidget (widget : node) : option forest :=
  match querySelector (sel_tag "a") widget with
  | Some link =>
      let text := querySelector (sel_class "elementor-button-text") widget in
      let target := reflect (attributes link) "target" in
      Some [Element "a"
              ([("href", reflect_url lib (attributes link) "href");
                ("class", "btn btn-primary")]
               ++ (if String.eqb target "" then [] else [("target", target)]))
              (text_children (label text link))]
  | None => None
  end.

Definition icon_list_item (item : node) : node :=
  let text := querySelector (sel_class "elementor-icon-list-text") item in
  match querySelector (sel_tag "a") item with
  | Some link =>
      Element "li" []
        [Element "a" [("href", reflect_url lib (attributes link) "href")]
                 (text_children (label text link))]
  | None =>
      match text with
      | Some t => Element "li" [] (text_children (textContent t))
      | None => Element "li" [] []
      end
  end.

Definition convertIconListWidget (widget : node) : option forest :=
  match querySelectorAll (sel_class "elementor-icon-list-item") widget with
  | [] => None
  | items => Some [Element "ul" [] (map icon_list_item items)]
  end.

Definition accordion_item (item : node) : node :=
  let title := querySelector (sel_class "elementor-accordion-title") item in
  let contentEl := querySelector (sel_class "elementor-accordion-content") item in
  Element "details" []
    [Element "summary" []
       (text_children (match title with
                       | Some t => textContent t
                       | None => ""
                       end));
     Element "div" []
       (match contentEl with
        | Some c => copy_innerHTML c
        | None => parse_inner lib ""
        end)].

(** The converter returns a document fragment: its children take the
    widget's place. *)
Definition convertAccordionWidget (widget : node) : option forest :=
  match querySelectorAll (sel_class "elementor-accordion-item") widget with
  | [] => None
  | items => Some (map accordion_item items)
  end.

Fixpoint tab_sections (tabs contents : list node) (index : nat) : forest :=
  match tabs with
  | [] => []
  | tab :: rest =>
      Element "section" []
        (Element "h3" [] (text_children (textContent tab))
         :: match nth_error contents index with
            | Some c => [Element "div" [] (copy_innerHTML c)]
            | None => []
            end)
      :: tab_sections rest contents (S index)
  end.

Definition convertTabsWidget (widget : node) : option forest :=
  let tabs := querySelectorAll (sel_class "elementor-tab-title") widget in
  let contents := querySelectorAll (sel_class "elementor-tab-content") widget in
  match tabs with
  | [] => None
  | _ => Some [Element "div" [("class", "tabs-content")]
                       (tab_sections tabs contents 0)]
  end.

(** [newImg.loading = 'lazy'] *)
Definition set_loading (a : list (string * string)) : list (string * string) :=
  if reflects_loading lib then setAttribute a "loading" "lazy" else a.

Definition gallery_figure (img : node) : node :=
  Element "figure" [] [Element "img" (set_loading (new_image img)) []].

Definition convertGalleryWidget (widget : node) : option forest :=
  match querySelectorAll (sel_tag "img") widget with
  | [] => None
  | images => Some [Element "div" [("class", "image-gallery")]
                            (map gallery_figure images)]
  end.

Definition convertImageBoxWidget (widget : node) : option forest :=
  let figure :=
    match querySelector (sel_tag "img") widget with
    | Some img => [Element "figure" [] [Element "img" (new_image img) []]]
    | None => []
    end in
  let h3 :=
    match querySelector (sel_class "elementor-image-box-title") widget with
    | Some title => [Element "h3" [] (text_children (textContent title))]
    | None => []
    end in
  let p :=
    match querySelector (sel_class "elementor-image-box-description") widget with
    | Some description =>
        [Element "p" [] (text_children (textContent description))]
    | None => []
    end in
  Some [Element "article" [("class", "image-box")] (figure ++ h3 ++ p)].

(** The own properties of [this.widgetConverters]. *)
Definition widgetConverters : list (string * (node -> option forest)) :=
  [ ("heading", convertHeadingWidget);
    ("text-editor", convertTextWidget);
    ("image", convertImageWidget);
    ("video", convertVideoWidget);
    ("button", convertButtonWidget);
    ("icon-list", convertIconListWidget);
    ("accordion", convertAccordionWidget);
    ("tabs", convertTabsWidget);
    ("image-gallery", convertGalleryWidget);
    ("image-box", convertImageBoxWidget) ].

(** What the loop body of [convertElementorWidgets] does to one widget. *)
Inductive conversion : Type :=
| Kept
| Replaced (replacement : forest)
| Raised (msg : string).

(** [this.widgetConverters[type](widget)] followed by
    [if (converted) widget.replaceWith(converted)] when [type] is not an
    own property: the table is an object literal, so the members of
    [Object.prototype] are found, and called on the widget.
    - [constructor] returns the widget itself, which replaces itself;
    - [toString], [toLocaleString] return the text [[object Object]] and
      [valueOf] the table, which [replaceWith] turns into that text;
    - [hasOwnProperty], [isPrototypeOf], [propertyIsEnumerable] return
      [false] and [__lookupGetter__], [__lookupSetter__] [undefined];
    - [__defineGetter__], [__defineSetter__] reject the missing accessor
      and [__proto__] is an object, not a function: a [TypeError]. *)
Definition inherited_conversion (type : string) : conversion :=
  match Object_prototype_get type with
  | VUndefined => Kept
  | VObjectPrototype => Raised "TypeError"
  | VString _ => Kept
  | VFunction name =>
      if mem_string name ["toString"; "toLocaleString"; "valueOf"]
      then Replaced [Text "[object Object]"]
      else if mem_string name ["__defineGetter__"; "__defineSetter__"]
      then Raised "TypeError"
      else Kept
  end.

(** [widgetType ? widgetType.split('.')[0] : null], [None] when falsy. *)
Definition widget_type (widget : node) : option string :=
  match getAttribute (attributes widget) "data-widget_type" with
  | Some widgetType =>
      let type := List.hd "" (split widgetType ".") in
      if String.eqb widgetType "" || String.eqb type "" then None
      else Some type
  | None => None
  end.

Definition convertWidget (widget : node) : conversion :=
  match widget_type widget with
  | Some type =>
      match own_get widgetConverters type with
      | Some converter =>
          match converter widget with
          | Some converted => Replaced converted
          | None => Kept
          end
      | None => inherited_conversion type
      end
  | None => Kept
  end.

(** The loop over [querySelectorAll('[data-widget_type]')], which lists
    the widgets in document order before any is replaced.  A widget is
    converted from its subtree as parsed, since the loop reaches it
    before the widgets it contains.  The widgets inside a replaced widget
    leave the document with it; their own replacement then happens in
    the detached subtree. *)
Fixpoint convert_widgets (n : node) : forest :=
  match n with
  | Element t a cs =>
      match convertWidget n with
      | Replaced converted => converted
      | _ => [Element t a (flat_map convert_widgets cs)]
      end
  | _ => [n]
  end.

(** The loop calls the converter of every listed widget, detached or
    not, so that a call that throws ends [clean]. *)
Definition raises (n : node) : bool :=
  match n with
  | Element _ _ _ =>
      match convertWidget n with
      | Raised _ => true
      | _ => false
      end
  | _ => false
  end.

Definition elementor_containers : selector :=
  [[Class "elementor-section"]; [Class "elementor-column"];
   [Class "elementor-widget-wrap"]].

Definition convertElementorWidgets (f : forest) : result forest :=
  if existsb raises (nodes_of f) then Throw "TypeError"
  else Ok (flat_map (unwrap (matches elementor_containers))
                    (flat_map convert_widgets f)).

(** ** Step 3 *)

Definition hasKeeperClass (n : node) : bool :=
  existsb (fun cls => existsb (pattern_matches cls) (keepClasses opts))
          (classList (attributes n)).

Definition blockElements : list string :=
  ["div"; "p"; "h1"; "h2"; "h3"; "h4"; "h5"; "h6"; "ul"; "ol"; "table";
   "figure"; "article"; "section"].

(** The test of [unwrapDivs] on one [div]. *)
Definition redundant_div (n : node) : bool :=
  matches (sel_tag "div") n && negb (hasKeeperClass n) &&
  match children_of n with
  | [child] => mem_string (tagName_lower child) blockElements
  | _ => false
  end.

Definition unwrapDivs (f : forest) : forest := flat_map (unwrap redundant_div) f.

(** ** Step 4 *)

Definition clean_class (a : list (string * string)) : list (string * string) :=
  match classList a with
  | [] => a
  | classes =>
      let classesToKeep :=
        filter (fun cls =>
                  negb (existsb (pattern_matches cls) classesToRemove)
                  || existsb (pattern_matches cls) (keepClasses opts))
               classes in
      let a' := setAttribute a "class" (join classesToKeep " ") in
      if String.eqb (reflect a' "class") "" then removeAttribute a' "class"
      else a'
  end.

Definition is_data_attribute (name : string) : bool :=
  startsWith name "data-" && negb (String.eqb name "data-src").

Definition generated_id (i : string) : bool :=
  existsb (startsWith i)
          ["elementor-"; "wp-"; "post-"; "page-"; "widget-"; "menu-"].

Definition clean_attributes_of (t : string) (a : list (string * string))
  : list (string * string) :=
  let a1 := clean_class a in
  let a2 := filter (fun kv => negb (is_data_attribute (fst kv))) a1 in
  let a3 := removeAttribute a2 "style" in
  let i := reflect a3 "id" in
  if negb (String.eqb i "") && generated_id i then removeAttribute a3 "id"
  else a3.

(** On the HTML elements of the model the assignment to [className]
    succeeds; see [Dom.node] for the elements of other namespaces. *)
Definition cleanAttributes (f : forest) : forest :=
  map (map_attributes clean_attributes_of) f.

(** ** Step 5 *)

(** The replacement text of [String.prototype.replace] with a string
    pattern: [$$], [$&], [$`] and [$'] are expanded; [before] is empty
    here, the match being a prefix. *)
Fixpoint substitution (matched after repl : string) : string :=
  match repl with
  | EmptyString => EmptyString
  | String d rest =>
      if Ascii.eqb d "$"%char then
        match rest with
        | String c r =>
            if Ascii.eqb c "$"%char then String "$"%char (substitution matched after r)
            else if Ascii.eqb c "&"%char then matched ++ substitution matched after r
            else if Ascii.eqb c "`"%char then substitution matched after r
            else if Ascii.eqb c "'"%char then after ++ substitution matched after r
            else String d (substitution matched after rest)
        | EmptyString => String d EmptyString
        end
      else String d (substitution matched after rest)
  end.

Fixpoint drop (n : nat) (s : string) : string :=
  match n, s with
  | S k, String _ s' => drop k s'
  | _, _ => s
  end.

(** [convertUrl(url)] *)
Definition convertUrl (u : string) : string :=
  if String.eqb u "" then u
  else if startsWith u (baseUrl opts) then
    let after := drop (String.length (baseUrl opts)) u in
    substitution (baseUrl opts) after (newBaseUrl opts) ++ after
  else if startsWith u "/" && negb (startsWith u "//") then
    newBaseUrl opts ++ u
  else u.

Definition fix_urls_of (t : string) (a : list (string * string))
  : list (string * string) :=
  if String.eqb t "a" && hasAttribute a "href" then
    setAttribute a "href" (convertUrl (reflect_url lib a "href"))
  else if String.eqb t "img" && hasAttribute a "src" then
    let a' := setAttribute a "src" (convertUrl (reflect_url lib a "src")) in
    match getAttribute a' "data-src" with
    | Some d => if String.eqb d "" then a'
                else setAttribute a' "data-src" (convertUrl d)
    | None => a'
    end
  else a.

Definition fixUrls (f : forest) : forest :=
  if String.eqb (baseUrl opts) "" || String.eqb (newBaseUrl opts) "" then f
  else map (map_attributes fix_urls_of) f.

(** ** Step 6 *)

(** [if (!img.alt) img.alt = ''] and then [img.loading = 'lazy']. *)
Definition semanticize_of (t : string) (a : list (string * string))
  : list (string * string) :=
  if String.eqb t "img" then
    let a' := if String.eqb (reflect a "alt") "" then setAttribute a "alt" ""
              else a in
    set_loading a'
  else a.

Definition semanticize (f : forest) : forest :=
  map (map_attributes semanticize_of) f.

(** ** Step 7 *)

Definition emptyTags : list string :=
  ["p"; "div"; "span"; "li"; "ul"; "ol"; "section"; "article"].

Definition media : selector :=
  [[Tag "img"]; [Tag "iframe"]; [Tag "video"]; [Tag "audio"]; [Tag "canvas"];
   [Tag "svg"]].

(** The test on one listed element. *)
Definition is_empty_element (tag : string) (n : node) : bool :=
  matches (sel_tag tag) n &&
  String.eqb (trim (textContent n)) "" &&
  match querySelector media n with Some _ => false | None => true end.

(** One turn of the [do] loop: the forest after it and the flag
    [removed]. *)
Definition remove_round (f : forest) : forest * bool :=
  fold_left
    (fun acc tag =>
       (flat_map (prune (is_empty_element tag)) (fst acc),
        snd acc || existsb (is_empty_element tag) (nodes_of (fst acc))))
    emptyTags (f, false).

Fixpoint remove_loop (fuel : nat) (f : forest) : forest :=
  match fuel with
  | O => f
  | S fuel' =>
      let (f', removed) := remove_round f in
      if removed then remove_loop fuel' f' else f'
  end.

(** Every turn but the last removes an element, so that as many turns
    as there are nodes, and one more, are enough. *)
Definition removeEmptyElements (f : forest) : forest :=
  remove_loop (S (List.length (nodes_of f))) f.

(** ** Step 8 *)

(** [s.replace(re, repl)] for a global regular expression whose matches
    are never empty: [matcher prev rest] is the length of the match that
    starts at [rest], [prev] being the code unit before it. *)
Fixpoint replace_matches (matcher : option ascii -> string -> option nat)
  (repl : string) (prev : option ascii) (s : string) (skip : nat) : string :=
  match s with
  | EmptyString => EmptyString
  | String c s' =>
      match skip with
      | S k => replace_matches matcher repl (Some c) s' k
      | O =>
          match matcher prev s with
          | Some (S n) => repl ++ replace_matches matcher repl (Some c) s' n
          | _ => String c (replace_matches matcher repl (Some c) s' 0)
          end
      end
  end.

Definition replace_regexp (matcher : option ascii -> string -> option nat)
  (repl s : string) : string :=
  replace_matches matcher repl None s 0.

Definition is_newline (c : ascii) : bool := Ascii.eqb c "010"%char.

(** The length of the white space that [s] starts with. *)
Fixpoint space_run (s : string) : nat :=
  match s with
  | String c s' => if is_space c then S (space_run s') else 0
  | EmptyString => 0
  end.

(** Among the first [n] code units of [s], the positions after the last
    one on which [p] holds, counted from the start, and how many there
    are on which [p] holds. *)
Fixpoint last_where (p : ascii -> bool) (n : nat) (s : string) : nat * nat :=
  match n, s with
  | S k, String c s' =>
      let (e, count) := last_where p k s' in
      if p c then ((if (count =? 0)%nat then 1 else S e), S count)
      else ((if (count =? 0)%nat then 0 else S e), count)
  | _, _ => (0, 0)
  end.

(** [/\n\s*\n\s*\n/]: from a newline through the last newline of the
    white space it opens, when that holds three newlines. *)
Definition blank_lines (prev : option ascii) (s : string) : option nat :=
  match s with
  | String c _ =>
      if is_newline c then
        let (e, count) := last_where is_newline (space_run s) s in
        if (3 <=? count)%nat then Some e else None
      else None
  | EmptyString => None
  end.

(** [/>\s+</] *)
Definition between_tags (prev : option ascii) (s : string) : option nat :=
  match s with
  | String c s' =>
      if Ascii.eqb c ">"%char then
        match space_run s', drop (space_run s') s' with
        | S k, String d _ =>
            if Ascii.eqb d "<"%char then Some (S (S (S k))) else None
        | _, _ => None
        end
      else None
  | EmptyString => None
  end.

Definition at_line_start (prev : option ascii) : bool :=
  match prev with
  | None => true
  | Some c => is_line_terminator c
  end.

(** [/^\s+|\s+$/m]: white space at the start of a line, all of it; or
    white space up to the last line terminator it holds, or up to the end
    of the string. *)
Definition line_edges (prev : option ascii) (s : string) : option nat :=
  match space_run s with
  | O => None
  | run =>
      if at_line_start prev then Some run
      else match drop run s with
           | EmptyString => Some run
           | _ =>
               let (e, count) := last_where is_line_terminator run s in
               if (count =? 0)%nat then None else Some (e - 1)
           end
  end.

Fixpoint newline_run (s : string) : nat :=
  match s with
  | String c s' => if is_newline c then S (newline_run s') else 0
  | EmptyString => 0
  end.

(** [/^\n+|\n+$/] *)
Definition outer_newlines (prev : option ascii) (s : string) : option nat :=
  match newline_run s with
  | O => None
  | run =>
      match prev with
      | None => Some run
      | Some _ =>
          match drop run s with
          | EmptyString => Some run
          | _ => None
          end
      end
  end.

Definition newline : string := String "010"%char EmptyString.

(** [cleanWhitespace(html)] *)
Definition cleanWhitespace (html : string) : string :=
  replace_regexp outer_newlines ""
    (replace_regexp line_edges ""
       (replace_regexp between_tags (">" ++ newline ++ "<")
          (replace_regexp blank_lines (newline ++ newline) html))).

(** ** The pipeline *)

(** Steps 1 to 7, on the children of the content element. *)
Definition clean_tree (content : forest) : result forest :=
  let c1 := removeUnwantedElements content in
  c2 <- convertElementorWidgets c1 ;;
  let c3 := unwrapDivs c2 in
  let c4 := cleanAttributes c3 in
  let c5 := fixUrls c4 in
  let c6 := if semanticize_opt opts then semanticize c5 else c5 in
  let c7 := if removeEmpty opts then removeEmptyElements c6 else c6 in
  Ok c7.

(** [clean(html)] for a string [html]. *)
Definition clean (html : string) : result string :=
  if String.eqb html "" then Ok ""
  else
    content <- clean_tree (parse_content lib html) ;;
    Ok (trim (cleanWhitespace (serialize lib content))).

End Cleaner.

End ContentCleaner.

(* ================================================================== *)
(** * A small DOM implementation *)
(* ================================================================== *)

(** The cleaner is parametric in the DOM implementation.  To run it on
    concrete markup this module gives one: the HTML fragment
    serialisation algorithm, and a parser for well-nested markup with
    quoted attribute values (no implied end tags, no raw-text
    elements), on which it agrees with the HTML parsing algorithm.  Url
    properties return the attribute as written, as they do for a url that
    is already in serialised form. *)
Module SimpleDom.

Import Dom.

Definition void_elements : list string :=
  ["area"; "base"; "basefont"; "bgsound"; "br"; "col"; "embed"; "frame";
   "hr"; "img"; "input"; "keygen"; "link"; "meta"; "param"; "source";
   "track"; "wbr"].

Definition raw_text_elements : list string :=
  ["style"; "script"; "xmp"; "iframe"; "noembed"; "noframes"; "plaintext"].

Definition nbsp : ascii := ascii_of_nat 160.
Definition quote : ascii := ascii_of_nat 34.
Definition apostrophe : ascii := ascii_of_nat 39.

Fixpoint escape (attribute_mode : bool) (s : string) : string :=
  match s with
  | EmptyString => EmptyString
  | String c s' =>
      (if Ascii.eqb c "&"%char then "&amp;"
       else if Ascii.eqb c nbsp then "&nbsp;"
       else if attribute_mode then
         (if Ascii.eqb c quote then "&quot;" else String c "")
       else if Ascii.eqb c "<"%char then "&lt;"
       else if Ascii.eqb c ">"%char then "&gt;"
       else String c "")
      ++ escape attribute_mode s'
  end.

Definition attribute_text (kv : string * string) : string :=
  " " ++ fst kv ++ "=" ++ String quote (escape true (snd kv))
      ++ String quote "".

Fixpoint serialize_node (raw : bool) (n : node) : string :=
  match n with
  | Text d => if raw then d else escape false d
  | Comment d => "<!--" ++ d ++ "-->"
  | Element t a cs =>
      "<" ++ t ++ String.concat "" (map attribute_text a) ++ ">" ++
      (if mem_string t void_elements then ""
       else String.concat ""
              (map (serialize_node (mem_string t raw_text_elements)) cs)
            ++ "</" ++ t ++ ">")
  end.

Definition serialize (f : forest) : string :=
  String.concat "" (map (serialize_node false) f).

(** ** Tokens *)

Inductive token : Type :=
| StartTag (t : string) (a : list (string * string))
| EndTag (t : string)
| Characters (d : string)
| CommentToken (d : string).

Fixpoint span (p : ascii -> bool) (s : string) : string * string :=
  match s with
  | String c s' =>
      if p c then let (a, b) := span p s' in (String c a, b)
      else (EmptyString, s)
  | EmptyString => (EmptyString, EmptyString)
  end.

(** The text before the first occurrence of [pat], and the text after
    it. *)
Fixpoint until (pat s : string) : string * string :=
  if startsWith s pat then (EmptyString, ContentCleaner.drop (String.length pat) s)
  else match s with
       | String c s' => let (a, b) := until pat s' in (String c a, b)
       | EmptyString => (EmptyString, EmptyString)
       end.

Fixpoint decode_go (s : string) (skip : nat) : string :=
  match s with
  | EmptyString => EmptyString
  | String c s' =>
      match skip with
      | S k => decode_go s' k
      | O =>
          if startsWith s "&amp;" then String "&"%char (decode_go s' 4)
          else if startsWith s "&lt;" then String "<"%char (decode_go s' 3)
          else if startsWith s "&gt;" then String ">"%char (decode_go s' 3)
          else if startsWith s "&quot;" then String quote (decode_go s' 5)
          else if startsWith s "&nbsp;" then String nbsp (decode_go s' 5)
          else String c (decode_go s' 0)
      end
  end.

Definition decode (s : string) : string := decode_go s 0.

Definition name_char (c : ascii) : bool :=
  negb (is_ascii_whitespace c || Ascii.eqb c "="%char || Ascii.eqb c ">"%char
        || Ascii.eqb c "/"%char).

(** An equals sign and a value between double or single quotes: the
    value and the text after it. *)
Definition quoted_value (s : string) : option (string * string) :=
  match s with
  | String e (String q r) =>
      if Ascii.eqb e "="%char &&
         (Ascii.eqb q quote || Ascii.eqb q apostrophe)
      then let (v, r') := span (fun d => negb (Ascii.eqb d q)) r in
           Some (v, ContentCleaner.drop 1 r')
      else None
  | _ => None
  end.

Fixpoint attributes_of (fuel : nat) (s : string)
  : list (string * string) * string :=
  match fuel with
  | O => ([], s)
  | S fuel' =>
      match snd (span is_ascii_whitespace s) with
      | EmptyString => ([], EmptyString)
      | String c r as s1 =>
          if Ascii.eqb c ">"%char then ([], r)
          else if Ascii.eqb c "/"%char then attributes_of fuel' r
          else
            let (name, r1) := span name_char s1 in
            match quoted_value r1 with
            | Some (v, r2) =>
                let (more, rest) := attributes_of fuel' r2 in
                ((lower_ascii name, decode v) :: more, rest)
            | None =>
                let (more, rest) :=
                  attributes_of fuel'
                    (match name with
                     | EmptyString => ContentCleaner.drop 1 r1
                     | _ => r1
                     end) in
                (match name with
                 | EmptyString => more
                 | _ => (lower_ascii name, "") :: more
                 end, rest)
            end
      end
  end.

Definition is_letter (c : ascii) : bool :=
  let n := nat_of_ascii c in
  ((65 <=? n) && (n <=? 90) || (97 <=? n) && (n <=? 122))%nat.

Fixpoint tokenize (fuel : nat) (s : string) : list token :=
  match fuel with
  | O => []
  | S fuel' =>
      match s with
      | EmptyString => []
      | String c r =>
          if startsWith s "<!--" then
            let (d, rest) := until "-->" (ContentCleaner.drop 4 s) in
            CommentToken d :: tokenize fuel' rest
          else if startsWith s "</" then
            let (name, rest) :=
              span (fun d => negb (Ascii.eqb d ">"%char)) (ContentCleaner.drop 2 s) in
            EndTag (lower_ascii name) :: tokenize fuel' (ContentCleaner.drop 1 rest)
          else if Ascii.eqb c "<"%char &&
                  match r with String d _ => is_letter d | _ => false end then
            let (name, r1) := span name_char r in
            let (a, rest) := attributes_of (String.length r1) r1 in
            StartTag (lower_ascii name) a :: tokenize fuel' rest
          else
            let (d, rest) := span (fun d => negb (Ascii.eqb d "<"%char)) r in
            Characters (decode (String c d)) :: tokenize fuel' rest
      end
  end.

(** ** Tree construction *)

(** The siblings read from [toks] up to the end tag that closes their
    parent, and the tokens from that end tag on. *)
Fixpoint siblings (fuel : nat) (toks : list token) : forest * list token :=
  match fuel with
  | O => ([], [])
  | S fuel' =>
      match toks with
      | [] => ([], [])
      | EndTag _ :: _ => ([], toks)
      | Characters d :: rest =>
          let (ns, r) := siblings fuel' rest in (Text d :: ns, r)
      | CommentToken d :: rest =>
          let (ns, r) := siblings fuel' rest in (Comment d :: ns, r)
      | StartTag t a :: rest =>
          if mem_string t void_elements then
            let (ns, r) := siblings fuel' rest in (Element t a [] :: ns, r)
          else
            let (cs, r1) := siblings fuel' rest in
            let (ns, r) := siblings fuel' (List.tl r1) in
            (Element t a cs :: ns, r)
      end
  end.

Definition parse (html : string) : forest :=
  let toks := tokenize (S (String.length html)) html in
  fst (siblings (S (List.length toks)) toks).

(** As in jsdom, [img.loading] is not a property of the DOM.  The
    document of the cleaner has the address [about:blank], against which
    no relative url resolves: a url property returns such an attribute
    as written, and an absolute url in serialised form as well.  The
    examples use no other urls. *)
Definition library : Library :=
  {| Dom.parse_content := parse;
     Dom.parse_inner := parse;
     Dom.serialize := serialize;
     Dom.resolve_url := fun u => u;
     Dom.reflects_loading := false |}.

End SimpleDom.

(* ================================================================== *)
(** * The orchestrator (migrate.js) *)
(* ================================================================== *)

Module Orchestrator.

Record CliOptions : Type := {
  inputFile : option string;
  dryRun : bool;
  downloadMedia : bool;
  uploadMedia : bool;
  verbose : bool;
  outputDir : string
}.

(** A page or post as the parser returns it; dates are kept as text. *)
Record WpPage : Type := {
  title : string;
  slug : string;
  content : string;
  excerpt : string;
  status : value;
  menuOrder : Z;
  createdAt : string;
  modifiedAt : string;
  featuredImage : prim
}.

Record MenuItem : Type := {
  item_title : string;
  item_url : string;
  objectType : string;
  order : Z
}.

Record WpData : Type := {
  pages : list WpPage;
  posts : list WpPage;
  attachments : list MediaMigrator.Attachment;
  (** [Object.entries(wpData.menus)]: menu name and top-level items. *)
  menus : list (string * list MenuItem)
}.

Record PageDocument : Type := {
  doc_title : string;
  doc_slug : string;
  doc_content : string;
  doc_status : value;
  pageType : string;
  menuSection : option string;
  doc_menuOrder : Z;
  metaTitle : string;
  metaDescription : string;
  headerImage : string;
  doc_createdAt : string;
  doc_updatedAt : string;
  createdBy : string;
  updatedBy : string
}.

Record MenuSection : Type := {
  section_id : string;
  section_title : string;
  description : string;
  section_order : nat;
  visible : bool
}.

Record MediaDocument : Type := {
  media_filename : string;
  media_url : string;
  originalUrl : string;
  media_type : string;
  media_mimeType : string;
  media_alt : string;
  media_caption : string;
  media_createdAt : string;
  uploadedBy : string
}.

Record Report : Type := {
  timestamp : string;
  source : string;
  stats_pages : nat;
  stats_posts : nat;
  stats_attachments : nat;
  stats_menuSections : nat;
  report_pages : list (string * string * value);
  report_menuSections : list MenuSection;
  mediaStats : option MediaMigrator.Stats
}.

(** What a run does to the file system, the Firebase SDK, the network and
    the document store. *)
Inductive event : Type :=
| Mkdir (path : string)
| InitFirebase
| RunMedia (o : MediaMigrator.Options) (storage : bool)
| WriteReport (path : string) (r : Report)
| WriteFile (path : string) (text : string)
| CommitSections (batch : list MenuSection)
| CommitPages (batch : list PageDocument)
| CommitMedia (batch : list MediaDocument).

(** The surroundings of a run. *)
Record World : Type := {
  dom : Dom.Library;
  inputExists : bool;                     (* fs.access(inputFile) *)
  (** [initFirebase()] returns a database rather than [null]. *)
  credentials : bool;
  (** After a failed [initFirebase()], whether [admin.initializeApp] had
      succeeded before the failure. *)
  appAfterFailure : bool;
  (** [admin.storage().bucket().name], given whether the default app is
      initialised. *)
  bucketName : bool -> result string;
  parse : result WpData;                  (* parser.parse(inputFile) *)
  mediaEnv : MediaMigrator.Env;
  (** The state in which the media migrator ends. *)
  mediaEnd : MediaMigrator.Options -> bool -> list MediaMigrator.Attachment
             -> MediaMigrator.State;
  now : string;                           (* new Date().toISOString() *)
  (** The outcome of the [n]-th [batch.commit()]. *)
  commit : nat -> result unit
}.

(** A world whose media migrator ends in a state [migrate] allows. *)
Definition media_consistent (w : World) : Prop :=
  forall o storage atts,
    MediaMigrator.migrate (mediaEnv w) o storage atts MediaMigrator.fresh
                          (mediaEnd w o storage atts).

(** ** Computations that log events and may throw *)

Definition M (A : Type) : Type := list event -> list event * result A.

Definition ret {A} (a : A) : M A := fun log => (log, Ok a).

Definition throw {A} (msg : string) : M A := fun log => (log, Throw msg).

Definition emit (e : event) : M unit := fun log => (log ++ [e], Ok tt).

Definition lift {A} (r : result A) : M A := fun log => (log, r).

Definition mbind {A B} (c : M A) (k : A -> M B) : M B :=
  fun log =>
    match c log with
    | (log', Ok a) => k a log'
    | (log', Throw msg) => (log', Throw msg)
    end.

Notation "x <~ c ;;; k" := (mbind c (fun x => k))
  (at level 61, c at next level, right associativity).
Notation "c ;;; k" := (mbind c (fun _ => k))
  (at level 61, right associativity).

Fixpoint for_each {A} (l : list A) (body : A -> M unit) : M unit :=
  match l with
  | [] => ret tt
  | x :: rest => body x ;;; for_each rest body
  end.

(** ** Helpers *)

Definition word_char (c : ascii) : bool :=
  let n := nat_of_ascii c in
  ((97 <=? n) && (n <=? 122) || (65 <=? n) && (n <=? 90) ||
   (48 <=? n) && (n <=? 57) || (n =? 95))%nat.

Fixpoint filter_string (p : ascii -> bool) (s : string) : string :=
  match s with
  | EmptyString => EmptyString
  | String c s' => if p c then String c (filter_string p s')
                   else filter_string p s'
  end.

(** [.replace(/\s+/g, '-')] *)
Fixpoint spaces_to_hyphen (s : string) : string :=
  match s with
  | EmptyString => EmptyString
  | String c s' =>
      if is_space c
      then match s' with
           | String c' _ =>
               if is_space c' then spaces_to_hyphen s'
               else String MediaMigrator.hyphen (spaces_to_hyphen s')
           | EmptyString => String MediaMigrator.hyphen EmptyString
           end
      else String c (spaces_to_hyphen s')
  end.

(** [slugify(text)] *)
Definition slugify (text : string) : string :=
  trim
    (MediaMigrator.collapse_hyphens
       (spaces_to_hyphen
          (filter_string
             (fun c => word_char c || is_space c
                       || Ascii.eqb c MediaMigrator.hyphen)
             (toLowerCase text)))).

Fixpoint drop_last_slash (s : string) : string :=
  match s with
  | EmptyString => EmptyString
  | String c EmptyString => if Ascii.eqb c "/"%char then EmptyString else s
  | String c s' => String c (drop_last_slash s')
  end.

(** [url.replace(/^\/|\/$/g, '')] *)
Definition strip_slashes (u : string) : string :=
  match u with
  | String c u' => if Ascii.eqb c "/"%char then drop_last_slash u'
                   else drop_last_slash u
  | EmptyString => EmptyString
  end.

(** [s.substring(0, n)] *)
Fixpoint substring0 (n : nat) (s : string) : string :=
  match n, s with
  | S k, String c s' => String c (substring0 k s')
  | _, _ => EmptyString
  end.

Definition or_empty (v : option string) : string :=
  match v with Some s => s | None => "" end.

Section Run.

Variable options : CliOptions.
Variable w : World.

Definition clean : string -> result string :=
  ContentCleaner.clean (dom w) ContentCleaner.default_options.

Definition join_path : string -> string -> string :=
  MediaMigrator.path_join (mediaEnv w).

(** The flag [options.dryRun] after the attempt to initialise Firebase. *)
Definition dry : bool := dryRun options || negb (credentials w).

(** Whether the default Firebase app exists once [initFirebase] has or
    has not been called. *)
Definition appInitialised : bool :=
  if dryRun options then false
  else if credentials w then true else appAfterFailure w.

(** The media migrator, when one is made. *)
Record Migrator : Type := {
  migratorOptions : MediaMigrator.Options;
  migratorStorage : bool;
  migratorState : MediaMigrator.State
}.

Definition migrateMedia (data : WpData) : M (option Migrator) :=
  if downloadMedia options || uploadMedia options then
    bucket <~ (if uploadMedia options
               then b <~ lift (bucketName w appInitialised) ;;; ret (Some b)
               else ret None) ;;;
    let o :=
      {| MediaMigrator.downloadDir := join_path (outputDir options) "media";
         MediaMigrator.storageBucket :=
           match bucket with
           | Some b => if String.eqb b "" then None else Some b
           | None => None
           end;
         MediaMigrator.concurrency := 0;
         MediaMigrator.skipExisting := true |} in
    let storage :=
      uploadMedia options && negb dry &&
      match MediaMigrator.storageBucket o with Some _ => true | None => false end in
    emit (RunMedia o storage) ;;;
    ret (Some {| migratorOptions := o; migratorStorage := storage;
                 migratorState := mediaEnd w o storage (attachments data) |})
  else ret None.

Definition finalContent (m : option Migrator) (cleaned : string) : string :=
  match m with
  | Some mm =>
      MediaMigrator.updateContentUrls
        (MediaMigrator.urlMap (migratorState mm)) cleaned
  | None => cleaned
  end.

(** [mediaMigrator?.getNewUrl(featuredImage) || ''] *)
Definition header (m : option Migrator) (image : prim) : string :=
  match m with
  | Some mm =>
      or_empty (MediaMigrator.getNewUrl
                  (MediaMigrator.urlMap (migratorState mm)) image)
  | None => ""
  end.

Definition toDocument (m : option Migrator) (news : bool) (page : WpPage)
  : result PageDocument :=
  cleanedContent <- clean (content page) ;;
  description <- clean (excerpt page) ;;
  Ok {| doc_title := title page;
        doc_slug := slug page;
        doc_content := finalContent m cleanedContent;
        doc_status := status page;
        pageType := if news then "news" else "standard";
        menuSection := if news then Some "news" else None;
        doc_menuOrder := if news then 0%Z else menuOrder page;
        metaTitle := title page;
        metaDescription := substring0 160 description;
        headerImage := header m (featuredImage page);
        doc_createdAt := createdAt page;
        doc_updatedAt := modifiedAt page;
        createdBy := "migration";
        updatedBy := "migration" |}.

Fixpoint toDocuments (m : option Migrator) (news : bool) (l : list WpPage)
  : result (list PageDocument) :=
  match l with
  | [] => Ok []
  | page :: rest =>
      d <- toDocument m news page ;;
      ds <- toDocuments m news rest ;;
      Ok (d :: ds)
  end.

Definition assigned (menuName : string) (item : MenuItem) (p : PageDocument)
  : PageDocument :=
  {| doc_title := doc_title p; doc_slug := doc_slug p;
     doc_content := doc_content p; doc_status := doc_status p;
     pageType := pageType p;
     menuSection := Some (slugify menuName);
     doc_menuOrder := order item;
     metaTitle := metaTitle p; metaDescription := metaDescription p;
     headerImage := headerImage p; doc_createdAt := doc_createdAt p;
     doc_updatedAt := doc_updatedAt p; createdBy := createdBy p;
     updatedBy := updatedBy p |}.

(** [pages.find(...)] and the assignment to the page found. *)
Fixpoint assign_first (menuName : string) (item : MenuItem)
  (docs : list PageDocument) : list PageDocument :=
  match docs with
  | [] => []
  | p :: rest =>
      if String.eqb (doc_slug p) (strip_slashes (item_url item))
         || String.eqb (doc_title p) (item_title item)
      then assigned menuName item p :: rest
      else p :: assign_first menuName item rest
  end.

Definition assign_item (menuName : string) (docs : list PageDocument)
  (item : MenuItem) : list PageDocument :=
  if String.eqb (objectType item) "page" then assign_first menuName item docs
  else docs.

(** The loop over the menus: the documents and the sections so far. *)
Definition assign_menu (acc : list PageDocument * list MenuSection)
  (menu : string * list MenuItem) : list PageDocument * list MenuSection :=
  match snd menu with
  | [] => acc
  | items =>
      (fold_left (assign_item (fst menu)) items (fst acc),
       snd acc ++ [{| section_id := slugify (fst menu);
                      section_title := fst menu;
                      description := "";
                      section_order := List.length (snd acc);
                      visible := true |}])
  end.

(** What stages 1 to 3 hand to the report. *)
Record Prepared : Type := {
  data : WpData;
  migrator : option Migrator;
  documents : list PageDocument;
  sections : list MenuSection
}.

(** Up to the report: the checks on the input, the attempt to reach
    Firebase, then stages 1 to 3. *)
Definition prepare : M Prepared :=
  match inputFile options with
  | None => throw "No input file specified"
  | Some input =>
      if String.eqb input "" then throw "No input file specified"
      else if negb (inputExists w) then throw "Input file not found"
      else
        emit (Mkdir (outputDir options)) ;;;
        (if dryRun options then ret tt else emit InitFirebase) ;;;
        wpData <~ lift (parse w) ;;;
        m <~ migrateMedia wpData ;;;
        fromPages <~ lift (toDocuments m false (pages wpData)) ;;;
        fromPosts <~ lift (toDocuments m true (posts wpData)) ;;;
        let (docs, secs) :=
          fold_left assign_menu (menus wpData) (fromPages ++ fromPosts, []) in
        ret {| data := wpData; migrator := m; documents := docs;
               sections := secs |}
  end.

Definition report_of (p : Prepared) : Report :=
  {| timestamp := now w;
     source := or_empty (inputFile options);
     stats_pages := List.length (documents p);
     stats_posts := List.length (posts (data p));
     stats_attachments := List.length (attachments (data p));
     stats_menuSections := List.length (sections p);
     report_pages :=
       map (fun d => (doc_title d, doc_slug d, doc_status d)) (documents p);
     report_menuSections := sections p;
     mediaStats :=
       match migrator p with
       | Some mm => Some (MediaMigrator.stats (migratorState mm))
       | None => None
       end |}.

Definition contentPath : string := join_path (outputDir options) "cleaned-content".

Definition preview (d : PageDocument) : event :=
  WriteFile (join_path contentPath (doc_slug d ++ ".html")) (doc_content d).

(** Stage 4: the report and the previews. *)
Definition writeReport (p : Prepared) : M unit :=
  emit (WriteReport (join_path (outputDir options) "migration-report.json")
                    (report_of p)) ;;;
  emit (Mkdir contentPath) ;;;
  for_each (documents p) (fun d => emit (preview d)).

Definition is_commit (e : event) : bool :=
  match e with
  | CommitSections _ | CommitPages _ | CommitMedia _ => true
  | _ => false
  end.

(** [await batch.commit()] *)
Definition commit_batch (batch : event) : M unit :=
  fun log =>
    match commit w (List.length (filter is_commit log)) with
    | Ok _ => (log ++ [batch], Ok tt)
    | Throw msg => (log, Throw msg)
    end.

Definition maxBatchSize : nat := 500.

Definition mediaDocument (mm : Migrator) (a : MediaMigrator.Attachment)
  : list MediaDocument :=
  match MediaMigrator.getNewUrl (MediaMigrator.urlMap (migratorState mm))
                                (Str (MediaMigrator.url a)) with
  | Some newUrl =>
      [{| media_filename := MediaMigrator.filename a;
          media_url := newUrl;
          originalUrl := MediaMigrator.url a;
          media_type :=
            (let t := List.hd "" (split (MediaMigrator.mimeType a) "/") in
             if String.eqb t "" then "file" else t);
          media_mimeType := MediaMigrator.mimeType a;
          media_alt := MediaMigrator.alt a;
          media_caption := MediaMigrator.caption a;
          media_createdAt := MediaMigrator.createdAt a;
          uploadedBy := "migration" |}]
  | None => []
  end.

(** Stage 5: the writes to Firestore. *)
Definition writeToFirestore (p : Prepared) : M unit :=
  (match sections p with
   | [] => ret tt
   | secs => commit_batch (CommitSections secs)
   end) ;;;
  for_each (MediaMigrator.chunk (documents p) maxBatchSize)
           (fun b => commit_batch (CommitPages b)) ;;;
  match migrator p with
  | Some mm =>
      if uploadMedia options then
        for_each (MediaMigrator.chunk
                    (flat_map (mediaDocument mm) (attachments (data p)))
                    maxBatchSize)
                 (fun b => commit_batch (CommitMedia b))
      else ret tt
  | None => ret tt
  end.

(** [migrate(options)]: a thrown error reaches the caller, which prints
    it and exits with status 1. *)
Definition migrate : M unit :=
  p <~ prepare ;;;
  writeReport p ;;;
  if dry then ret tt else writeToFirestore p.

End Run.

(** The events of a whole run and how it ends. *)
Definition run (options : CliOptions) (w : World) : list event * result unit :=
  migrate options w [].

End Orchestrator.

(* ================================================================== *)
(** * Notions used to state the properties *)
(* ================================================================== *)

Module Notions.

(** The keys that [updateContentUrls] substitutes. *)
Definition substituted (k : prim) : bool :=
  match k with
  | Str u => startsWith u "http"
  | _ => false
  end.

(** A page that shows the number 42 is migrated with the image of
    id 42. *)
Definition example_map : JsMap :=
  [ (Str "http://old.example/a.png", "/images/a.png");
    (Num 42, "/images/a.png") ].

(** ** Media migration *)

Section Media.

Variable env : MediaMigrator.Env.
Variable o : MediaMigrator.Options.
Variable storage : bool.

Import MediaMigrator.

(** The local file is there and existing files are skipped. *)
Definition existing (i : nat) : bool := skipExisting o && fileExists env i.

Definition download_ok (i : nat) : bool :=
  match downloadFile env i with Ok _ => true | Throw _ => false end.

Definition upload_ok (i : nat) : bool :=
  match uploadToStorage_io env i with Ok _ => true | Throw _ => false end.

(** The attachment at position [i] has a source url and is processed
    without an error. *)
Definition succeeded (ia : nat * Attachment) : bool :=
  negb (String.eqb (url (snd ia)) "") &&
  (existing (fst ia) ||
   download_ok (fst ia) && (negb storage || upload_ok (fst ia))).

(** The attachment is downloaded and its upload then fails. *)
Definition upload_failed (ia : nat * Attachment) : bool :=
  negb (String.eqb (url (snd ia)) "") && negb (existing (fst ia)) &&
  download_ok (fst ia) && storage && negb (upload_ok (fst ia)).

(** The new url of an attachment that is processed without an error. *)
Definition newUrl (ia : nat * Attachment) : string :=
  if existing (fst ia)
  then (if storage then getStorageUrl env o (fst ia) (snd ia)
        else localUrl env o (fst ia) (snd ia))
  else (if storage then uploadedUrl env o (fst ia) (snd ia)
        else localUrl env o (fst ia) (snd ia)).

(** The writes of the task that [migrate] starts for the attachment at
    a position. *)
Definition task (ia : nat * Attachment) : list effect :=
  processAttachment env o storage (fst ia) (snd ia).

(** The map entries an attachment contributes. *)
Definition contribution (ia : nat * Attachment) : JsMap :=
  if succeeded ia
  then [(Str (url (snd ia)), newUrl ia); (id (snd ia), newUrl ia)]
  else [].

End Media.

(** The url and the id of an attachment as [getNewUrl] compares them,
    that is up to [String(...)]. *)
Definition references (a : MediaMigrator.Attachment) : list string :=
  [MediaMigrator.url a; ToString (MediaMigrator.id a)].

Definition count (p : MediaMigrator.effect -> bool)
  (t : list MediaMigrator.effect) : nat := List.length (filter p t).

Definition is_skip (e : MediaMigrator.effect) : bool :=
  match e with MediaMigrator.IncSkipped => true | _ => false end.
Definition is_download (e : MediaMigrator.effect) : bool :=
  match e with MediaMigrator.IncDownloaded => true | _ => false end.
Definition is_upload (e : MediaMigrator.effect) : bool :=
  match e with MediaMigrator.IncUploaded => true | _ => false end.
Definition is_failure (e : MediaMigrator.effect) : bool :=
  match e with MediaMigrator.IncFailed _ _ => true | _ => false end.

(** The map entries written by a trace, in order. *)
Definition entries (t : list MediaMigrator.effect) : JsMap :=
  flat_map (fun e => match e with
                     | MediaMigrator.SetUrl k v => [(k, v)]
                     | _ => []
                     end) t.

(** A world for examples: POSIX paths, no local file, downloads that
    succeed, uploads that fail. *)
Definition posix_basename (p : string) : string :=
  MediaMigrator.last_part (split p "/").

Definition uploads_fail : MediaMigrator.Env :=
  {| MediaMigrator.path_join := fun a b => (a ++ "/" ++ b)%string;
     MediaMigrator.path_basename := posix_basename;
     MediaMigrator.fileExists := fun _ => false;
     MediaMigrator.downloadFile := fun _ => Ok tt;
     MediaMigrator.uploadToStorage_io := fun _ => Throw "upload failed";
     MediaMigrator.dateNow := fun _ => "0";
     MediaMigrator.getYearMonth := fun _ => "2024/01" |}.

(** The same world, in which the download of the attachment at position
    1 is answered with status 404. *)
Definition second_missing : MediaMigrator.Env :=
  {| MediaMigrator.path_join := fun a b => (a ++ "/" ++ b)%string;
     MediaMigrator.path_basename := posix_basename;
     MediaMigrator.fileExists := fun _ => false;
     MediaMigrator.downloadFile :=
       fun i => if (i =? 1)%nat then Throw "HTTP 404" else Ok tt;
     MediaMigrator.uploadToStorage_io := fun _ => Ok tt;
     MediaMigrator.dateNow := fun _ => "0";
     MediaMigrator.getYearMonth := fun _ => "2024/01" |}.

Definition media_options (bucket : option string) : MediaMigrator.Options :=
  {| MediaMigrator.downloadDir := "out/media";
     MediaMigrator.storageBucket := bucket;
     MediaMigrator.concurrency := 0;
     MediaMigrator.skipExisting := true |}.

Definition image (n : Z) (u : string) : MediaMigrator.Attachment :=
  {| MediaMigrator.url := u;
     MediaMigrator.filename := "";
     MediaMigrator.id := Num n;
     MediaMigrator.mimeType := "image/png";
     MediaMigrator.alt := "";
     MediaMigrator.caption := "";
     MediaMigrator.createdAt := "" |}.

Definition three_images : list MediaMigrator.Attachment :=
  [ image 11 "http://old.example/a.png";
    image 12 "http://old.example/b.png";
    image 13 "http://old.example/c.png" ].

(** ** Cleaning *)

(** Every element of a subtree satisfies [P], a test on its tag and
    attributes. *)
Fixpoint all_elements (P : string -> list (string * string) -> bool)
  (n : Dom.node) : bool :=
  match n with
  | Dom.Element t a cs => P t a && forallb (all_elements P) cs
  | _ => true
  end.

(** An [img] carries an [alt] attribute. *)
Definition image_has_alt (t : string) (a : list (string * string)) : bool :=
  if String.eqb t "img" then Dom.hasAttribute a "alt" else true.

(** The attribute [loading] of a node, if it has one. *)
Definition loading (n : Dom.node) : option string :=
  Dom.getAttribute (Dom.attributes n) "loading".

(** No element of a subtree carries the widget attribute. *)
Definition no_widget (t : string) (a : list (string * string)) : bool :=
  negb (Dom.hasAttribute a "data-widget_type").

(** The converter registered for the widget's type returns [null]. *)
Definition converter_returns_null (lib : Dom.Library) (w : Dom.node) : Prop :=
  exists type converter,
    ContentCleaner.widget_type w = Some type /\
    own_get (ContentCleaner.widgetConverters lib) type = Some converter /\
    converter w = None.

(** No converter is registered for the widget's type. *)
Definition no_converter (lib : Dom.Library) (w : Dom.node) : Prop :=
  exists type,
    ContentCleaner.widget_type w = Some type /\
    own_get (ContentCleaner.widgetConverters lib) type = None.

(** The widget's type names nothing that the table of converters
    inherits. *)
Definition not_inherited (w : Dom.node) : Prop :=
  forall type, ContentCleaner.widget_type w = Some type ->
               Object_prototype_get type = VUndefined.

(** The element [w] stands in the tree [n], below no widget that its
    converter replaces: a replaced widget leaves the document with all
    that is in it. *)
Inductive in_place (lib : Dom.Library) : Dom.node -> Dom.node -> Prop :=
| in_place_here : forall w, in_place lib w w
| in_place_below : forall t a cs c w,
    In c cs ->
    (forall r, ContentCleaner.convertWidget lib (Dom.Element t a cs)
               <> ContentCleaner.Replaced r) ->
    in_place lib c w ->
    in_place lib (Dom.Element t a cs) w.

(** A heading widget without a heading, holding a plain paragraph. *)
Definition headless_widget : Dom.node :=
  Dom.Element "div" [("data-widget_type", "heading.default")]
    [Dom.Element "p" [] [Dom.Text "kept"]].

(** The same widget inside a section that is no widget. *)
Definition headless_in_section : Dom.node :=
  Dom.Element "section" [] [Dom.Text "a"; headless_widget].

(** A heading widget that is converted, holding a widget of a type
    without a converter. *)
Definition widget_in_heading : string :=
  "<div data-widget_type='heading.default'><h2 class='elementor-heading-title'>T</h2><div data-widget_type='unknown.default'>lost</div></div>".

(** The number of nodes of a forest. *)
Definition size (f : Dom.forest) : nat := List.length (Dom.nodes_of f).

(** The turns of the loop of [removeEmptyElements] over [tags], from
    the forest [f] and the flag [b]. *)
Definition passes (tags : list string) (f : Dom.forest) (b : bool)
  : Dom.forest * bool :=
  fold_left
    (fun acc tag =>
       (flat_map (ContentCleaner.prune (ContentCleaner.is_empty_element tag))
                 (fst acc),
        snd acc || existsb (ContentCleaner.is_empty_element tag)
                           (Dom.nodes_of (fst acc))))
    tags (f, b).

(** A further turn of the loop finds nothing to remove. *)
Definition settled (f : Dom.forest) : Prop :=
  snd (ContentCleaner.remove_round f) = false.

Fixpoint has_dollar (s : string) : bool :=
  match s with
  | EmptyString => false
  | String c s' => Ascii.eqb c "$"%char || has_dollar s'
  end.

(** A paragraph with an image: the markup, its tree, the tree [clean]
    makes of it and the text [clean] returns. *)
Definition picture_html : string := "<p>x <img src='a.png'> y</p>".

Definition picture_parsed : Dom.forest :=
  [Dom.Element "p" []
     [Dom.Text "x "; Dom.Element "img" [("src", "a.png")] []; Dom.Text " y"]].

Definition picture_tree : Dom.forest :=
  [Dom.Element "p" []
     [Dom.Text "x ";
      Dom.Element "img" [("src", "a.png"); ("alt", "")] [];
      Dom.Text " y"]].

Definition picture_cleaned : string := SimpleDom.serialize picture_tree.

Definition rewriting : ContentCleaner.Options :=
  {| ContentCleaner.baseUrl := "http://old.example";
     ContentCleaner.newBaseUrl := "https://new.example";
     ContentCleaner.keepClasses := [];
     ContentCleaner.removeEmpty := true;
     ContentCleaner.semanticize_opt := true |}.

(** ** Runs of the orchestrator *)

Definition about_page : Orchestrator.WpPage :=
  {| Orchestrator.title := "About us";
     Orchestrator.slug := "about-us";
     Orchestrator.content := "<div><p>Welcome</p><p></p></div>";
     Orchestrator.excerpt := "";
     Orchestrator.status := VString "published";
     Orchestrator.menuOrder := 2%Z;
     Orchestrator.createdAt := "2024-01-01";
     Orchestrator.modifiedAt := "2024-01-02";
     Orchestrator.featuredImage := Null |}.

Definition one_page : Orchestrator.WpData :=
  {| Orchestrator.pages := [about_page];
     Orchestrator.posts := [];
     Orchestrator.attachments := three_images;
     Orchestrator.menus :=
       [("Main Menu",
         [{| Orchestrator.item_title := "About";
             Orchestrator.item_url := "/about-us/";
             Orchestrator.objectType := "page";
             Orchestrator.order := 1%Z |}])] |}.

(** A world without a service account: [initFirebase] fails before
    [admin.initializeApp], and [admin.storage()] then throws. *)
Definition no_credentials : Orchestrator.World :=
  {| Orchestrator.dom := SimpleDom.library;
     Orchestrator.inputExists := true;
     Orchestrator.credentials := false;
     Orchestrator.appAfterFailure := false;
     Orchestrator.bucketName :=
       fun app => if app then Ok "school.appspot.com"
                  else Throw "The default Firebase app does not exist";
     Orchestrator.parse := Ok one_page;
     Orchestrator.mediaEnv := second_missing;
     Orchestrator.mediaEnd :=
       fun o storage atts =>
         MediaMigrator.migrate_in_order second_missing o storage atts
           MediaMigrator.fresh;
     Orchestrator.now := "2024-02-01T00:00:00.000Z";
     Orchestrator.commit := fun _ => Ok tt |}.

(** A world with a service account: [initFirebase] succeeds when it is
    called, and [admin.storage()] throws when it was not. *)
Definition with_credentials : Orchestrator.World :=
  {| Orchestrator.dom := SimpleDom.library;
     Orchestrator.inputExists := true;
     Orchestrator.credentials := true;
     Orchestrator.appAfterFailure := false;
     Orchestrator.bucketName :=
       fun app => if app then Ok "school.appspot.com"
                  else Throw "The default Firebase app does not exist";
     Orchestrator.parse := Ok one_page;
     Orchestrator.mediaEnv := second_missing;
     Orchestrator.mediaEnd :=
       fun o storage atts =>
         MediaMigrator.migrate_in_order second_missing o storage atts
           MediaMigrator.fresh;
     Orchestrator.now := "2024-02-01T00:00:00.000Z";
     Orchestrator.commit := fun _ => Ok tt |}.

Definition command_line (dryRun download upload : bool)
  : Orchestrator.CliOptions :=
  {| Orchestrator.inputFile := Some "export.xml";
     Orchestrator.dryRun := dryRun;
     Orchestrator.downloadMedia := download;
     Orchestrator.uploadMedia := upload;
     Orchestrator.verbose := false;
     Orchestrator.outputDir := "out" |}.


Definition is_report (e : Orchestrator.event) : bool :=
  match e with Orchestrator.WriteReport _ _ => true | _ => false end.

End Notions.

(* ================================================================== *)
(** * WordPressParser: the helpers for names *)
(* ================================================================== *)

Module ParserHelpers.

(** [slugify(text)] of the parser; [migrate.js] has the same function. *)
Definition slugify (text : string) : string := Orchestrator.slugify text.

(** [extractFilename(url)] of the parser: [parts[parts.length - 1] || '']. *)
Definition extractFilename (u : string) : string :=
  if String.eqb u "" then ""
  else MediaMigrator.last_part (split u "/").

Definition mimeTypes : list (string * string) :=
  [ ("jpg", "image/jpeg");
    ("jpeg", "image/jpeg");
    ("png", "image/png");
    ("gif", "image/gif");
    ("webp", "image/webp");
    ("svg", "image/svg+xml");
    ("pdf", "application/pdf");
    ("doc", "application/msword");
    ("docx", "application/vnd.openxmlformats-officedocument.wordprocessingml.document");
    ("xls", "application/vnd.ms-excel");
    ("xlsx", "application/vnd.openxmlformats-officedocument.spreadsheetml.sheet");
    ("mp4", "video/mp4");
    ("webm", "video/webm");
    ("mp3", "audio/mpeg") ].

(** [guessMimeType(filename)]: [filename.split('.').pop().toLowerCase()]
    looked up in the table, [|| 'application/octet-stream']. *)
Definition guessMimeType (filename : string) : value :=
  let ext := toLowerCase (MediaMigrator.last_part (split filename ".")) in
  or_else (get_property mimeTypes ext) (VString "application/octet-stream").

End ParserHelpers.

(* ================================================================== *)
(** * The command line of migrate.js *)
(* ================================================================== *)

Module Cli.

(** The options [parseArgs] builds; [outputDir] is [None] when
    [--output] is the last argument and [args[++i]] is [undefined]. *)
Record Parsed : Type := {
  inputFile : option string;
  dryRun : bool;
  downloadMedia : bool;
  uploadMedia : bool;
  verbose : bool;
  outputDir : option string
}.

Definition initial : Parsed :=
  {| inputFile := None; dryRun := false; downloadMedia := false;
     uploadMedia := false; verbose := false;
     outputDir := Some "./migration/output" |}.

Definition with_inputFile (o : Parsed) (f : string) : Parsed :=
  {| inputFile := Some f; dryRun := dryRun o;
     downloadMedia := downloadMedia o; uploadMedia := uploadMedia o;
     verbose := verbose o; outputDir := outputDir o |}.

Definition with_dryRun (o : Parsed) : Parsed :=
  {| inputFile := inputFile o; dryRun := true;
     downloadMedia := downloadMedia o; uploadMedia := uploadMedia o;
     verbose := verbose o; outputDir := outputDir o |}.

Definition with_downloadMedia (o : Parsed) : Parsed :=
  {| inputFile := inputFile o; dryRun := dryRun o;
     downloadMedia := true; uploadMedia := uploadMedia o;
     verbose := verbose o; outputDir := outputDir o |}.

Definition with_uploadMedia (o : Parsed) : Parsed :=
  {| inputFile := inputFile o; dryRun := dryRun o;
     downloadMedia := downloadMedia o; uploadMedia := true;
     verbose := verbose o; outputDir := outputDir o |}.

Definition with_verbose (o : Parsed) : Parsed :=
  {| inputFile := inputFile o; dryRun := dryRun o;
     downloadMedia := downloadMedia o; uploadMedia := uploadMedia o;
     verbose := true; outputDir := outputDir o |}.

Definition with_outputDir (o : Parsed) (d : option string) : Parsed :=
  {| inputFile := inputFile o; dryRun := dryRun o;
     downloadMedia := downloadMedia o; uploadMedia := uploadMedia o;
     verbose := verbose o; outputDir := d |}.

(** [!options.inputFile] *)
Definition no_input (o : Parsed) : bool :=
  match inputFile o with
  | None => true
  | Some f => String.eqb f ""
  end.

(** The loop of [parseArgs] over the arguments left; [None] when
    [--help] prints the usage and ends the process with status 0. *)
Fixpoint parse_from (args : list string) (o : Parsed) : option Parsed :=
  match args with
  | [] => Some o
  | arg :: rest =>
      if String.eqb arg "--dry-run" then parse_from rest (with_dryRun o)
      else if String.eqb arg "--download-media"
      then parse_from rest (with_downloadMedia o)
      else if String.eqb arg "--upload-media"
      then parse_from rest (with_uploadMedia o)
      else if String.eqb arg "--verbose" || String.eqb arg "-v"
      then parse_from rest (with_verbose o)
      else if String.eqb arg "--output" || String.eqb arg "-o"
      then match rest with
           | d :: rest' => parse_from rest' (with_outputDir o (Some d))
           | [] => Some (with_outputDir o None)
           end
      else if String.eqb arg "--help" || String.eqb arg "-h" then None
      else if negb (startsWith arg "-") && no_input o
      then parse_from rest (with_inputFile o arg)
      else parse_from rest o
  end.

(** [parseArgs()] on [process.argv.slice(2)]. *)
Definition parseArgs (args : list string) : option Parsed :=
  parse_from args initial.

End Cli.

(* ================================================================== *)
(** * Further notions *)
(* ================================================================== *)

Module Further.

(** Every code unit of a string passes a test. *)
Fixpoint every (p : ascii -> bool) (s : string) : bool :=
  match s with
  | EmptyString => true
  | String c s' => p c && every p s'
  end.

Definition is_hyphen (c : ascii) : bool := Ascii.eqb c MediaMigrator.hyphen.

(** No two hyphens follow each other. *)
Fixpoint single_hyphens (s : string) : bool :=
  match s with
  | EmptyString => true
  | String c s' =>
      match s' with
      | String c' _ => negb (is_hyphen c && is_hyphen c') && single_hyphens s'
      | EmptyString => true
      end
  end.

Definition lower_or_digit (c : ascii) : bool :=
  let n := nat_of_ascii c in
  ((97 <=? n) && (n <=? 122) || (48 <=? n) && (n <=? 57))%nat.

(** The code units of a sanitised file name: [a-z0-9.-]. *)
Definition filename_unit (c : ascii) : bool :=
  lower_or_digit c || Ascii.eqb c "."%char || is_hyphen c.

(** The code units of a slug: [a-z0-9_-]. *)
Definition slug_unit (c : ascii) : bool :=
  lower_or_digit c || Ascii.eqb c "_"%char || is_hyphen c.

(** A string without its white space. *)
Definition squeeze (s : string) : string :=
  Orchestrator.filter_string (fun c => negb (is_space c)) s.

(** The text of a forest: what [textContent] of a container of it is. *)
Definition forest_text (f : Dom.forest) : string :=
  String.concat "" (map Dom.textContent f).

(** A test that looks at the tag and the attributes of an element only,
    and at the kind of any other node. *)
Definition shallow (p : Dom.node -> bool) : Prop :=
  forall t a cs cs', p (Dom.Element t a cs) = p (Dom.Element t a cs').


(** No attribute is [style] or a [data-] attribute other than
    [data-src]. *)
Definition presentational (name : string) : bool :=
  ContentCleaner.is_data_attribute name || String.eqb name "style".

Definition plain_attributes (t : string) (a : list (string * string)) : bool :=
  forallb (fun kv => negb (presentational (fst kv))) a.

(** The widget types whose lookup in the table of converters ends in a
    [TypeError]. *)
Definition throwing_types : list string :=
  ["__proto__"; "__defineGetter__"; "__defineSetter__"].

Definition throwing_widget (n : Dom.node) : bool :=
  match ContentCleaner.widget_type n with
  | Some type => mem_string type throwing_types
  | None => false
  end.

(** An argument that is an input file for [parseArgs]. *)
Definition positional (arg : string) : bool := negb (startsWith arg "-").

Definition plain_flag (arg : string) : bool :=
  negb (mem_string arg ["--output"; "-o"; "--help"; "-h"]).

(** The input file [parseArgs] settles on: the first positional
    argument that is not empty, or the empty string if all are. *)
Definition chosen_input (args : list string) : option string :=
  match find (fun a => positional a && negb (String.eqb a "")) args with
  | Some a => Some a
  | None => if existsb positional args then Some "" else None
  end.

(** A menu with items, which gets a section. *)
Definition has_items (menu : string * list Orchestrator.MenuItem) : bool :=
  match snd menu with [] => false | _ => true end.

(** A world in which every commit succeeds. *)
Definition commits_succeed (w : Orchestrator.World) : Prop :=
  forall n, Orchestrator.commit w n = Ok tt.

Definition kept_unit (c : ascii) : bool :=
  Orchestrator.word_char c || is_space c || Ascii.eqb c MediaMigrator.hyphen.

(** The entries a trace appends to [stats.errors], in order. *)
Definition failures (t : list MediaMigrator.effect) : list (string * string) :=
  flat_map (fun e => match e with
                     | MediaMigrator.IncFailed u msg => [(u, msg)]
                     | _ => []
                     end) t.

(** Where the new urls point: the bucket when a storage is set, the
    public image directory otherwise. *)
Definition new_url_prefix (storage : bool) : string :=
  if storage then "https://storage.googleapis.com/" else "/images/".


(** A code unit that does not separate class names. *)
Definition not_space (c : ascii) : bool := negb (Dom.is_ascii_whitespace c).

(** The attributes of the elements with tag [t] among some nodes, in
    their order. *)
Definition tagged (t : string) (l : list Dom.node) : list (list (string * string)) :=
  map Dom.attributes (filter (Dom.matches [[Dom.Tag t]]) l).

(** The first [n] code units of a string. *)
Fixpoint take (n : nat) (s : string) : string :=
  match n, s with
  | S k, String c s' => String c (take k s')
  | _, _ => EmptyString
  end.

(** Every value a computation returns satisfies [Q]. *)
Definition yields {A} (Q : A -> Prop) (c : Orchestrator.M A) : Prop :=
  forall log log' a, c log = (log', Ok a) -> Q a.

(** What stages 1 to 3 have done when they hand over: the export was
    parsed, its pages and posts were turned into documents, and the
    menus were gone through. *)
Definition prepared_from (w : Orchestrator.World) (p : Orchestrator.Prepared)
  : Prop :=
  Orchestrator.parse w = Ok (Orchestrator.data p) /\
  exists fromPages fromPosts,
    Orchestrator.toDocuments w (Orchestrator.migrator p) false
      (Orchestrator.pages (Orchestrator.data p)) = Ok fromPages /\
    Orchestrator.toDocuments w (Orchestrator.migrator p) true
      (Orchestrator.posts (Orchestrator.data p)) = Ok fromPosts /\
    fold_left Orchestrator.assign_menu
      (Orchestrator.menus (Orchestrator.data p)) (fromPages ++ fromPosts, [])
    = (Orchestrator.documents p, Orchestrator.sections p).

(** The options after a loop of [parseArgs] over flags and files that
    was started with the options [o]. *)
Definition flagged (args : list string) (o : Cli.Parsed) : Cli.Parsed :=
  {| Cli.inputFile :=
       if Cli.no_input o
       then match chosen_input args with
            | Some a => Some a
            | None => Cli.inputFile o
            end
       else Cli.inputFile o;
     Cli.dryRun := Cli.dryRun o || mem_string "--dry-run" args;
     Cli.downloadMedia := Cli.downloadMedia o || mem_string "--download-media" args;
     Cli.uploadMedia := Cli.uploadMedia o || mem_string "--upload-media" args;
     Cli.verbose :=
       Cli.verbose o || mem_string "--verbose" args || mem_string "-v" args;
     Cli.outputDir := Cli.outputDir o |}.

(** The section a document names is one of the sections, or it names
    none, or it is [news]. *)
Definition section_known (secs : list Orchestrator.MenuSection)
  (d : Orchestrator.PageDocument) : Prop :=
  match Orchestrator.menuSection d with
  | None => True
  | Some s => s = "news" \/ In s (map Orchestrator.section_id secs)
  end.

(** An element is rid of what [cleanAttributes] strips. *)
Definition stripped (t : string) (a : list (string * string)) : bool :=
  plain_attributes t a &&
  negb (ContentCleaner.generated_id (Dom.reflect a "id")).

End Further.

(* ================================================================== *)
(** * Properties *)
(* ================================================================== *)

(** ** Strings and maps *)

Lemma prim_eqb_eq (a b : prim) : prim_eqb a b = true <-> a = b.
Proof.
  destruct a, b; simpl; split; intro H;
    try reflexivity; try discriminate; try congruence.
  - apply Z.eqb_eq in H. now subst.
  - injection H as ->. apply Z.eqb_refl.
  - apply String.eqb_eq in H. now subst.
  - injection H as ->. apply String.eqb_refl.
Qed.

Lemma prim_eqb_refl (a : prim) : prim_eqb a a = true.
Proof. now apply prim_eqb_eq. Qed.

Lemma prim_eqb_neq (a b : prim) : prim_eqb a b = false <-> a <> b.
Proof.
  split.
  - intros H E. apply prim_eqb_eq in E. congruence.
  - intro H. destruct (prim_eqb a b) eqn:E; [|reflexivity].
    apply prim_eqb_eq in E. contradiction.
Qed.

Lemma append_empty_r (s : string) : (s ++ "")%string = s.
Proof. induction s as [|c s IH]; simpl; [reflexivity | now rewrite IH]. Qed.

Lemma append_assoc (a b c : string) :
  ((a ++ b) ++ c)%string = (a ++ (b ++ c))%string.
Proof. induction a as [|x a IH]; simpl; [reflexivity | now rewrite IH]. Qed.

Lemma snoc_append (cur : string) (c : ascii) (s : string) :
  (snoc cur c ++ s)%string = (cur ++ String c s)%string.
Proof. unfold snoc. now rewrite append_assoc. Qed.

(** Splitting at a separator that does not occur gives the string back. *)
Lemma split_go_absent (sep s cur : string) :
  includes s sep = false -> split_go sep s 0 cur = [(cur ++ s)%string].
Proof.
  revert cur. induction s as [|c s IH]; intros cur H.
  - simpl. now rewrite append_empty_r.
  - cbn [includes] in H. apply orb_false_iff in H as [H1 H2].
    cbn [split_go]. rewrite H1, (IH _ H2). now rewrite snoc_append.
Qed.

Lemma replace_absent (s old new : string) :
  old <> "" -> includes s old = false -> join (split s old) new = s.
Proof.
  intros Hne H. unfold split. destruct old as [|c old]; [contradiction|].
  now rewrite (split_go_absent _ _ "" H).
Qed.

Lemma startsWith_nonempty (s p : string) :
  p <> "" -> startsWith s p = true -> s <> "".
Proof.
  intros Hp H ->. destruct p; [contradiction | discriminate].
Qed.

(** ** C6: the status table *)

Lemma mapStatus_unknown (s : string) :
  own_get WordPressParser.statusMap s = None ->
  Object_prototype_get s = VUndefined ->
  WordPressParser.mapStatus s = VString "draft".
Proof.
  intros H1 H2. unfold WordPressParser.mapStatus, get_property.
  now rewrite H1, H2.
Qed.

(** C6.  [mapStatus] sends the six statuses of the table to their
    entries and an unrecognised status such as [unknown] to [draft];
    but a string that names a member inherited from [Object.prototype],
    such as [constructor], is found in the table object and returned as
    it is: a function, where the documentation promises a string and the
    claim [draft]. *)
Theorem mapStatus_table :
  WordPressParser.mapStatus "publish" = VString "published" /\
  WordPressParser.mapStatus "draft" = VString "draft" /\
  WordPressParser.mapStatus "pending" = VString "draft" /\
  WordPressParser.mapStatus "private" = VString "draft" /\
  WordPressParser.mapStatus "future" = VString "draft" /\
  WordPressParser.mapStatus "trash" = VString "archived" /\
  WordPressParser.mapStatus "unknown" = VString "draft" /\
  WordPressParser.mapStatus "constructor" = VFunction "constructor" /\
  WordPressParser.mapStatus "constructor" <> VString "draft".
Proof. repeat split; try reflexivity. discriminate. Qed.

(** ** C10: substitution of media urls *)

Lemma substitute_skips (c : string) (e : prim * string) :
  Notions.substituted (fst e) = false -> MediaMigrator.substitute c e = c.
Proof.
  unfold MediaMigrator.substitute, Notions.substituted.
  destruct (fst e); try reflexivity. now intros ->.
Qed.

Lemma updateContentUrls_filter (m : JsMap) (c : string) :
  MediaMigrator.updateContentUrls m c =
  MediaMigrator.updateContentUrls
    (filter (fun e => Notions.substituted (fst e)) m) c.
Proof.
  unfold MediaMigrator.updateContentUrls. revert c.
  induction m as [|e m IH]; intro c; [reflexivity|].
  simpl. destruct (Notions.substituted (fst e)) eqn:E.
  - simpl. apply IH.
  - rewrite (substitute_skips _ _ E). apply IH.
Qed.

Lemma updateContentUrls_absent (m : JsMap) (c : string) :
  (forall k v, In (k, v) m -> Notions.substituted k = true ->
               includes c (ToString k) = false) ->
  MediaMigrator.updateContentUrls m c = c.
Proof.
  unfold MediaMigrator.updateContentUrls.
  induction m as [|[k v] m IH]; intro H; [reflexivity|].
  simpl. assert (E : MediaMigrator.substitute c (k, v) = c).
  { unfold MediaMigrator.substitute. simpl.
    destruct k as [| |z|u]; try reflexivity.
    destruct (startsWith u "http") eqn:Eh; [|reflexivity].
    apply replace_absent.
    - eapply startsWith_nonempty; [|exact Eh]. discriminate.
    - apply (H (Str u) v); [now left | exact Eh]. }
  rewrite E. apply IH. intros k' v' Hin. apply (H k' v'). now right.
Qed.

(** C10.  [updateContentUrls] gives the same text as it gives on the map
    restricted to the keys that are strings starting with [http]; so a
    map whose keys are all numeric ids leaves every content as it is,
    also one that contains the digits of an id; and a content in which
    no substituted key occurs is returned as it is. *)
Theorem updateContentUrls_only_http_keys (m : JsMap) (content : string) :
  MediaMigrator.updateContentUrls m content =
    MediaMigrator.updateContentUrls
      (filter (fun e => Notions.substituted (fst e)) m) content /\
  ((forall k v, In (k, v) m -> exists n, k = Num n) ->
   MediaMigrator.updateContentUrls m content = content) /\
  ((forall k v, In (k, v) m -> Notions.substituted k = true ->
                includes content (ToString k) = false) ->
   MediaMigrator.updateContentUrls m content = content).
Proof.
  split; [apply updateContentUrls_filter|]. split.
  - intro H. apply updateContentUrls_absent. intros k v Hin Hs.
    destruct (H k v Hin) as [n ->]. discriminate.
  - apply updateContentUrls_absent.
Qed.

Lemma updateContentUrls_only_http_keys_witness :
  (forall k v, In (k, v) Notions.example_map -> Notions.substituted k = true ->
               includes "<p>Room 42</p>" (ToString k) = false) /\
  MediaMigrator.updateContentUrls Notions.example_map "<p>Room 42</p>"
    = "<p>Room 42</p>".
Proof.
  assert (H : forall k v, In (k, v) Notions.example_map ->
                Notions.substituted k = true ->
                includes "<p>Room 42</p>" (ToString k) = false).
  { intros k v [E | [E | []]]; inversion E; subst; intro Hs;
      [reflexivity | discriminate]. }
  split; [exact H|].
  exact (proj2 (proj2 (updateContentUrls_only_http_keys
                         Notions.example_map "<p>Room 42</p>")) H).
Defined.

(** ** Media migration: schedules and traces *)

Section MediaFacts.

Import MediaMigrator Notions.

Lemma interleave_permutation tasks trace :
  interleave tasks trace -> Permutation (List.concat tasks) trace.
Proof.
  induction 1 as [tasks H | pre e t post trace _ IH].
  - induction H as [|t tasks -> _ IH]; simpl; [constructor | exact IH].
  - rewrite concat_app in *. simpl in *.
    rewrite <- IH. symmetry. apply Permutation_middle.
Qed.

Lemma schedule_permutation bs trace :
  schedule bs trace -> Permutation (List.concat (List.concat bs)) trace.
Proof.
  induction 1 as [|b bs tb tbs Hb _ IH]; simpl; [constructor|].
  rewrite concat_app. apply Permutation_app; [|exact IH].
  now apply interleave_permutation.
Qed.

Lemma interleave_idle tasks trace :
  interleave tasks trace -> interleave ([] :: tasks) trace.
Proof.
  induction 1 as [tasks H | pre e t post trace _ IH].
  - constructor. now constructor.
  - apply (interleave_step ([] :: pre) e t post). exact IH.
Qed.

Lemma interleave_in_order tasks : interleave tasks (List.concat tasks).
Proof.
  induction tasks as [|t tasks IH]; simpl.
  - constructor. constructor.
  - induction t as [|e t IHt]; simpl.
    + now apply interleave_idle.
    + apply (interleave_step [] e t tasks). exact IHt.
Qed.

Lemma schedule_in_order bs : schedule bs (List.concat (List.concat bs)).
Proof.
  induction bs as [|b bs IH]; simpl; [constructor|].
  rewrite concat_app. constructor; [apply interleave_in_order | exact IH].
Qed.

Lemma chunk_go_concat {A} (size fuel : nat) (l : list A) :
  0 < size -> List.length l <= fuel ->
  List.concat (chunk_go fuel l size) = l.
Proof.
  intro Hs. revert l. induction fuel as [|fuel IH]; intros l Hl.
  - destruct l; [reflexivity | simpl in Hl; lia].
  - destruct l as [|x l]; [reflexivity|].
    cbn [chunk_go List.concat]. rewrite IH.
    + apply firstn_skipn.
    + rewrite length_skipn. cbn [List.length] in *. lia.
Qed.

Lemma chunk_concat {A} (size : nat) (l : list A) :
  0 < size -> List.concat (chunk l size) = l.
Proof. intro H. unfold chunk. apply chunk_go_concat; [exact H | apply le_n]. Qed.

Lemma effective_concurrency_positive (o : Options) :
  0 < effective_concurrency o.
Proof. unfold effective_concurrency. destruct (concurrency o); lia. Qed.

Variable env : Env.
Variable o : Options.
Variable storage : bool.

(** All the writes of a run, task after task. *)
Lemma batches_concat (atts : list Attachment) :
  List.concat (List.concat (batches env o storage atts)) =
  flat_map (task env o storage) (indexed atts).
Proof.
  unfold batches.
  change (fun ia : nat * Attachment =>
            processAttachment env o storage (fst ia) (snd ia))
    with (task env o storage).
  rewrite <- concat_map, <- flat_map_concat_map.
  now rewrite chunk_concat by apply effective_concurrency_positive.
Qed.

Lemma migrate_trace (atts : list Attachment) (st st' : State) :
  migrate env o storage atts st st' ->
  exists trace,
    Permutation (flat_map (task env o storage) (indexed atts)) trace /\
    st' = run trace (set_total (List.length atts) st).
Proof.
  intros [trace [Hs ->]]. exists trace. split; [|reflexivity].
  rewrite <- batches_concat. now apply schedule_permutation.
Qed.

(** The run in program order is one of the runs of [migrate]. *)
Lemma migrate_in_order_allowed (atts : list Attachment) (st : State) :
  migrate env o storage atts st (migrate_in_order env o storage atts st).
Proof.
  exists (List.concat (List.concat (batches env o storage atts))).
  split; [apply schedule_in_order | reflexivity].
Qed.

Lemma indexed_length {A} (l : list A) : List.length (indexed l) = List.length l.
Proof. unfold indexed. rewrite length_combine, length_seq. lia. Qed.

End MediaFacts.

(** ** C3: the counters *)

Section MediaCounters.

Import MediaMigrator Notions.

Lemma count_app p (s t : list effect) : count p (s ++ t) = count p s + count p t.
Proof. unfold count. now rewrite filter_app, length_app. Qed.

Lemma count_permutation p (s t : list effect) :
  Permutation s t -> count p s = count p t.
Proof.
  unfold count. induction 1 as [|e s t _ IH|e e' s|s t u _ IH1 _ IH2]; simpl.
  - reflexivity.
  - destruct (p e); simpl; now rewrite IH.
  - destruct (p e), (p e'); reflexivity.
  - now rewrite IH1.
Qed.

(** The counters after a trace are the counters before it plus the
    number of increments in the trace. *)
Lemma run_counters (t : list effect) (st : State) :
  total (stats (run t st)) = total (stats st) /\
  downloaded (stats (run t st)) = downloaded (stats st) + count is_download t /\
  uploaded (stats (run t st)) = uploaded (stats st) + count is_upload t /\
  skipped (stats (run t st)) = skipped (stats st) + count is_skip t /\
  failed (stats (run t st)) = failed (stats st) + count is_failure t.
Proof.
  revert st. induction t as [|e t IH]; intro st.
  - unfold count. simpl. lia.
  - change (run (e :: t) st) with (run t (apply st e)).
    destruct (IH (apply st e)) as (I0 & I1 & I2 & I3 & I4).
    rewrite I0, I1, I2, I3, I4.
    change (e :: t) with ([e] ++ t). rewrite !count_app.
    destruct e; unfold count; simpl; lia.
Qed.

Variable env : Env.
Variable o : Options.
Variable storage : bool.

(** One attachment: it is counted once, and once more when its upload
    fails after its download. *)
Lemma task_counters (ia : nat * Attachment) :
  count is_download (task env o storage ia)
  + count is_skip (task env o storage ia)
  + count is_failure (task env o storage ia)
  = 1 + (if upload_failed env o storage ia then 1 else 0) /\
  count is_upload (task env o storage ia)
  <= count is_download (task env o storage ia).
Proof.
  destruct ia as [i a].
  unfold task, processAttachment, upload_failed, existing, download_ok,
    upload_ok, count. simpl.
  destruct (String.eqb (url a) ""); simpl; [lia|].
  destruct (skipExisting o && fileExists env i); simpl; [lia|].
  destruct (downloadFile env i); simpl; [|lia].
  destruct storage; simpl; [|lia].
  destruct (uploadToStorage_io env i); simpl; lia.
Qed.

Lemma tasks_counters (l : list (nat * Attachment)) :
  count is_download (flat_map (task env o storage) l)
  + count is_skip (flat_map (task env o storage) l)
  + count is_failure (flat_map (task env o storage) l)
  = List.length l + List.length (filter (upload_failed env o storage) l) /\
  count is_upload (flat_map (task env o storage) l)
  <= count is_download (flat_map (task env o storage) l).
Proof.
  induction l as [|ia l [IH1 IH2]]; [unfold count; simpl; lia|].
  simpl. rewrite !count_app.
  destruct (task_counters ia) as [T1 T2].
  destruct (upload_failed env o storage ia); simpl; lia.
Qed.

Lemma no_storage_no_upload_failure (l : list (nat * Attachment)) :
  storage = false -> filter (upload_failed env o storage) l = [].
Proof.
  intros ->. induction l as [|ia l IH]; [reflexivity|].
  simpl. unfold upload_failed at 1.
  now rewrite andb_false_r.
Qed.

End MediaCounters.

(** C3, as the code has it.  After [migrate] on a fresh migrator, under
    every schedule and whatever downloads or uploads fail: [total] is
    the number of attachments; [uploaded <= downloaded]; and
    [downloaded + skipped + failed] is the number of attachments plus
    the number of those whose upload failed after their download - such
    an attachment is counted as downloaded and as failed.  The sum is
    the number of attachments when no storage is configured. *)
Theorem media_stats_accounting
  (env : MediaMigrator.Env) (o : MediaMigrator.Options) (storage : bool)
  (atts : list MediaMigrator.Attachment) (st : MediaMigrator.State) :
  MediaMigrator.migrate env o storage atts MediaMigrator.fresh st ->
  let s := MediaMigrator.stats st in
  MediaMigrator.total s = List.length atts /\
  MediaMigrator.uploaded s <= MediaMigrator.downloaded s /\
  MediaMigrator.downloaded s + MediaMigrator.skipped s + MediaMigrator.failed s
    = List.length atts
      + List.length (filter (Notions.upload_failed env o storage)
                            (MediaMigrator.indexed atts)) /\
  (storage = false ->
   MediaMigrator.downloaded s + MediaMigrator.skipped s + MediaMigrator.failed s
     = List.length atts).
Proof.
  intro H. apply migrate_trace in H as [trace [HP ->]]. cbv zeta.
  destruct (run_counters trace
              (MediaMigrator.set_total (List.length atts) MediaMigrator.fresh))
    as (I0 & I1 & I2 & I3 & I4).
  rewrite I0, I1, I2, I3, I4. simpl.
  rewrite <- !(count_permutation _ HP).
  destruct (tasks_counters env o storage (MediaMigrator.indexed atts))
    as [T1 T2].
  rewrite indexed_length in T1.
  repeat split; try lia.
  intro Hs. rewrite no_storage_no_upload_failure in T1 by exact Hs.
  simpl in T1. lia.
Qed.

Lemma media_stats_accounting_witness :
  let st := MediaMigrator.migrate_in_order Notions.second_missing
              (Notions.media_options None) false Notions.three_images
              MediaMigrator.fresh in
  MediaMigrator.migrate Notions.second_missing (Notions.media_options None)
    false Notions.three_images MediaMigrator.fresh st /\
  MediaMigrator.downloaded (MediaMigrator.stats st)
  + MediaMigrator.skipped (MediaMigrator.stats st)
  + MediaMigrator.failed (MediaMigrator.stats st) = 3.
Proof.
  split; [apply migrate_in_order_allowed|].
  apply (media_stats_accounting
           (migrate_in_order_allowed Notions.second_missing
              (Notions.media_options None) false Notions.three_images
              MediaMigrator.fresh)).
  reflexivity.
Defined.

(** C3 as claimed fails: one attachment, downloaded, whose upload is
    refused, is counted twice. *)
Lemma media_stats_conservation_fails :
  ~ (forall env o storage atts st,
       MediaMigrator.migrate env o storage atts MediaMigrator.fresh st ->
       MediaMigrator.downloaded (MediaMigrator.stats st)
       + MediaMigrator.skipped (MediaMigrator.stats st)
       + MediaMigrator.failed (MediaMigrator.stats st) = List.length atts /\
       MediaMigrator.uploaded (MediaMigrator.stats st)
       <= MediaMigrator.downloaded (MediaMigrator.stats st)).
Proof.
  intro H.
  destruct (H Notions.uploads_fail (Notions.media_options (Some "bucket")) true
              [Notions.image 11 "http://old.example/a.png"] _
              (migrate_in_order_allowed _ _ _ _ _)) as [E _].
  discriminate E.
Qed.

(** ** C7: the url map *)

Section UrlMap.

Import MediaMigrator Notions.

Lemma map_set_fresh (m : JsMap) (k : prim) (v : string) :
  ~ In k (map fst m) -> map_set m k v = m ++ [(k, v)].
Proof.
  induction m as [|[k' v'] m IH]; intro H; [reflexivity|].
  simpl in *. destruct (prim_eqb k k') eqn:E.
  - apply prim_eqb_eq in E. exfalso. apply H. now left.
  - rewrite IH; [reflexivity|]. intro Hin. apply H. now right.
Qed.

Lemma map_get_In (m : JsMap) (k : prim) (v : string) :
  map_get m k = Some v -> In (k, v) m.
Proof.
  induction m as [|[k' v'] m IH]; [discriminate|].
  simpl. destruct (prim_eqb k k') eqn:E.
  - apply prim_eqb_eq in E. intros [= ->]. left. now subst.
  - intro H. right. now apply IH.
Qed.

Lemma In_map_get (m : JsMap) (k : prim) (v : string) :
  NoDup (map fst m) -> In (k, v) m -> map_get m k = Some v.
Proof.
  induction m as [|[k' v'] m IH]; [contradiction|].
  simpl. intros Hnd [E | Hin].
  - injection E as -> ->. now rewrite prim_eqb_refl.
  - inversion Hnd as [|? ? Hk Hnd']; subst.
    destruct (prim_eqb k k') eqn:E.
    + apply prim_eqb_eq in E. subst. exfalso. apply Hk.
      apply (in_map fst) in Hin. exact Hin.
    + now apply IH.
Qed.

(** A trace that writes every key once builds the map of its entries. *)
Lemma run_urlMap (t : list effect) (st : State) :
  NoDup (map fst (urlMap st) ++ map fst (entries t)) ->
  urlMap (run t st) = urlMap st ++ entries t.
Proof.
  revert st. induction t as [|e t IH]; intros st H.
  - simpl. now rewrite app_nil_r.
  - change (run (e :: t) st) with (run t (apply st e)).
    destruct e as [| | |u msg|k v];
      try (rewrite IH; [reflexivity | exact H]).
    simpl in H. rewrite IH; simpl.
    + rewrite map_set_fresh.
      * now rewrite <- app_assoc.
      * intro Hin. apply NoDup_remove_2 in H. apply H.
        apply in_or_app. now left.
    + rewrite map_set_fresh.
      * rewrite map_app, <- app_assoc. exact H.
      * intro Hin. apply NoDup_remove_2 in H. apply H.
        apply in_or_app. now left.
Qed.

Lemma NoDup_app_disjoint {A} (l1 l2 : list A) (a : A) :
  NoDup (l1 ++ l2) -> In a l1 -> In a l2 -> False.
Proof.
  induction l1 as [|x l1 IH]; [contradiction|].
  simpl. intros H [-> | Hin] H2.
  - inversion H as [|? ? Hx _]; subst. apply Hx. apply in_or_app. now right.
  - inversion H; subst. now apply IH.
Qed.

(** In a duplicate-free [flat_map], two different elements of the list
    share nothing. *)
Lemma flat_map_disjoint {A B} (f : A -> list B) (l : list A) (x y : A) (z : B) :
  NoDup (flat_map f l) -> In x l -> In y l -> x <> y ->
  In z (f x) -> In z (f y) -> False.
Proof.
  induction l as [|h l IH]; [contradiction|].
  simpl. intros Hnd [-> | Hx] [-> | Hy] Hxy Zx Zy.
  - now apply Hxy.
  - apply (NoDup_app_disjoint _ _ z Hnd Zx). apply in_flat_map. eauto.
  - apply (NoDup_app_disjoint _ _ z Hnd Zy). apply in_flat_map. eauto.
  - apply NoDup_app_remove_l in Hnd. now apply IH.
Qed.

Lemma NoDup_flat_map_part {A B} (f g : A -> list B) (l : list A) :
  (forall x, g x = f x \/ g x = []) ->
  NoDup (flat_map f l) -> NoDup (flat_map g l).
Proof.
  intro Hg. induction l as [|h l IH]; [constructor|].
  simpl. intro Hnd. destruct (Hg h) as [-> | ->].
  - apply NoDup_app.
    + now apply NoDup_app_remove_r in Hnd.
    + apply IH. now apply NoDup_app_remove_l in Hnd.
    + intros a Ha Hin. apply (NoDup_app_disjoint _ _ a Hnd Ha).
      apply in_flat_map in Hin as [x [Hx Hin]]. apply in_flat_map.
      exists x. split; [exact Hx|].
      destruct (Hg x) as [E | E]; rewrite E in Hin; [exact Hin | contradiction].
  - apply IH. now apply NoDup_app_remove_l in Hnd.
Qed.

Lemma indexed_from_In {A} (l : list A) (s i : nat) (a : A) :
  In (i, a) (combine (seq s (List.length l)) l) <->
  s <= i /\ nth_error l (i - s) = Some a.
Proof.
  revert s. induction l as [|x l IH]; intro s; simpl.
  - split; [contradiction|]. intros [_ H]. destruct (i - s); discriminate.
  - rewrite IH. split.
    + intros [[= <- <-] | [Hs H]].
      * split; [lia|]. now rewrite Nat.sub_diag.
      * split; [lia|]. replace (i - s) with (S (i - S s)) by lia. exact H.
    + intros [Hs H]. destruct (i - s) as [|n] eqn:E.
      * left. injection H as ->. f_equal. lia.
      * right. split; [lia|]. replace (i - S s) with n by lia. exact H.
Qed.

Lemma indexed_In {A} (l : list A) (i : nat) (a : A) :
  In (i, a) (indexed l) <-> nth_error l i = Some a.
Proof.
  unfold indexed. rewrite indexed_from_In, Nat.sub_0_r.
  split; [now intros [_ H] | intro H; split; [lia | exact H]].
Qed.

Lemma indexed_snd {A} (l : list A) : map snd (indexed l) = l.
Proof.
  unfold indexed. generalize 0. induction l as [|x l IH]; intro s; simpl;
    [reflexivity | now rewrite IH].
Qed.

Variable env : Env.
Variable o : Options.
Variable storage : bool.

Lemma entries_task (ia : nat * Attachment) :
  entries (task env o storage ia) = contribution env o storage ia.
Proof.
  destruct ia as [i a].
  unfold task, processAttachment, contribution, succeeded, newUrl, existing,
    download_ok, upload_ok. simpl.
  destruct (String.eqb (url a) ""); simpl; [reflexivity|].
  destruct (skipExisting o && fileExists env i); simpl; [reflexivity|].
  destruct (downloadFile env i); simpl; [|reflexivity].
  destruct storage; simpl; [|reflexivity].
  destruct (uploadToStorage_io env i); reflexivity.
Qed.

Lemma entries_tasks (l : list (nat * Attachment)) :
  entries (flat_map (task env o storage) l)
  = flat_map (contribution env o storage) l.
Proof.
  induction l as [|ia l IH]; [reflexivity|].
  simpl. unfold entries in *. rewrite flat_map_app, IH.
  f_equal. apply entries_task.
Qed.

Lemma contribution_length (l : list (nat * Attachment)) :
  List.length (flat_map (contribution env o storage) l)
  = 2 * List.length (filter (succeeded env o storage) l).
Proof.
  induction l as [|ia l IH]; [reflexivity|].
  simpl. rewrite length_app, IH. unfold contribution.
  destruct (succeeded env o storage ia); simpl; lia.
Qed.

Lemma contribution_references (ia : nat * Attachment) :
  map ToString (map fst (contribution env o storage ia))
  = if succeeded env o storage ia then references (snd ia) else [].
Proof. unfold contribution. now destruct (succeeded env o storage ia). Qed.

Lemma newUrl_nonempty (ia : nat * Attachment) :
  String.eqb (newUrl env o storage ia) "" = false.
Proof. unfold newUrl. destruct (existing env o (fst ia)), storage; reflexivity. Qed.

Variable atts : list Attachment.
Hypothesis distinct : NoDup (flat_map references atts).

Lemma distinct_indexed :
  NoDup (flat_map (fun ia => references (snd ia)) (indexed atts)).
Proof.
  rewrite <- (indexed_snd atts) in distinct.
  now rewrite flat_map_concat_map, map_map, <- flat_map_concat_map in distinct.
Qed.

Lemma contributions_distinct :
  NoDup (map fst (flat_map (contribution env o storage) (indexed atts))).
Proof.
  apply (NoDup_map_inv ToString).
  rewrite !flat_map_concat_map, !concat_map, !map_map, <- flat_map_concat_map.
  apply (NoDup_flat_map_part (fun ia => references (snd ia))).
  - intro ia. rewrite contribution_references.
    destruct (succeeded env o storage ia); auto.
  - exact distinct_indexed.
Qed.

Variable st : State.
Hypothesis ran : migrate env o storage atts fresh st.

(** The map is, up to the order of its entries, what the attachments
    contribute. *)
Lemma urlMap_contributions :
  Permutation (flat_map (contribution env o storage) (indexed atts))
              (urlMap st) /\
  NoDup (map fst (urlMap st)).
Proof.
  destruct (migrate_trace ran) as [trace [HP E]].
  assert (HE : Permutation
                 (flat_map (contribution env o storage) (indexed atts))
                 (entries trace)).
  { rewrite <- entries_tasks. unfold entries.
    now apply Permutation_flat_map. }
  assert (Hnd : NoDup (map fst (entries trace))).
  { eapply Permutation_NoDup; [|exact contributions_distinct].
    now apply Permutation_map. }
  assert (Em : urlMap st = entries trace).
  { rewrite E, run_urlMap; [reflexivity | exact Hnd]. }
  rewrite Em. now split.
Qed.

Lemma urlMap_lookup (k : prim) (v : string) :
  map_get (urlMap st) k = Some v <->
  In (k, v) (flat_map (contribution env o storage) (indexed atts)).
Proof.
  destruct urlMap_contributions as [HP Hnd]. split.
  - intro H. apply map_get_In in H.
    eapply Permutation_in; [symmetry; exact HP | exact H].
  - intro H. apply In_map_get; [exact Hnd|].
    eapply Permutation_in; [exact HP | exact H].
Qed.

(** No reference of an attachment that did not succeed is a key, also
    not up to [String(...)]. *)
Lemma urlMap_miss (i : nat) (a : Attachment) (k : prim) :
  nth_error atts i = Some a ->
  succeeded env o storage (i, a) = false ->
  In (ToString k) (references a) ->
  map_get (urlMap st) k = None.
Proof.
  intros Hi Hs Hk. destruct (map_get (urlMap st) k) as [v|] eqn:E;
    [|reflexivity]. exfalso.
  apply urlMap_lookup in E. apply in_flat_map in E as [[j b] [Hj Hin]].
  unfold contribution in Hin.
  destruct (succeeded env o storage (j, b)) eqn:Hb; [|contradiction].
  apply (@flat_map_disjoint _ _ (fun ia => references (snd ia)) (indexed atts)
           (i, a) (j, b) (ToString k) distinct_indexed).
  - now apply indexed_In.
  - exact Hj.
  - intro Heq. rewrite Heq in Hs. congruence.
  - exact Hk.
  - simpl in *. destruct Hin as [[= <- _] | [[= <- _] | []]]; simpl; auto.
Qed.

End UrlMap.

(** C7.  Take attachments whose urls and ids are pairwise distinct, as
    [getNewUrl] compares them (up to [String(...)]), and a fresh
    migrator.  After [migrate], under every schedule: the map has two
    entries for each attachment that has a source url and was processed
    without an error, and no other; its url and its id are keys, both
    for its new url, which [getNewUrl] returns; for an attachment that
    failed or has no source url neither its url nor its id is a key, and
    [getNewUrl] returns [null] on both. *)
Theorem urlMap_population
  (env : MediaMigrator.Env) (o : MediaMigrator.Options) (storage : bool)
  (atts : list MediaMigrator.Attachment) (st : MediaMigrator.State) :
  NoDup (flat_map Notions.references atts) ->
  MediaMigrator.migrate env o storage atts MediaMigrator.fresh st ->
  let m := MediaMigrator.urlMap st in
  List.length m
    = 2 * List.length (filter (Notions.succeeded env o storage)
                              (MediaMigrator.indexed atts)) /\
  (forall k v, map_get m k = Some v ->
     exists i a, nth_error atts i = Some a /\
                 Notions.succeeded env o storage (i, a) = true /\
                 (k = Str (MediaMigrator.url a) \/ k = MediaMigrator.id a) /\
                 v = Notions.newUrl env o storage (i, a)) /\
  (forall i a, nth_error atts i = Some a ->
     if Notions.succeeded env o storage (i, a)
     then map_get m (Str (MediaMigrator.url a))
            = Some (Notions.newUrl env o storage (i, a)) /\
          map_get m (MediaMigrator.id a)
            = Some (Notions.newUrl env o storage (i, a)) /\
          MediaMigrator.getNewUrl m (Str (MediaMigrator.url a))
            = Some (Notions.newUrl env o storage (i, a)) /\
          MediaMigrator.getNewUrl m (MediaMigrator.id a)
            = Some (Notions.newUrl env o storage (i, a))
     else map_get m (Str (MediaMigrator.url a)) = None /\
          map_get m (MediaMigrator.id a) = None /\
          MediaMigrator.getNewUrl m (Str (MediaMigrator.url a)) = None /\
          MediaMigrator.getNewUrl m (MediaMigrator.id a) = None).
Proof.
  intros Hd Hr. cbv zeta. split; [|split].
  - destruct (urlMap_contributions Hd Hr) as [HP _].
    rewrite <- (Permutation_length HP). apply contribution_length.
  - intros k v H. apply (urlMap_lookup Hd Hr) in H.
    apply in_flat_map in H as [[i a] [Hi Hin]].
    exists i, a. split; [now apply indexed_In|].
    unfold Notions.contribution in Hin.
    destruct (Notions.succeeded env o storage (i, a)); [|contradiction].
    split; [reflexivity|].
    simpl in Hin. destruct Hin as [[= <- <-] | [[= <- <-] | []]]; auto.
  - intros i a Hi.
    destruct (Notions.succeeded env o storage (i, a)) eqn:Hs.
    + assert (Hu : map_get (MediaMigrator.urlMap st) (Str (MediaMigrator.url a))
                   = Some (Notions.newUrl env o storage (i, a))).
      { apply (urlMap_lookup Hd Hr). apply in_flat_map.
        exists (i, a). split; [now apply indexed_In|].
        unfold Notions.contribution. rewrite Hs. now left. }
      assert (Hi' : map_get (MediaMigrator.urlMap st) (MediaMigrator.id a)
                    = Some (Notions.newUrl env o storage (i, a))).
      { apply (urlMap_lookup Hd Hr). apply in_flat_map.
        exists (i, a). split; [now apply indexed_In|].
        unfold Notions.contribution. rewrite Hs. right. now left. }
      unfold MediaMigrator.getNewUrl, MediaMigrator.nonempty.
      rewrite Hu, Hi', newUrl_nonempty. auto.
    + assert (Hu : map_get (MediaMigrator.urlMap st) (Str (MediaMigrator.url a))
                   = None).
      { apply (@urlMap_miss _ _ _ _ Hd _ Hr _ _ _ Hi Hs). now left. }
      assert (Hi' : map_get (MediaMigrator.urlMap st) (MediaMigrator.id a)
                    = None).
      { apply (@urlMap_miss _ _ _ _ Hd _ Hr _ _ _ Hi Hs). right. now left. }
      assert (Hs' : map_get (MediaMigrator.urlMap st)
                      (Str (ToString (MediaMigrator.id a))) = None).
      { apply (@urlMap_miss _ _ _ _ Hd _ Hr _ _ _ Hi Hs). right. now left. }
      unfold MediaMigrator.getNewUrl, MediaMigrator.nonempty.
      simpl ToString. rewrite Hu, Hi', Hs'. auto.
Qed.

Lemma urlMap_population_witness :
  let st := MediaMigrator.migrate_in_order Notions.second_missing
              (Notions.media_options None) false Notions.three_images
              MediaMigrator.fresh in
  NoDup (flat_map Notions.references Notions.three_images) /\
  MediaMigrator.migrate Notions.second_missing (Notions.media_options None)
    false Notions.three_images MediaMigrator.fresh st /\
  List.length (MediaMigrator.urlMap st) = 4.
Proof.
  assert (Hd : NoDup (flat_map Notions.references Notions.three_images)).
  { simpl. repeat (constructor; [simpl; intuition discriminate|]).
    constructor. }
  split; [exact Hd|]. split; [apply migrate_in_order_allowed|].
  exact (proj1 (urlMap_population Hd
                  (migrate_in_order_allowed Notions.second_missing
                     (Notions.media_options None) false Notions.three_images
                     MediaMigrator.fresh))).
Defined.

(** ** The document tree *)

Section Trees.

Import Dom ContentCleaner Notions.

(** Induction on a node, with the property for the children at hand. *)
Lemma node_induction (P : node -> Prop) :
  (forall t a cs, Forall P cs -> P (Element t a cs)) ->
  (forall d, P (Text d)) ->
  (forall d, P (Comment d)) ->
  forall n, P n.
Proof.
  intros HE HT HC. fix IH 1. intros [t a cs | d | d].
  - apply HE. induction cs as [|c cs IHcs]; constructor; [apply IH | exact IHcs].
  - apply HT.
  - apply HC.
Qed.

Lemma getAttribute_set_same a k v :
  getAttribute (setAttribute a k v) k = Some v.
Proof.
  unfold getAttribute. induction a as [|[k' w] a IH]; simpl.
  - now rewrite String.eqb_refl.
  - destruct (String.eqb k k') eqn:E; simpl; rewrite E; [reflexivity | exact IH].
Qed.

Lemma getAttribute_set_other a k v k' :
  k' <> k -> getAttribute (setAttribute a k v) k' = getAttribute a k'.
Proof.
  intro H. unfold getAttribute. induction a as [|[k0 w] a IH]; simpl.
  - apply String.eqb_neq in H. now rewrite H.
  - destruct (String.eqb k k0) eqn:E; simpl.
    + apply String.eqb_eq in E. subst k0.
      apply String.eqb_neq in H. now rewrite H.
    + now rewrite IH.
Qed.

Lemma forallb_flat_map {A B} (q : B -> bool) (f : A -> list B) (l : list A) :
  forallb q (flat_map f l) = forallb (fun x => forallb q (f x)) l.
Proof.
  induction l as [|x l IH]; [reflexivity|].
  simpl. now rewrite forallb_app, IH.
Qed.

Lemma all_elements_map_attributes P g n :
  (forall t a, P t (g t a) = true) ->
  all_elements P (map_attributes g n) = true.
Proof.
  intro H. induction n as [t a cs IH | d | d] using node_induction;
    [|reflexivity|reflexivity].
  simpl. rewrite H. simpl. rewrite forallb_forall. intros x Hx.
  apply in_map_iff in Hx as [y [<- Hy]].
  rewrite Forall_forall in IH. now apply IH.
Qed.

Lemma all_elements_prune P p n :
  all_elements P n = true -> forallb (all_elements P) (prune p n) = true.
Proof.
  induction n as [t a cs IH | d | d] using node_induction; intro H.
  - cbn [prune]. destruct (p (Element t a cs)); [reflexivity|].
    cbn [forallb all_elements] in *. apply andb_true_iff in H as [H1 H2].
    rewrite H1, andb_true_r. simpl. rewrite forallb_flat_map.
    rewrite forallb_forall in *. rewrite Forall_forall in IH.
    intros x Hx. apply IH; [exact Hx | now apply H2].
  - cbn [prune]. now destruct (p (Text d)).
  - cbn [prune]. now destruct (p (Comment d)).
Qed.

Lemma all_elements_prune_forest P p f :
  forallb (all_elements P) f = true ->
  forallb (all_elements P) (flat_map (prune p) f) = true.
Proof.
  intro H. rewrite forallb_flat_map. rewrite forallb_forall in *.
  intros x Hx. apply all_elements_prune. now apply H.
Qed.

(** What holds of the elements of a tree holds of each node listed. *)
Lemma all_elements_subtree P n t a cs :
  all_elements P n = true -> In (Element t a cs) (subtree n) -> P t a = true.
Proof.
  induction n as [t' a' cs' IH | d | d] using node_induction; intros H Hin.
  - cbn [all_elements] in H. apply andb_true_iff in H as [H1 H2].
    cbn [subtree] in Hin. destruct Hin as [[= -> -> ->] | Hin]; [exact H1|].
    apply in_flat_map in Hin as [c [Hc Hin]].
    rewrite Forall_forall in IH. rewrite forallb_forall in H2.
    exact (IH c Hc (H2 c Hc) Hin).
  - destruct Hin as [[=] | []].
  - destruct Hin as [[=] | []].
Qed.

Lemma all_elements_nodes P f t a cs :
  forallb (all_elements P) f = true ->
  In (Element t a cs) (nodes_of f) -> P t a = true.
Proof.
  intros H Hin. apply in_flat_map in Hin as [n [Hn Hin]].
  rewrite forallb_forall in H. eapply all_elements_subtree; [exact (H n Hn) | exact Hin].
Qed.

Variable lib : Library.
Variable opts : Options.

Lemma remove_round_all_elements P f :
  forallb (all_elements P) f = true ->
  forallb (all_elements P) (fst (remove_round f)) = true.
Proof.
  unfold remove_round. generalize false. generalize emptyTags.
  intro tags. revert f. induction tags as [|tag tags IH]; intros f b H.
  - exact H.
  - simpl. apply IH. now apply all_elements_prune_forest.
Qed.

Lemma remove_loop_all_elements P fuel f :
  forallb (all_elements P) f = true ->
  forallb (all_elements P) (remove_loop fuel f) = true.
Proof.
  revert f. induction fuel as [|fuel IH]; intros f H; [exact H|].
  cbn [remove_loop]. pose proof (remove_round_all_elements P f H) as Hr.
  destruct (remove_round f) as [f' removed]. simpl in Hr.
  destruct removed; [now apply IH | exact Hr].
Qed.

Lemma semanticize_of_alt t a :
  image_has_alt t (semanticize_of lib t a) = true.
Proof.
  unfold image_has_alt, semanticize_of, set_loading.
  destruct (String.eqb t "img"); [|reflexivity].
  assert (H : hasAttribute
                (if String.eqb (reflect a "alt") ""
                 then setAttribute a "alt" "" else a) "alt" = true).
  { unfold hasAttribute. destruct (String.eqb (reflect a "alt") "") eqn:E.
    - now rewrite getAttribute_set_same.
    - unfold reflect in E. destruct (getAttribute a "alt"); [reflexivity|].
      discriminate. }
  destruct (reflects_loading lib); [|exact H].
  unfold hasAttribute in *. now rewrite getAttribute_set_other by discriminate.
Qed.

Lemma semanticize_alt f :
  forallb (all_elements image_has_alt) (semanticize lib f) = true.
Proof.
  unfold semanticize. rewrite forallb_forall. intros x Hx.
  apply in_map_iff in Hx as [y [<- _]].
  apply all_elements_map_attributes. apply semanticize_of_alt.
Qed.

Lemma map_flat_map {A B C} (g : B -> C) (h : A -> list B) (l : list A) :
  map g (flat_map h l) = flat_map (fun x => map g (h x)) l.
Proof.
  induction l as [|x l IH]; [reflexivity|].
  cbn [flat_map]. now rewrite map_app, IH.
Qed.

Lemma flat_map_map {A B C} (g : A -> B) (h : B -> list C) (l : list A) :
  flat_map h (map g l) = flat_map (fun x => h (g x)) l.
Proof.
  induction l as [|x l IH]; [reflexivity|].
  cbn [map flat_map]. now rewrite IH.
Qed.

Lemma flat_map_same {A B} (g h : A -> list B) (l : list A) :
  Forall (fun x => g x = h x) l -> flat_map g l = flat_map h l.
Proof.
  induction 1 as [|x l Hx _ IH]; [reflexivity|].
  cbn [flat_map]. now rewrite Hx, IH.
Qed.

(** A rewriting of attributes that leaves the attribute [loading] alone
    leaves it alone on every node. *)
Lemma map_attributes_loading g n :
  (forall t a, getAttribute (g t a) "loading" = getAttribute a "loading") ->
  map loading (subtree (map_attributes g n)) = map loading (subtree n).
Proof.
  intro H. induction n as [t a cs IH | d | d] using node_induction;
    [|reflexivity|reflexivity].
  cbn [map_attributes subtree map]. f_equal.
  - unfold loading. cbn [attributes]. apply H.
  - rewrite flat_map_map, !map_flat_map. now apply flat_map_same.
Qed.

Hypothesis no_property : reflects_loading lib = false.

Lemma set_loading_nothing a : set_loading lib a = a.
Proof. unfold set_loading. now rewrite no_property. Qed.

Lemma semanticize_of_loading t a :
  getAttribute (semanticize_of lib t a) "loading" = getAttribute a "loading".
Proof.
  unfold semanticize_of. destruct (String.eqb t "img"); [|reflexivity].
  rewrite set_loading_nothing.
  destruct (String.eqb (reflect a "alt") ""); [|reflexivity].
  now rewrite getAttribute_set_other by discriminate.
Qed.

Lemma semanticize_loading f :
  map loading (nodes_of (semanticize lib f)) = map loading (nodes_of f).
Proof.
  unfold semanticize, nodes_of. rewrite flat_map_map, !map_flat_map.
  apply flat_map_same, Forall_forall. intros n _.
  apply map_attributes_loading. apply semanticize_of_loading.
Qed.

End Trees.

(** C5, where the code fails it.  [semanticize] and the gallery
    converter write [img.loading = 'lazy'].  In jsdom an image has no
    property [loading]: the assignment makes a property of the script
    object and no attribute.  So step 6 leaves the attribute [loading]
    of every node as it finds it, the gallery converter makes images
    without it, and an image written without the attribute leaves
    [clean] without it, with an [alt] attribute only. *)
Theorem lazy_loading_is_not_set (lib : Dom.Library) :
  Dom.reflects_loading lib = false ->
  (forall f,
     map Notions.loading (Dom.nodes_of (ContentCleaner.semanticize lib f))
     = map Notions.loading (Dom.nodes_of f)) /\
  (forall img,
     ContentCleaner.gallery_figure lib img
     = Dom.Element "figure" []
         [Dom.Element "img" (ContentCleaner.new_image lib img) []]) /\
  (Dom.parse_content lib Notions.picture_html = Notions.picture_parsed ->
   ContentCleaner.clean lib ContentCleaner.default_options Notions.picture_html
   = Ok (trim (ContentCleaner.cleanWhitespace
                 (Dom.serialize lib Notions.picture_tree)))).
Proof.
  intro H. split; [|split].
  - intro f. now apply semanticize_loading.
  - intro img. unfold ContentCleaner.gallery_figure.
    now rewrite set_loading_nothing.
  - intro Hp. unfold ContentCleaner.clean. cbn [String.eqb Notions.picture_html].
    rewrite Hp.
    assert (E : ContentCleaner.clean_tree lib ContentCleaner.default_options
                  Notions.picture_parsed = Ok Notions.picture_tree).
    { unfold ContentCleaner.clean_tree.
      change (ContentCleaner.convertElementorWidgets lib
                (ContentCleaner.removeUnwantedElements Notions.picture_parsed))
        with (@Ok Dom.forest Notions.picture_parsed).
      cbn [bind ContentCleaner.default_options ContentCleaner.semanticize_opt
           ContentCleaner.removeEmpty].
      change (ContentCleaner.fixUrls lib ContentCleaner.default_options
                (ContentCleaner.cleanAttributes ContentCleaner.default_options
                   (ContentCleaner.unwrapDivs ContentCleaner.default_options
                      Notions.picture_parsed)))
        with Notions.picture_parsed.
      unfold ContentCleaner.semanticize, Notions.picture_parsed.
      cbn [map ContentCleaner.map_attributes ContentCleaner.semanticize_of
           String.eqb Ascii.eqb Bool.eqb].
      rewrite set_loading_nothing by exact H. reflexivity. }
    rewrite E. reflexivity.
Qed.

Lemma lazy_loading_is_not_set_witness :
  Dom.reflects_loading SimpleDom.library = false /\
  Dom.parse_content SimpleDom.library Notions.picture_html
  = Notions.picture_parsed /\
  ContentCleaner.clean SimpleDom.library ContentCleaner.default_options
    Notions.picture_html
  = Ok Notions.picture_cleaned.
Proof.
  split; [reflexivity|]. split; [reflexivity|].
  exact (proj2 (proj2 (@lazy_loading_is_not_set SimpleDom.library eq_refl))
               eq_refl).
Defined.

(** X30.  With [semanticize] enabled, as it is by default: when [clean]
    returns, its result is the normalised serialisation of a tree in
    which every [img] element carries an [alt] attribute; for the empty
    input the result is empty. *)
Theorem images_have_alt
  (lib : Dom.Library) (opts : ContentCleaner.Options) (html out : string) :
  ContentCleaner.semanticize_opt opts = true ->
  ContentCleaner.clean lib opts html = Ok out ->
  (html = "" /\ out = "") \/
  exists content,
    ContentCleaner.clean_tree lib opts (Dom.parse_content lib html) = Ok content /\
    out = trim (ContentCleaner.cleanWhitespace (Dom.serialize lib content)) /\
    forall t a cs,
      In (Dom.Element t a cs) (Dom.nodes_of content) -> t = "img" ->
      exists v, Dom.getAttribute a "alt" = Some v.
Proof.
  intros Hs H. unfold ContentCleaner.clean in H.
  destruct (String.eqb html "") eqn:E.
  - left. apply String.eqb_eq in E. now injection H as <-.
  - right.
    destruct (ContentCleaner.clean_tree lib opts (Dom.parse_content lib html))
      as [content|msg] eqn:Ht; [|discriminate].
    simpl in H. injection H as <-. exists content.
    split; [reflexivity|]. split; [reflexivity|].
    assert (Hall : forallb (Notions.all_elements Notions.image_has_alt) content
                   = true).
    { unfold ContentCleaner.clean_tree in Ht.
      destruct (ContentCleaner.convertElementorWidgets lib _) as [c2|];
        [|discriminate].
      simpl in Ht. rewrite Hs in Ht. injection Ht as <-.
      destruct (ContentCleaner.removeEmpty opts).
      - apply remove_loop_all_elements. now apply semanticize_alt.
      - now apply semanticize_alt. }
    intros t a cs Hin ->.
    pose proof (all_elements_nodes _ _ _ _ _ Hall Hin) as Hc.
    unfold Notions.image_has_alt in Hc. simpl in Hc.
    unfold Dom.hasAttribute in Hc.
    destruct (Dom.getAttribute a "alt") as [v|]; [now exists v | discriminate].
Qed.

Lemma images_have_alt_witness :
  ContentCleaner.clean SimpleDom.library ContentCleaner.default_options
    Notions.picture_html = Ok Notions.picture_cleaned /\
  ((Notions.picture_html = "" /\ Notions.picture_cleaned = "") \/
   exists content,
     ContentCleaner.clean_tree SimpleDom.library
       ContentCleaner.default_options
       (Dom.parse_content SimpleDom.library Notions.picture_html)
       = Ok content /\
     Notions.picture_cleaned
       = trim (ContentCleaner.cleanWhitespace
                 (Dom.serialize SimpleDom.library content)) /\
     forall t a cs,
       In (Dom.Element t a cs) (Dom.nodes_of content) -> t = "img" ->
       exists v, Dom.getAttribute a "alt" = Some v).
Proof.
  split; [reflexivity|].
  apply (@images_have_alt SimpleDom.library ContentCleaner.default_options);
    reflexivity.
Defined.

(** A heading widget becomes the bare heading. *)
Example heading_widget_cleaned :
  ContentCleaner.clean SimpleDom.library ContentCleaner.default_options
    "<div class='elementor-widget' data-widget_type='heading.default'><h2 class='elementor-heading-title'>Hello</h2></div>"
  = Ok "<h2>Hello</h2>".
Proof. reflexivity. Qed.

(** ** C4: widgets that are not converted *)

Section Widgets.

Import Dom ContentCleaner Notions.

Variable lib : Library.

Lemma flat_map_singletons {A} (f : A -> list A) (l : list A) :
  Forall (fun x => f x = [x]) l -> flat_map f l = l.
Proof.
  induction 1 as [|x l Hx _ IH]; [reflexivity|].
  simpl. now rewrite Hx, IH.
Qed.

Lemma no_widget_kept t a cs :
  no_widget t a = true -> convertWidget lib (Element t a cs) = Kept.
Proof.
  unfold no_widget, hasAttribute, convertWidget, widget_type. simpl.
  now destruct (getAttribute a "data-widget_type").
Qed.

(** A subtree without widgets goes through the loop as it is. *)
Lemma convert_widgets_plain n :
  all_elements no_widget n = true -> convert_widgets lib n = [n].
Proof.
  induction n as [t a cs IH | d | d] using node_induction; intro H;
    [|reflexivity|reflexivity].
  cbn [all_elements] in H. apply andb_true_iff in H as [H1 H2].
  cbn [convert_widgets]. rewrite (no_widget_kept t a cs H1).
  rewrite flat_map_singletons; [reflexivity|].
  rewrite Forall_forall in *. rewrite forallb_forall in H2.
  intros x Hx. apply IH; [exact Hx | now apply H2].
Qed.

Lemma plain_never_raises n :
  all_elements no_widget n = true -> existsb (raises lib) (subtree n) = false.
Proof.
  induction n as [t a cs IH | d | d] using node_induction; intro H;
    [|reflexivity|reflexivity].
  cbn [all_elements] in H. apply andb_true_iff in H as [H1 H2].
  cbn [subtree existsb raises]. rewrite (no_widget_kept t a cs H1). simpl.
  rewrite forallb_forall in H2. rewrite Forall_forall in IH.
  induction cs as [|c cs IHcs]; [reflexivity|].
  simpl. rewrite existsb_app, IH; [|now left | apply H2; now left].
  apply IHcs; intros x Hx; [apply IH | apply H2]; now right.
Qed.

(** A subtree in which [p] holds nowhere is unwrapped to itself. *)
Lemma unwrap_nowhere p n :
  existsb p (subtree n) = false -> unwrap p n = [n].
Proof.
  induction n as [t a cs IH | d | d] using node_induction; intro H;
    [|reflexivity|reflexivity].
  cbn [subtree existsb] in H. apply orb_false_iff in H as [H1 H2].
  cbn [unwrap]. rewrite H1. rewrite flat_map_singletons; [reflexivity|].
  rewrite Forall_forall in *. intros x Hx. apply IH; [exact Hx|].
  destruct (existsb p (subtree x)) eqn:E; [|reflexivity].
  assert (Hc : existsb p (flat_map subtree cs) = true).
  { apply existsb_exists in E as [y [Hy Py]]. apply existsb_exists.
    exists y. split; [|exact Py]. apply in_flat_map. eauto. }
  congruence.
Qed.

Lemma in_place_converted n t a cs :
  in_place lib n (Element t a cs) ->
  convertWidget lib (Element t a cs) = Kept ->
  exists x, In x (convert_widgets lib n) /\
            In (Element t a (flat_map (convert_widgets lib) cs)) (subtree x).
Proof.
  intros Hp Hk. remember (Element t a cs) as w eqn:Ew.
  induction Hp as [w | t' a' cs' c w Hc Hn _ IH].
  - subst w. cbn [convert_widgets]. rewrite Hk.
    eexists. split; [now left | now left].
  - destruct (IH Ew Hk) as [x [Hx Hs]].
    exists (Element t' a' (flat_map (convert_widgets lib) cs')). split.
    + cbn [convert_widgets].
      destruct (convertWidget lib (Element t' a' cs')) as [|r|msg] eqn:E;
        [now left | now destruct (Hn r) | now left].
    + cbn [subtree]. right. apply in_flat_map. exists x.
      split; [|exact Hs]. apply in_flat_map. now exists c.
Qed.

(** Unwrapping keeps every element that is not to be unwrapped, with its
    tag and attributes. *)
Lemma unwrap_keeps (p : node -> bool) n t a cs :
  In (Element t a cs) (subtree n) -> p (Element t a cs) = false ->
  exists y, In y (unwrap p n) /\
            In (Element t a (flat_map (unwrap p) cs)) (subtree y).
Proof.
  intros Hin Hp. revert Hin.
  induction n as [t' a' cs' IH | d | d] using node_induction; intro Hin.
  - cbn [subtree] in Hin. destruct Hin as [E | Hin].
    + injection E as -> -> ->. cbn [unwrap]. rewrite Hp.
      eexists. split; [now left | now left].
    + apply in_flat_map in Hin as [c [Hc Hin]].
      rewrite Forall_forall in IH. destruct (IH c Hc Hin) as [y [Hy Hs]].
      assert (Hy' : In y (flat_map (unwrap p) cs'))
        by (apply in_flat_map; now exists c).
      cbn [unwrap]. destruct (p (Element t' a' cs')).
      * now exists y.
      * eexists. split; [now left|]. cbn [subtree]. right.
        apply in_flat_map. now exists y.
  - destruct Hin as [E | []]. discriminate E.
  - destruct Hin as [E | []]. discriminate E.
Qed.

Lemma unconverted_kept (w : node) :
  converter_returns_null lib w \/ (no_converter lib w /\ not_inherited w) ->
  convertWidget lib w = Kept.
Proof.
  unfold convertWidget.
  intros [[type [converter [Ht [Hc Hn]]]] | [[type [Ht Hc]] Hi]].
  - now rewrite Ht, Hc, Hn.
  - rewrite Ht, Hc. unfold inherited_conversion. now rewrite (Hi type Ht).
Qed.

End Widgets.

(** C4, as the code has it.  A widget-tagged element whose converter
    returns [null], or for whose type no converter is registered and
    nothing is inherited by the table, is kept by the conversion loop,
    with its tag and attributes, in its place, wherever it stands in the
    content, as long as no widget around it is replaced; the widgets
    below it are converted in turn.  When step 2 returns it is still
    there, unless it has one of the Elementor container classes, which
    are unwrapped.  If there is no widget below it the loop returns it
    as it is, and so does the whole of step 2 if moreover nothing in it
    is an Elementor section, column or wrap.  The later steps treat it
    as any other element. *)
Theorem unconverted_widget_is_kept
  (lib : Dom.Library) (t : string) (a : list (string * string))
  (cs : Dom.forest) :
  Notions.converter_returns_null lib (Dom.Element t a cs) \/
  (Notions.no_converter lib (Dom.Element t a cs) /\
   Notions.not_inherited (Dom.Element t a cs)) ->
  ContentCleaner.convert_widgets lib (Dom.Element t a cs)
    = [Dom.Element t a (flat_map (ContentCleaner.convert_widgets lib) cs)] /\
  (forall f n,
     In n f -> Notions.in_place lib n (Dom.Element t a cs) ->
     In (Dom.Element t a (flat_map (ContentCleaner.convert_widgets lib) cs))
        (Dom.nodes_of (flat_map (ContentCleaner.convert_widgets lib) f)) /\
     forall c,
       ContentCleaner.convertElementorWidgets lib f = Ok c ->
       Dom.matches ContentCleaner.elementor_containers (Dom.Element t a cs)
         = false ->
       In (Dom.Element t a
             (flat_map (ContentCleaner.unwrap
                          (Dom.matches ContentCleaner.elementor_containers))
                       (flat_map (ContentCleaner.convert_widgets lib) cs)))
          (Dom.nodes_of c)) /\
  (forallb (Notions.all_elements Notions.no_widget) cs = true ->
   ContentCleaner.convert_widgets lib (Dom.Element t a cs)
     = [Dom.Element t a cs] /\
   (existsb (Dom.matches ContentCleaner.elementor_containers)
            (Dom.subtree (Dom.Element t a cs)) = false ->
    ContentCleaner.convertElementorWidgets lib [Dom.Element t a cs]
      = Ok [Dom.Element t a cs])).
Proof.
  intro H. pose proof (unconverted_kept H) as Hk.
  assert (E : ContentCleaner.convert_widgets lib (Dom.Element t a cs)
              = [Dom.Element t a
                   (flat_map (ContentCleaner.convert_widgets lib) cs)]).
  { cbn [ContentCleaner.convert_widgets]. now rewrite Hk. }
  split; [exact E|]. split.
  { intros f n Hn Hp.
    assert (Hin : In (Dom.Element t a
                        (flat_map (ContentCleaner.convert_widgets lib) cs))
                     (Dom.nodes_of
                        (flat_map (ContentCleaner.convert_widgets lib) f))).
    { apply in_flat_map.
      destruct (@in_place_converted lib n t a cs Hp Hk) as [x [Hx Hs]].
      exists x. split; [|exact Hs]. apply in_flat_map. now exists n. }
    split; [exact Hin|]. intros c Hc Hm.
    unfold ContentCleaner.convertElementorWidgets in Hc.
    destruct (existsb _ _); [discriminate Hc|]. injection Hc as <-.
    apply in_flat_map in Hin as [x [Hx Hs]].
    apply in_flat_map.
    destruct (@unwrap_keeps
                (Dom.matches ContentCleaner.elementor_containers) x t a
                (flat_map (ContentCleaner.convert_widgets lib) cs) Hs Hm)
      as [y [Hy Hys]].
    exists y. split; [|exact Hys]. apply in_flat_map. now exists x. }
  intro Hp.
  assert (Hcs : flat_map (ContentCleaner.convert_widgets lib) cs = cs).
  { apply flat_map_singletons. rewrite Forall_forall.
    rewrite forallb_forall in Hp. intros x Hx.
    apply convert_widgets_plain. now apply Hp. }
  assert (E' : ContentCleaner.convert_widgets lib (Dom.Element t a cs)
               = [Dom.Element t a cs]) by (now rewrite E, Hcs).
  split; [exact E'|]. intro Hu.
  unfold ContentCleaner.convertElementorWidgets, Dom.nodes_of.
  assert (Hr : existsb (ContentCleaner.raises lib)
                 (flat_map Dom.subtree [Dom.Element t a cs]) = false).
  { cbn [flat_map Dom.subtree existsb ContentCleaner.raises app].
    rewrite app_nil_r. cbn [existsb ContentCleaner.raises]. rewrite Hk.
    simpl. rewrite forallb_forall in Hp.
    clear E E' Hcs Hu Hk H. induction cs as [|c cs' IH]; [reflexivity|].
    simpl. rewrite existsb_app, plain_never_raises by (apply Hp; now left).
    apply IH. intros x Hx. apply Hp. now right. }
  rewrite Hr. cbn [flat_map]. rewrite app_nil_r, E'. cbn [flat_map].
  rewrite app_nil_r. now rewrite unwrap_nowhere.
Qed.

Lemma unconverted_widget_is_kept_witness :
  (Notions.converter_returns_null SimpleDom.library Notions.headless_widget \/
   (Notions.no_converter SimpleDom.library Notions.headless_widget /\
    Notions.not_inherited Notions.headless_widget)) /\
  Notions.in_place SimpleDom.library Notions.headless_in_section
    Notions.headless_widget /\
  In Notions.headless_widget
     (Dom.nodes_of
        (flat_map (ContentCleaner.convert_widgets SimpleDom.library)
                  [Notions.headless_in_section])) /\
  ContentCleaner.convert_widgets SimpleDom.library Notions.headless_widget
    = [Notions.headless_widget].
Proof.
  assert (H : Notions.converter_returns_null SimpleDom.library Notions.headless_widget).
  { exists "heading", (ContentCleaner.convertHeadingWidget).
    repeat split. }
  assert (P : Notions.in_place SimpleDom.library Notions.headless_in_section
                Notions.headless_widget).
  { unfold Notions.headless_in_section.
    eapply Notions.in_place_below.
    - right. now left.
    - intros r E. vm_compute in E. discriminate E.
    - apply Notions.in_place_here. }
  split; [now left|]. split; [exact P|].
  destruct (@unconverted_widget_is_kept SimpleDom.library _ _ _ (or_introl H))
    as (_ & H2 & H3).
  split.
  - exact (proj1 (H2 [Notions.headless_in_section] Notions.headless_in_section
                     (or_introl eq_refl) P)).
  - exact (proj1 (H3 eq_refl)).
Defined.

(** C4 as claimed fails: a heading widget without its heading is not
    converted, and is then removed as an empty [div]. *)
Lemma unconverted_widget_removed :
  let w := Dom.Element "div" [("data-widget_type", "heading.default")] [] in
  let html := "<div data-widget_type='heading.default'></div>" in
  Notions.converter_returns_null SimpleDom.library w /\
  Dom.parse_content SimpleDom.library html = [w] /\
  ContentCleaner.clean SimpleDom.library ContentCleaner.default_options html
    = Ok "".
Proof.
  cbv zeta. split; [|repeat split].
  exists "heading", (ContentCleaner.convertHeadingWidget). repeat split.
Qed.

(** A widget inside a widget that is converted leaves the document with
    it, whatever its own type. *)
Example nested_widget_leaves_with_its_parent :
  ContentCleaner.clean SimpleDom.library ContentCleaner.default_options
    Notions.widget_in_heading
  = Ok "<h2>T</h2>".
Proof. reflexivity. Qed.

(** ** C2: rewriting of urls *)

Section Urls.

Import Dom ContentCleaner Notions.

Variable lib : Library.
Variable opts : Options.

Lemma substitution_plain (matched after repl : string) :
  has_dollar repl = false -> substitution matched after repl = repl.
Proof.
  induction repl as [|d rest IH]; [reflexivity|].
  cbn [has_dollar substitution]. intro H.
  apply orb_false_iff in H as [H1 H2]. rewrite H1. now rewrite IH.
Qed.

Lemma nonempty_eqb (u : string) : u <> "" -> String.eqb u "" = false.
Proof. intro H. now apply String.eqb_neq. Qed.

Lemma convertUrl_old_base (u : string) :
  baseUrl opts <> "" ->
  startsWith u (baseUrl opts) = true ->
  has_dollar (newBaseUrl opts) = false ->
  convertUrl opts u
  = (newBaseUrl opts ++ drop (String.length (baseUrl opts)) u)%string.
Proof.
  intros Hb Hs Hd. unfold convertUrl.
  rewrite (@nonempty_eqb u (@startsWith_nonempty u _ Hb Hs)), Hs.
  now rewrite substitution_plain.
Qed.

Lemma convertUrl_root_relative (u : string) :
  startsWith u (baseUrl opts) = false ->
  startsWith u "/" = true -> startsWith u "//" = false ->
  convertUrl opts u = (newBaseUrl opts ++ u)%string.
Proof.
  intros Hs H1 H2. unfold convertUrl. rewrite Hs, H1, H2.
  destruct u; [discriminate | reflexivity].
Qed.

Lemma convertUrl_other (u : string) :
  startsWith u (baseUrl opts) = false ->
  startsWith u "/" = false \/ startsWith u "//" = true ->
  convertUrl opts u = u.
Proof.
  intros Hs H. unfold convertUrl. rewrite Hs.
  destruct (String.eqb u ""); [reflexivity|].
  destruct H as [-> | ->]; [reflexivity|]. now rewrite andb_false_r.
Qed.

Lemma hasAttribute_get a k v :
  getAttribute a k = Some v -> hasAttribute a k = true.
Proof. unfold hasAttribute. now intros ->. Qed.

Lemma fix_urls_link a v :
  getAttribute a "href" = Some v ->
  getAttribute (fix_urls_of lib opts "a" a) "href"
  = Some (convertUrl opts (resolve_url lib v)).
Proof.
  intro H. unfold fix_urls_of. simpl.
  rewrite (@hasAttribute_get a _ _ H), getAttribute_set_same.
  unfold reflect_url. now rewrite H.
Qed.

Lemma fix_urls_image a v :
  getAttribute a "src" = Some v ->
  getAttribute (fix_urls_of lib opts "img" a) "src"
  = Some (convertUrl opts (resolve_url lib v)) /\
  (forall d, getAttribute a "data-src" = Some d -> d <> "" ->
             getAttribute (fix_urls_of lib opts "img" a) "data-src"
             = Some (convertUrl opts d)).
Proof.
  intro H. unfold fix_urls_of. simpl. rewrite (@hasAttribute_get a _ _ H).
  unfold reflect_url. rewrite H.
  rewrite (@getAttribute_set_other a "src"
             (convertUrl opts (resolve_url lib v)) "data-src") by discriminate.
  split.
  - destruct (getAttribute a "data-src") as [d|]; [|apply getAttribute_set_same].
    destruct (String.eqb d ""); [apply getAttribute_set_same|].
    rewrite getAttribute_set_other by discriminate.
    apply getAttribute_set_same.
  - intros d Hd Hne. rewrite Hd, (@nonempty_eqb d Hne).
    apply getAttribute_set_same.
Qed.

Lemma fix_urls_elsewhere t a :
  t <> "a" -> t <> "img" -> fix_urls_of lib opts t a = a.
Proof.
  intros H1 H2. unfold fix_urls_of.
  apply String.eqb_neq in H1, H2. now rewrite H1, H2.
Qed.

Lemma fix_urls_absent t a :
  getAttribute a "href" = None -> getAttribute a "src" = None ->
  fix_urls_of lib opts t a = a.
Proof.
  intros H1 H2. unfold fix_urls_of, hasAttribute.
  now rewrite H1, H2, !andb_false_r.
Qed.

End Urls.

(** C2, as the code has it.  With both bases configured, [fixUrls]
    rewrites the attributes of every element by [fix_urls_of]: the
    [href] of an [a] element and the [src] of an [img] element become
    [convertUrl] of the url the property returns, and so does a
    non-empty [data-src] of an [img] that has a [src]; the attributes
    of every other element, [href] and [src] included, stay as they
    are.  [convertUrl] replaces the prefix [baseUrl] by [newBaseUrl]
    (written without [$]), puts [newBaseUrl] before a root-relative
    url, and returns any other url as it is. *)
Theorem fixUrls_rewrites_links_and_images
  (lib : Dom.Library) (opts : ContentCleaner.Options) :
  ContentCleaner.baseUrl opts <> "" ->
  ContentCleaner.newBaseUrl opts <> "" ->
  (forall f, ContentCleaner.fixUrls lib opts f
             = map (ContentCleaner.map_attributes
                      (ContentCleaner.fix_urls_of lib opts)) f) /\
  (forall a v, Dom.getAttribute a "href" = Some v ->
     Dom.getAttribute (ContentCleaner.fix_urls_of lib opts "a" a) "href"
     = Some (ContentCleaner.convertUrl opts (Dom.resolve_url lib v))) /\
  (forall a v, Dom.getAttribute a "src" = Some v ->
     Dom.getAttribute (ContentCleaner.fix_urls_of lib opts "img" a) "src"
     = Some (ContentCleaner.convertUrl opts (Dom.resolve_url lib v)) /\
     (forall d, Dom.getAttribute a "data-src" = Some d -> d <> "" ->
        Dom.getAttribute (ContentCleaner.fix_urls_of lib opts "img" a)
                         "data-src"
        = Some (ContentCleaner.convertUrl opts d))) /\
  (forall t a, t <> "a" -> t <> "img" ->
     ContentCleaner.fix_urls_of lib opts t a = a) /\
  (forall u, startsWith u (ContentCleaner.baseUrl opts) = true ->
     Notions.has_dollar (ContentCleaner.newBaseUrl opts) = false ->
     ContentCleaner.convertUrl opts u
     = (ContentCleaner.newBaseUrl opts
        ++ ContentCleaner.drop (String.length (ContentCleaner.baseUrl opts)) u)%string) /\
  (forall u, startsWith u (ContentCleaner.baseUrl opts) = false ->
     startsWith u "/" = true -> startsWith u "//" = false ->
     ContentCleaner.convertUrl opts u
     = (ContentCleaner.newBaseUrl opts ++ u)%string) /\
  (forall u, startsWith u (ContentCleaner.baseUrl opts) = false ->
     startsWith u "/" = false \/ startsWith u "//" = true ->
     ContentCleaner.convertUrl opts u = u).
Proof.
  intros Hb Hn.
  split.
  { intro f. unfold ContentCleaner.fixUrls.
    now rewrite (@nonempty_eqb _ Hb), (@nonempty_eqb _ Hn). }
  split. { intros a v. apply fix_urls_link. }
  split. { intros a v. apply fix_urls_image. }
  split. { intros t a. apply fix_urls_elsewhere. }
  split. { intro u. now apply convertUrl_old_base. }
  split. { intro u. apply convertUrl_root_relative. }
  intro u. apply convertUrl_other.
Qed.

Lemma fixUrls_rewrites_links_and_images_witness :
  ContentCleaner.baseUrl Notions.rewriting <> "" /\
  ContentCleaner.newBaseUrl Notions.rewriting <> "" /\
  ContentCleaner.convertUrl Notions.rewriting "http://old.example/a.png"
  = "https://new.example/a.png".
Proof.
  assert (Hb : ContentCleaner.baseUrl Notions.rewriting <> "") by discriminate.
  assert (Hn : ContentCleaner.newBaseUrl Notions.rewriting <> "")
    by discriminate.
  split; [exact Hb|]. split; [exact Hn|].
  exact (proj1 (proj2 (proj2 (proj2 (proj2
           (@fixUrls_rewrites_links_and_images SimpleDom.library
              Notions.rewriting Hb Hn)))))
           "http://old.example/a.png" eq_refl eq_refl).
Defined.

(** C2 as claimed fails: the [src] of an [iframe] starts with the old
    base and comes out as it went in, while the [href] next to it is
    rewritten. *)
Lemma iframe_source_not_rewritten :
  Dom.parse_content SimpleDom.library
    "<a href='http://old.example/a'>x</a><iframe src='http://old.example/v'></iframe>"
  = [Dom.Element "a" [("href", "http://old.example/a")] [Dom.Text "x"];
     Dom.Element "iframe" [("src", "http://old.example/v")] []] /\
  ContentCleaner.clean SimpleDom.library Notions.rewriting
    "<a href='http://old.example/a'>x</a><iframe src='http://old.example/v'></iframe>"
  = Ok (Dom.serialize SimpleDom.library
          [Dom.Element "a" [("href", "https://new.example/a")] [Dom.Text "x"];
           Dom.Element "iframe" [("src", "http://old.example/v")] []]).
Proof. split; reflexivity. Qed.

(** ** C1: fixed points *)

Section FixedPoint.

Import Dom ContentCleaner Notions.

Lemma nodes_of_app (f g : forest) : nodes_of (f ++ g) = nodes_of f ++ nodes_of g.
Proof. apply flat_map_app. Qed.

Lemma size_app (f g : forest) : size (f ++ g) = size f + size g.
Proof. unfold size. now rewrite nodes_of_app, length_app. Qed.

Lemma size_cons (n : node) (f : forest) :
  size (n :: f) = List.length (subtree n) + size f.
Proof. unfold size. simpl. now rewrite length_app. Qed.

(** A subtree in which [p] holds nowhere is pruned to itself. *)
Lemma prune_nowhere p n :
  existsb p (subtree n) = false -> prune p n = [n].
Proof.
  induction n as [t a cs IH | d | d] using node_induction; intro H.
  - cbn [subtree existsb] in H. apply orb_false_iff in H as [H1 H2].
    cbn [prune]. rewrite H1. rewrite flat_map_singletons; [reflexivity|].
    rewrite Forall_forall in *. intros x Hx. apply IH; [exact Hx|].
    destruct (existsb p (subtree x)) eqn:E; [|reflexivity].
    assert (Hc : existsb p (flat_map subtree cs) = true).
    { apply existsb_exists in E as [y [Hy Py]]. apply existsb_exists.
      exists y. split; [|exact Py]. apply in_flat_map. eauto. }
    congruence.
  - cbn [subtree existsb] in H. cbn [prune].
    now destruct (p (Text d)).
  - cbn [subtree existsb] in H. cbn [prune].
    now destruct (p (Comment d)).
Qed.

Lemma prune_forest_nowhere p f :
  existsb p (nodes_of f) = false -> flat_map (prune p) f = f.
Proof.
  intro H. apply flat_map_singletons. rewrite Forall_forall. intros x Hx.
  apply prune_nowhere. destruct (existsb p (subtree x)) eqn:E; [|reflexivity].
  assert (Hc : existsb p (nodes_of f) = true).
  { apply existsb_exists in E as [y [Hy Py]]. apply existsb_exists.
    exists y. split; [|exact Py]. apply in_flat_map. eauto. }
  congruence.
Qed.

(** Pruning never adds a node, and removes one where [p] holds. *)
Lemma prune_forest_size_from p f :
  Forall (fun n => size (prune p n) <= List.length (subtree n) /\
                   (existsb p (subtree n) = true ->
                    size (prune p n) < List.length (subtree n))) f ->
  size (flat_map (prune p) f) <= size f /\
  (existsb p (nodes_of f) = true -> size (flat_map (prune p) f) < size f).
Proof.
  induction 1 as [|n f [Hn1 Hn2] _ [IH1 IH2]].
  - split; [apply le_n | discriminate].
  - cbn [flat_map]. rewrite size_app, size_cons. split; [lia|].
    unfold nodes_of. cbn [flat_map]. rewrite existsb_app.
    intro H. apply orb_true_iff in H as [H | H].
    + specialize (Hn2 H). lia.
    + specialize (IH2 H). lia.
Qed.

Lemma prune_size p n :
  size (prune p n) <= List.length (subtree n) /\
  (existsb p (subtree n) = true -> size (prune p n) < List.length (subtree n)).
Proof.
  induction n as [t a cs IH | d | d] using node_induction.
  - cbn [prune subtree existsb List.length].
    destruct (p (Element t a cs)) eqn:E.
    + unfold size. simpl. split; [lia | intros _; lia].
    + destruct (@prune_forest_size_from p cs IH) as [H1 H2].
      unfold size, nodes_of in *. cbn [flat_map subtree].
      rewrite app_nil_r. cbn [List.length]. simpl orb.
      split; [lia|]. intro H. specialize (H2 H). lia.
  - cbn [prune subtree existsb]. destruct (p (Text d)); unfold size; simpl.
    + split; [lia | intros _; lia].
    + split; [lia | discriminate].
  - cbn [prune subtree existsb]. destruct (p (Comment d)); unfold size; simpl.
    + split; [lia | intros _; lia].
    + split; [lia | discriminate].
Qed.

Lemma prune_forest_size p f :
  size (flat_map (prune p) f) <= size f /\
  (existsb p (nodes_of f) = true -> size (flat_map (prune p) f) < size f).
Proof.
  apply prune_forest_size_from. rewrite Forall_forall. intros n _.
  apply prune_size.
Qed.

Lemma passes_spec (tags : list string) (f : forest) (b : bool) :
  size (fst (passes tags f b)) <= size f /\
  (snd (passes tags f b) = true ->
   b = true \/ size (fst (passes tags f b)) < size f) /\
  (snd (passes tags f b) = false ->
   fst (passes tags f b) = f /\ b = false /\
   forall tag, In tag tags ->
     existsb (is_empty_element tag) (nodes_of f) = false).
Proof.
  revert f b. induction tags as [|tag tags IH]; intros f b.
  - unfold passes. simpl. split; [lia|]. split; [now left|].
    intro H. repeat split; [exact H | contradiction].
  - change (passes (tag :: tags) f b)
      with (passes tags (flat_map (prune (is_empty_element tag)) f)
              (b || existsb (is_empty_element tag) (nodes_of f))).
    destruct (IH (flat_map (prune (is_empty_element tag)) f)
                 (b || existsb (is_empty_element tag) (nodes_of f)))
      as (I1 & I2 & I3).
    destruct (prune_forest_size (is_empty_element tag) f) as [P1 P2].
    split; [lia|]. split.
    + intro H. destruct (I2 H) as [Hb | Hlt]; [|right; lia].
      apply orb_true_iff in Hb as [Hb | Hb]; [now left|].
      right. specialize (P2 Hb). lia.
    + intro H. destruct (I3 H) as (E & Hb & Hall).
      apply orb_false_iff in Hb as [Hb He].
      rewrite (@prune_forest_nowhere _ f He) in E, Hall |- *.
      split; [exact E|]. split; [exact Hb|].
      intros tag' [<- | Hin]; [exact He | now apply Hall].
Qed.

Lemma remove_round_passes (f : forest) :
  remove_round f = passes emptyTags f false.
Proof. reflexivity. Qed.

(** With enough turns the loop ends on a settled forest. *)
Lemma remove_loop_settles (fuel : nat) (f : forest) :
  size f < fuel -> settled (remove_loop fuel f).
Proof.
  revert f. induction fuel as [|fuel IH]; intros f H; [lia|].
  cbn [remove_loop]. rewrite remove_round_passes.
  destruct (passes_spec emptyTags f false) as (P1 & P2 & P3).
  destruct (passes emptyTags f false) as [f' removed] eqn:E.
  cbn [fst snd] in P1, P2, P3. destruct removed.
  - apply IH. destruct (P2 eq_refl) as [Hb | Hlt]; [discriminate | lia].
  - destruct (P3 eq_refl) as (-> & _ & _).
    unfold settled. rewrite remove_round_passes, E. reflexivity.
Qed.

Lemma settled_spec (f : forest) :
  settled f ->
  removeEmptyElements f = f /\
  forall tag, In tag emptyTags ->
    existsb (is_empty_element tag) (nodes_of f) = false.
Proof.
  unfold settled, removeEmptyElements. intro H. cbn [remove_loop].
  rewrite remove_round_passes in *.
  destruct (passes_spec emptyTags f false) as (_ & _ & P3).
  destruct (passes emptyTags f false) as [f' removed].
  cbn [fst snd] in H, P3. subst removed.
  destruct (P3 eq_refl) as (-> & _ & Hall). now split.
Qed.

Lemma removeEmptyElements_settles (f : forest) :
  settled (removeEmptyElements f).
Proof. apply remove_loop_settles. unfold size. apply Nat.lt_succ_diag_r. Qed.

End FixedPoint.

(** C1, as the code has it.  The removal of empty elements reaches a
    fixed point: in its result no element of the listed tags is empty,
    and applying it again changes nothing.  [clean] as a whole has no
    such property. *)
Theorem removeEmptyElements_fixed_point (f : Dom.forest) :
  ContentCleaner.removeEmptyElements (ContentCleaner.removeEmptyElements f)
  = ContentCleaner.removeEmptyElements f /\
  forall tag, In tag ContentCleaner.emptyTags ->
    existsb (ContentCleaner.is_empty_element tag)
            (Dom.nodes_of (ContentCleaner.removeEmptyElements f)) = false.
Proof. apply settled_spec, removeEmptyElements_settles. Qed.

(** C1 as claimed fails: the first pass removes the empty paragraph and
    leaves a [div] around a single paragraph; the second pass unwraps
    it. *)
Lemma clean_is_not_idempotent :
  ~ (forall (lib : Dom.Library) (opts : ContentCleaner.Options)
            (html out : string),
       ContentCleaner.clean lib opts html = Ok out ->
       ContentCleaner.clean lib opts out = Ok out).
Proof.
  intro H.
  assert (E1 : ContentCleaner.clean SimpleDom.library
                 ContentCleaner.default_options "<div><p>a</p><p></p></div>"
               = Ok "<div><p>a</p></div>") by (vm_compute; reflexivity).
  assert (E2 : ContentCleaner.clean SimpleDom.library
                 ContentCleaner.default_options "<div><p>a</p></div>"
               = Ok "<p>a</p>") by (vm_compute; reflexivity).
  specialize (H _ _ _ _ E1). rewrite E2 in H. discriminate H.
Qed.

(** ** C8 and C9: runs of the orchestrator *)

Section Runs.

Import Orchestrator Notions.

Variable options : CliOptions.
Variable w : World.













End Runs.



(** C8, where the code fails it.  When media upload is requested and
    [admin.storage()] throws because no Firebase app was initialised, as
    it does after a failure to load the credentials, the run ends with
    that error at the media stage, before any page is cleaned and the
    report written. *)
Theorem upload_request_aborts_without_app
  (options : Orchestrator.CliOptions) (w : Orchestrator.World)
  (input : string) (d : Orchestrator.WpData) (msg : string) :
  Orchestrator.inputFile options = Some input -> input <> "" ->
  Orchestrator.inputExists w = true ->
  Orchestrator.parse w = Ok d ->
  Orchestrator.uploadMedia options = true ->
  Orchestrator.bucketName w (Orchestrator.appInitialised options w)
    = Throw msg ->
  Orchestrator.run options w
  = (Orchestrator.Mkdir (Orchestrator.outputDir options)
     :: (if Orchestrator.dryRun options then []
         else [Orchestrator.InitFirebase]),
     Throw msg).
Proof.
  intros Hi Hne He Hp Hu Hb.
  unfold Orchestrator.run, Orchestrator.migrate, Orchestrator.prepare,
    Orchestrator.migrateMedia.
  apply String.eqb_neq in Hne.
  rewrite Hi, Hne, He, Hu, orb_true_r. simpl negb. cbv iota.
  unfold Orchestrator.mbind, Orchestrator.emit, Orchestrator.lift,
    Orchestrator.ret.
  rewrite Hp, Hb. now destruct (Orchestrator.dryRun options).
Qed.

Lemma upload_request_aborts_without_app_witness :
  Orchestrator.credentials Notions.no_credentials = false /\
  Orchestrator.dry (Notions.command_line false false true)
                   Notions.no_credentials = true /\
  Orchestrator.run (Notions.command_line false false true)
                   Notions.no_credentials
  = ([Orchestrator.Mkdir "out"; Orchestrator.InitFirebase],
     Throw "The default Firebase app does not exist").
Proof.
  split; [reflexivity|]. split; [reflexivity|].
  exact (@upload_request_aborts_without_app
           (Notions.command_line false false true) Notions.no_credentials
           "export.xml" Notions.one_page
           "The default Firebase app does not exist"
           eq_refl ltac:(discriminate) eq_refl eq_refl eq_refl eq_refl).
Defined.

(** C9, where the code fails it.  With [--dry-run] Firebase is not
    initialised, and a request to upload media then meets the same
    unguarded [admin.storage()]: the run ends with its error after the
    output directory is made, and writes neither the report nor a
    preview, whereas the same command line without [--dry-run] writes
    them.  So the flag decides on the report. *)
Theorem dry_run_with_upload_writes_no_report
  (options : Orchestrator.CliOptions) (w : Orchestrator.World)
  (input : string) (d : Orchestrator.WpData) (msg : string) :
  Orchestrator.inputFile options = Some input -> input <> "" ->
  Orchestrator.inputExists w = true ->
  Orchestrator.parse w = Ok d ->
  Orchestrator.dryRun options = true ->
  Orchestrator.uploadMedia options = true ->
  Orchestrator.bucketName w false = Throw msg ->
  Orchestrator.run options w
  = ([Orchestrator.Mkdir (Orchestrator.outputDir options)], Throw msg) /\
  existsb Notions.is_report (fst (Orchestrator.run options w)) = false.
Proof.
  intros Hi Hne He Hp Hd Hu Hb.
  assert (E : Orchestrator.run options w
              = ([Orchestrator.Mkdir (Orchestrator.outputDir options)],
                 Throw msg)).
  { unfold Orchestrator.run, Orchestrator.migrate, Orchestrator.prepare,
      Orchestrator.migrateMedia, Orchestrator.appInitialised.
    apply String.eqb_neq in Hne.
    rewrite Hi, Hne, He, Hu, Hd, orb_true_r. simpl negb. cbv iota.
    unfold Orchestrator.mbind, Orchestrator.emit, Orchestrator.lift,
      Orchestrator.ret.
    now rewrite Hp, Hb. }
  split; [exact E|]. now rewrite E.
Qed.

Lemma dry_run_with_upload_writes_no_report_witness :
  Orchestrator.run (Notions.command_line true false true)
                   Notions.with_credentials
  = ([Orchestrator.Mkdir "out"],
     Throw "The default Firebase app does not exist") /\
  existsb Notions.is_report
          (fst (Orchestrator.run (Notions.command_line true false true)
                                 Notions.with_credentials)) = false /\
  existsb Notions.is_report
          (fst (Orchestrator.run (Notions.command_line false false true)
                                 Notions.with_credentials)) = true.
Proof.
  destruct (@dry_run_with_upload_writes_no_report
              (Notions.command_line true false true) Notions.with_credentials
              "export.xml" Notions.one_page
              "The default Firebase app does not exist"
              eq_refl ltac:(discriminate) eq_refl eq_refl eq_refl eq_refl
              eq_refl) as [E1 E2].
  split; [exact E1|]. split; [exact E2|]. vm_compute. reflexivity.
Defined.

(** The same failure of the credentials without a request to upload:
    the run becomes dry and completes. *)
Example download_only_degrades_to_dry_run :
  Orchestrator.dry (Notions.command_line false true false)
                   Notions.no_credentials = true /\
  snd (Orchestrator.run (Notions.command_line false true false)
                        Notions.no_credentials) = Ok tt /\
  existsb Notions.is_report
          (fst (Orchestrator.run (Notions.command_line false true false)
                                 Notions.no_credentials)) = true.
Proof. vm_compute. repeat split. Qed.

(* ================================================================== *)
(** * Further properties *)
(* ================================================================== *)

(** ** File names and slugs *)

Section Names.

Import Further.

Ltac each_ascii c := destruct c as [[] [] [] [] [] [] [] []].

Lemma every_map (p q : ascii -> bool) (g : ascii -> ascii) (s : string) :
  (forall c, p c = true -> q (g c) = true) ->
  every p s = true -> every q (map_string g s) = true.
Proof.
  intro H. induction s as [|c s IH]; [reflexivity|].
  simpl. intro E. apply andb_true_iff in E as [E1 E2].
  now rewrite (H c E1), IH.
Qed.

Lemma every_true (p : ascii -> bool) (s : string) :
  (forall c, p c = true) -> every p s = true.
Proof.
  intro H. induction s as [|c s IH]; [reflexivity|]. simpl. now rewrite H, IH.
Qed.

Lemma map_string_fixed (p : ascii -> bool) (g : ascii -> ascii) (s : string) :
  (forall c, p c = true -> g c = c) -> every p s = true -> map_string g s = s.
Proof.
  intro H. induction s as [|c s IH]; [reflexivity|].
  simpl. intro E. apply andb_true_iff in E as [E1 E2].
  now rewrite (H c E1), IH.
Qed.

(** Collapsing keeps the first code unit. *)
Lemma collapse_head (s : string) :
  match s with
  | EmptyString => MediaMigrator.collapse_hyphens s = EmptyString
  | String c _ => exists r, MediaMigrator.collapse_hyphens s = String c r
  end.
Proof.
  induction s as [|c s IH]; [reflexivity|].
  cbn [MediaMigrator.collapse_hyphens].
  destruct (Ascii.eqb c MediaMigrator.hyphen) eqn:E; [|eauto].
  destruct s as [|c' s']; [eauto|].
  destruct (Ascii.eqb c' MediaMigrator.hyphen) eqn:E'; [|eauto].
  destruct IH as [r Hr]. exists r. rewrite Hr.
  apply Ascii.eqb_eq in E, E'. congruence.
Qed.

Lemma every_collapse (p : ascii -> bool) (s : string) :
  every p s = true -> every p (MediaMigrator.collapse_hyphens s) = true.
Proof.
  induction s as [|c s IH]; [reflexivity|].
  intro E. pose proof E as E0. simpl in E.
  apply andb_true_iff in E as [E1 E2]. specialize (IH E2).
  cbn [MediaMigrator.collapse_hyphens].
  destruct (Ascii.eqb c MediaMigrator.hyphen).
  - destruct s as [|c' s']; [exact E0|].
    destruct (Ascii.eqb c' MediaMigrator.hyphen); [exact IH|].
    cbn [every]. now rewrite E1, IH.
  - cbn [every]. now rewrite E1, IH.
Qed.

Lemma single_hyphens_two (c c' : ascii) (r : string) :
  single_hyphens (String c (String c' r))
  = negb (is_hyphen c && is_hyphen c') && single_hyphens (String c' r).
Proof. reflexivity. Qed.

Lemma single_hyphens_collapse (s : string) :
  single_hyphens (MediaMigrator.collapse_hyphens s) = true.
Proof.
  induction s as [|c s IH]; [reflexivity|].
  cbn [MediaMigrator.collapse_hyphens].
  destruct (Ascii.eqb c MediaMigrator.hyphen) eqn:E.
  - destruct s as [|c' s']; [reflexivity|].
    destruct (Ascii.eqb c' MediaMigrator.hyphen) eqn:E'; [exact IH|].
    destruct (collapse_head (String c' s')) as [r Hr].
    rewrite Hr in *. rewrite single_hyphens_two, IH.
    unfold is_hyphen. now rewrite E, E'.
  - pose proof (collapse_head s) as Hh. destruct s as [|c' s'].
    + reflexivity.
    + destruct Hh as [r Hr]. rewrite Hr in *.
      rewrite single_hyphens_two, IH. unfold is_hyphen. now rewrite E.
Qed.

Lemma collapse_single (s : string) :
  single_hyphens s = true -> MediaMigrator.collapse_hyphens s = s.
Proof.
  induction s as [|c s IH]; [reflexivity|].
  destruct s as [|c' s'].
  - intros _. cbn. now destruct (Ascii.eqb c MediaMigrator.hyphen).
  - rewrite single_hyphens_two. intro H.
    apply andb_true_iff in H as [H1 H2].
    change (MediaMigrator.collapse_hyphens (String c (String c' s')))
      with (if Ascii.eqb c MediaMigrator.hyphen
            then (if Ascii.eqb c' MediaMigrator.hyphen
                  then MediaMigrator.collapse_hyphens (String c' s')
                  else String c (MediaMigrator.collapse_hyphens (String c' s')))
            else String c (MediaMigrator.collapse_hyphens (String c' s'))).
    rewrite (IH H2). unfold is_hyphen in H1.
    destruct (Ascii.eqb c MediaMigrator.hyphen); [|reflexivity].
    destruct (Ascii.eqb c' MediaMigrator.hyphen); [discriminate | reflexivity].
Qed.

Lemma single_hyphens_map (g : ascii -> ascii) (s : string) :
  (forall c, is_hyphen (g c) = is_hyphen c) ->
  single_hyphens s = true -> single_hyphens (map_string g s) = true.
Proof.
  intro H. induction s as [|c s IH]; [reflexivity|].
  destruct s as [|c' s']; [reflexivity|].
  rewrite single_hyphens_two. intro E. apply andb_true_iff in E as [E1 E2].
  change (map_string g (String c (String c' s')))
    with (String (g c) (String (g c') (map_string g s'))).
  rewrite single_hyphens_two, !H, E1. now apply IH.
Qed.

(** A string all of whose code units differ from [c] does not include
    it. *)
Lemma every_excludes (p : ascii -> bool) (c : ascii) (s : string) :
  p c = false -> every p s = true -> includes s (String c "") = false.
Proof.
  intros Hc. induction s as [|d s IH]; [reflexivity|].
  simpl. intro E. apply andb_true_iff in E as [E1 E2].
  rewrite (IH E2), orb_false_r.
  destruct (Ascii.ascii_dec c d) as [->|Hn]; [congruence|].
  unfold startsWith. simpl. destruct (Ascii.ascii_dec c d); [contradiction|].
  reflexivity.
Qed.

Lemma lower_filename_unit (c : ascii) :
  MediaMigrator.filename_char_ok c = true ->
  filename_unit (lower_char c) = true.
Proof. each_ascii c; vm_compute; congruence. Qed.

Lemma lower_keeps_hyphens (c : ascii) : is_hyphen (lower_char c) = is_hyphen c.
Proof. each_ascii c; reflexivity. Qed.

Lemma filename_unit_fixed (c : ascii) :
  filename_unit c = true ->
  lower_char c = c /\ MediaMigrator.filename_char_ok c = true.
Proof. each_ascii c; vm_compute; intro H; try discriminate H; split; reflexivity. Qed.

Lemma replaced_ok (s : string) :
  every MediaMigrator.filename_char_ok
    (map_string (fun c => if MediaMigrator.filename_char_ok c then c
                          else MediaMigrator.hyphen) s) = true.
Proof.
  induction s as [|c s IH]; [reflexivity|].
  simpl. rewrite IH, andb_true_r.
  now destruct (MediaMigrator.filename_char_ok c) eqn:E.
Qed.

End Names.

(** X1.  A sanitised file name consists of lower-case letters, digits,
    dots and hyphens only, has no two hyphens in a row and holds no
    slash. *)
Theorem sanitizeFilename_safe (name : string) :
  Further.every Further.filename_unit (MediaMigrator.sanitizeFilename name)
    = true /\
  Further.single_hyphens (MediaMigrator.sanitizeFilename name) = true /\
  includes (MediaMigrator.sanitizeFilename name) "/" = false.
Proof.
  assert (H1 : Further.every Further.filename_unit
                 (MediaMigrator.sanitizeFilename name) = true).
  { unfold MediaMigrator.sanitizeFilename, toLowerCase.
    apply (every_map MediaMigrator.filename_char_ok);
      [exact lower_filename_unit|].
    apply every_collapse, replaced_ok. }
  split; [exact H1|]. split.
  - unfold MediaMigrator.sanitizeFilename, toLowerCase.
    apply single_hyphens_map; [exact lower_keeps_hyphens|].
    apply single_hyphens_collapse.
  - now apply (every_excludes Further.filename_unit).
Qed.

(** X2.  Sanitising a sanitised file name changes nothing. *)
Theorem sanitizeFilename_idempotent (name : string) :
  MediaMigrator.sanitizeFilename (MediaMigrator.sanitizeFilename name)
  = MediaMigrator.sanitizeFilename name.
Proof.
  destruct (sanitizeFilename_safe name) as (H1 & H2 & _).
  generalize dependent (MediaMigrator.sanitizeFilename name). intros s H1 H2.
  unfold MediaMigrator.sanitizeFilename, toLowerCase.
  rewrite (map_string_fixed Further.filename_unit
             (fun c => if MediaMigrator.filename_char_ok c then c
                       else MediaMigrator.hyphen) s).
  - rewrite (collapse_single s H2).
    apply (map_string_fixed Further.filename_unit); [|exact H1].
    intros c Hc. now apply filename_unit_fixed.
  - intros c Hc. now rewrite (proj2 (filename_unit_fixed c Hc)).
  - exact H1.
Qed.

Section Slugs.

Import Further.

Ltac each_ascii c := destruct c as [[] [] [] [] [] [] [] []].

Lemma kept_lower (c : ascii) :
  kept_unit (lower_char c) = true ->
  slug_unit (lower_char c) || is_space (lower_char c) = true.
Proof. each_ascii c; vm_compute; congruence. Qed.

Lemma slug_unit_facts (c : ascii) :
  slug_unit c = true ->
  is_space c = false /\ lower_char c = c /\ kept_unit c = true.
Proof.
  each_ascii c; vm_compute; intro H; try discriminate H; repeat split.
Qed.

Lemma lowered_filter (s : string) :
  every (fun c => slug_unit c || is_space c)
        (Orchestrator.filter_string Further.kept_unit (toLowerCase s)) = true.
Proof.
  induction s as [|c s IH]; [reflexivity|].
  unfold toLowerCase in *. cbn [map_string Orchestrator.filter_string].
  destruct (kept_unit (lower_char c)) eqn:E; [|exact IH].
  cbn [every]. now rewrite (kept_lower c E), IH.
Qed.

Lemma hyphen_slug_unit : slug_unit MediaMigrator.hyphen = true.
Proof. reflexivity. Qed.

Lemma spaces_to_hyphen_units (s : string) :
  every (fun c => slug_unit c || is_space c) s = true ->
  every slug_unit (Orchestrator.spaces_to_hyphen s) = true.
Proof.
  induction s as [|c s IH]; [reflexivity|].
  intro E. cbn [every] in E. apply andb_true_iff in E as [E1 E2].
  specialize (IH E2). cbn [Orchestrator.spaces_to_hyphen].
  destruct (is_space c) eqn:Hc.
  - destruct s as [|c' s']; [reflexivity|].
    destruct (is_space c'); [exact IH|].
    cbn [every]. now rewrite hyphen_slug_unit, IH.
  - rewrite orb_false_r in E1. cbn [every]. now rewrite E1, IH.
Qed.

Lemma spaces_to_hyphen_none (s : string) :
  every slug_unit s = true -> Orchestrator.spaces_to_hyphen s = s.
Proof.
  induction s as [|c s IH]; [reflexivity|].
  cbn [every]. intro E. apply andb_true_iff in E as [E1 E2].
  cbn [Orchestrator.spaces_to_hyphen].
  destruct (slug_unit_facts c E1) as (-> & _ & _). now rewrite (IH E2).
Qed.

Lemma filter_kept (s : string) :
  every slug_unit s = true -> Orchestrator.filter_string Further.kept_unit s = s.
Proof.
  induction s as [|c s IH]; [reflexivity|].
  cbn [every]. intro E. apply andb_true_iff in E as [E1 E2].
  cbn [Orchestrator.filter_string].
  destruct (slug_unit_facts c E1) as (_ & _ & ->). now rewrite (IH E2).
Qed.

Lemma trimEnd_none (s : string) :
  every slug_unit s = true -> trimEnd s = s.
Proof.
  induction s as [|c s IH]; [reflexivity|].
  cbn [every]. intro E. apply andb_true_iff in E as [E1 E2].
  cbn [trimEnd all_space].
  destruct (slug_unit_facts c E1) as (-> & _ & _). simpl. now rewrite (IH E2).
Qed.

Lemma trim_none (s : string) : every slug_unit s = true -> trim s = s.
Proof.
  intro E. unfold trim.
  assert (H : trimStart s = s).
  { destruct s as [|c s]; [reflexivity|]. cbn [every] in E.
    apply andb_true_iff in E as [E1 _]. cbn [trimStart].
    now destruct (slug_unit_facts c E1) as (-> & _ & _). }
  rewrite H. now apply trimEnd_none.
Qed.

Lemma slugify_unfold (text : string) :
  Orchestrator.slugify text
  = trim (MediaMigrator.collapse_hyphens
            (Orchestrator.spaces_to_hyphen
               (Orchestrator.filter_string Further.kept_unit (toLowerCase text)))).
Proof. reflexivity. Qed.

End Slugs.

(** X3.  A slug consists of lower-case letters, digits, underscores and
    hyphens only, and has no two hyphens in a row; hyphens at its ends
    stay.  The parser and the orchestrator share the function. *)
Theorem slugify_safe (text : string) :
  Further.every Further.slug_unit (Orchestrator.slugify text) = true /\
  Further.single_hyphens (Orchestrator.slugify text) = true /\
  ParserHelpers.slugify text = Orchestrator.slugify text.
Proof.
  assert (H : Further.every Further.slug_unit
                (MediaMigrator.collapse_hyphens
                   (Orchestrator.spaces_to_hyphen
                      (Orchestrator.filter_string Further.kept_unit
                         (toLowerCase text)))) = true).
  { apply every_collapse, spaces_to_hyphen_units, lowered_filter. }
  split; [|split; [|reflexivity]]; rewrite slugify_unfold, (trim_none _ H).
  - exact H.
  - apply single_hyphens_collapse.
Qed.

(** X4.  The slug of a slug is the slug itself. *)
Theorem slugify_idempotent (text : string) :
  Orchestrator.slugify (Orchestrator.slugify text) = Orchestrator.slugify text.
Proof.
  destruct (slugify_safe text) as (H1 & H2 & _).
  generalize dependent (Orchestrator.slugify text). intros s H1 H2.
  rewrite slugify_unfold. unfold toLowerCase.
  rewrite (map_string_fixed Further.slug_unit lower_char s);
    [|intros c Hc; now apply slug_unit_facts | exact H1].
  rewrite (filter_kept s H1), (spaces_to_hyphen_none s H1),
    (collapse_single s H2).
  now apply trim_none.
Qed.

Section Chunks.

Import MediaMigrator.

Lemma chunk_go_shape {A} (size fuel : nat) (l : list A) :
  0 < size -> List.length l <= fuel ->
  Forall (fun c => 0 < List.length c <= size) (chunk_go fuel l size) /\
  (forall i, S i < List.length (chunk_go fuel l size) ->
             List.length (nth i (chunk_go fuel l size) []) = size).
Proof.
  intro Hs. revert l.
  induction fuel as [|fuel IH]; intros l Hl.
  - cbn [chunk_go]. split; [constructor | intros i Hi; cbn in Hi; lia].
  - destruct l as [|a l]; cbn [chunk_go].
    + split; [constructor | intros i Hi; cbn in Hi; lia].
    + assert (Hk : List.length (skipn size (a :: l)) <= fuel).
      { rewrite length_skipn. cbn [List.length] in *. lia. }
      destruct (IH _ Hk) as [IH1 IH2].
      split.
      * constructor; [|exact IH1].
        rewrite length_firstn. cbn [List.length]. lia.
      * intros [|i] Hi; cbn [nth List.length] in *.
        -- rewrite length_firstn.
           destruct (skipn size (a :: l)) as [|b r] eqn:E.
           ++ destruct fuel; cbn in Hi; lia.
           ++ assert (Hlen : List.length (skipn size (a :: l)) = S (List.length r))
                by now rewrite E.
              rewrite length_skipn in Hlen. lia.
        -- apply IH2. lia.
Qed.

End Chunks.

(** X5.  For a positive size, [chunk] cuts an array into consecutive
    pieces: their concatenation is the array, no piece is empty or longer
    than the size, and every piece but the last has exactly the size. *)
Theorem chunk_pieces {A} (l : list A) (size : nat) :
  0 < size ->
  List.concat (MediaMigrator.chunk l size) = l /\
  Forall (fun c => 0 < List.length c <= size) (MediaMigrator.chunk l size) /\
  (forall i, S i < List.length (MediaMigrator.chunk l size) ->
             List.length (nth i (MediaMigrator.chunk l size) []) = size).
Proof.
  intro Hs. split; [now apply chunk_concat|].
  unfold MediaMigrator.chunk. apply chunk_go_shape; [exact Hs | apply le_n].
Qed.

Lemma chunk_pieces_witness :
  0 < 2 /\
  List.concat (MediaMigrator.chunk [1; 2; 3; 4; 5] 2) = [1; 2; 3; 4; 5].
Proof.
  split; [lia|]. apply (@chunk_pieces nat [1; 2; 3; 4; 5] 2). lia.
Defined.

Section Splits.

Variable d : ascii.

Let sep : string := String d "".

Lemma starts_single (c : ascii) (x : string) :
  startsWith (String c x) sep = Ascii.eqb d c.
Proof.
  unfold startsWith, sep. cbn [String.prefix].
  destruct (ascii_dec d c) as [->|N].
  - rewrite Ascii.eqb_refl. now destruct x.
  - symmetry. now apply Ascii.eqb_neq.
Qed.

Lemma split_single_cons (c : ascii) (s cur : string) :
  split_go sep (String c s) 0 cur
  = if Ascii.eqb d c then cur :: split_go sep s 0 ""
    else split_go sep s 0 (snoc cur c).
Proof. cbn [split_go]. now rewrite starts_single. Qed.

Lemma includes_single_cons (c : ascii) (s : string) :
  includes (String c s) sep = Ascii.eqb d c || includes s sep.
Proof. cbn [includes]. now rewrite starts_single. Qed.

Lemma includes_single_app (a b : string) :
  includes (a ++ b) sep = includes a sep || includes b sep.
Proof.
  induction a as [|c a IH]; [reflexivity|].
  change (String c a ++ b)%string with (String c (a ++ b)).
  rewrite !includes_single_cons, IH. now rewrite orb_assoc.
Qed.

Lemma split_go_nonempty (s cur : string) : split_go sep s 0 cur <> [].
Proof.
  revert cur. induction s as [|c s IH]; intro cur; [discriminate|].
  rewrite split_single_cons. destruct (Ascii.eqb d c); [discriminate | apply IH].
Qed.

(** The last piece is what follows the last separator. *)
Lemma last_split (a b cur : string) :
  includes b sep = false ->
  List.last (split_go sep (a ++ String d b) 0 cur) "" = b.
Proof.
  intro Hb. revert cur. induction a as [|c a IH]; intro cur.
  - change ("" ++ String d b)%string with (String d b).
    rewrite split_single_cons, Ascii.eqb_refl, (split_go_absent _ _ "" Hb).
    reflexivity.
  - change (String c a ++ String d b)%string with (String c (a ++ String d b)).
    rewrite split_single_cons. destruct (Ascii.eqb d c); [|apply IH].
    specialize (IH ""). 
    destruct (split_go sep (a ++ String d b) 0 "") eqn:E; [|exact IH].
    now apply split_go_nonempty in E.
Qed.

(** The first piece is what precedes the first separator. *)
Lemma head_split (a b cur : string) :
  includes a sep = false ->
  List.hd "" (split_go sep (a ++ String d b) 0 cur) = (cur ++ a)%string.
Proof.
  revert cur. induction a as [|c a IH]; intros cur Ha.
  - change ("" ++ String d b)%string with (String d b).
    rewrite split_single_cons, Ascii.eqb_refl. cbn [hd].
    now rewrite append_empty_r.
  - change (String c a ++ String d b)%string with (String c (a ++ String d b)).
    rewrite includes_single_cons in Ha. apply orb_false_iff in Ha as [H1 H2].
    rewrite split_single_cons, H1, (IH _ H2). apply snoc_append.
Qed.

End Splits.

(** X6.  The migrator names a download after the last path segment of the
    url, cut at its first question mark; when that is empty, as for a url
    that ends in a slash, the name is [file-] and the time.  The name is
    never empty. *)
Theorem extractFilename_last_segment (now dir name query : string) :
  includes name "/" = false -> includes name "?" = false ->
  includes query "/" = false ->
  let expected := if String.eqb name "" then ("file-" ++ now)%string else name in
  MediaMigrator.extractFilename now (dir ++ "/" ++ name) = expected /\
  MediaMigrator.extractFilename now (dir ++ "/" ++ name ++ "?" ++ query)
    = expected /\
  expected <> "".
Proof.
  intros H1 H2 H3 expected. unfold MediaMigrator.extractFilename, split.
  unfold MediaMigrator.last_part, MediaMigrator.first_part.
  change (dir ++ "/" ++ name)%string with (dir ++ String "/" name)%string.
  change (dir ++ "/" ++ name ++ "?" ++ query)%string
    with (dir ++ String "/" (name ++ String "?" query))%string.
  rewrite (@last_split "/" dir name "" H1).
  rewrite (@last_split "/" dir (name ++ String "?" query) "").
  2:{ rewrite includes_single_app, H1.
      rewrite includes_single_cons, H3. reflexivity. }
  rewrite (split_go_absent _ _ "" H2), (@head_split "?" name query "" H2).
  cbn [hd append]. split; [reflexivity|]. split; [reflexivity|].
  subst expected. destruct (String.eqb name "") eqn:E; [discriminate|].
  intros ->. discriminate.
Qed.

Lemma extractFilename_last_segment_witness :
  MediaMigrator.extractFilename "17" "http://old.example/up/a.png?w=3" = "a.png".
Proof.
  apply (@extractFilename_last_segment "17" "http://old.example/up" "a.png" "w=3");
    reflexivity.
Defined.

(** X7.  The parser's [extractFilename] returns the text after the last
    slash of a url, with the query string if there is one, and the whole
    text when it has no slash. *)
Theorem parser_extractFilename_last_segment (dir rest : string) :
  includes rest "/" = false ->
  ParserHelpers.extractFilename (dir ++ "/" ++ rest) = rest /\
  ParserHelpers.extractFilename rest = rest.
Proof.
  intro H. unfold ParserHelpers.extractFilename, split, MediaMigrator.last_part.
  split.
  - destruct (String.eqb (dir ++ "/" ++ rest) "") eqn:E.
    + apply String.eqb_eq in E. destruct dir; discriminate.
    + change (dir ++ "/" ++ rest)%string with (dir ++ String "/" rest)%string.
      now apply last_split.
  - destruct (String.eqb rest "") eqn:E.
    + apply String.eqb_eq in E. now subst.
    + now rewrite (split_go_absent _ _ "" H).
Qed.

Lemma parser_extractFilename_last_segment_witness :
  ParserHelpers.extractFilename "http://old.example/up/a.png?w=3" = "a.png?w=3".
Proof.
  apply (@parser_extractFilename_last_segment "http://old.example/up" "a.png?w=3").
  reflexivity.
Defined.

Section MimeTypes.

Ltac each_ascii c := destruct c as [[] [] [] [] [] [] [] []].

Lemma lower_char_idempotent (c : ascii) :
  lower_char (lower_char c) = lower_char c.
Proof. each_ascii c; reflexivity. Qed.

Lemma toLowerCase_idempotent (s : string) :
  toLowerCase (toLowerCase s) = toLowerCase s.
Proof.
  unfold toLowerCase. induction s as [|c s IH]; [reflexivity|].
  cbn [map_string]. now rewrite lower_char_idempotent, IH.
Qed.

Lemma lower_char_dot (c : ascii) :
  Ascii.eqb "." (lower_char c) = Ascii.eqb "." c.
Proof. each_ascii c; reflexivity. Qed.

Lemma toLowerCase_dot (s : string) :
  includes (toLowerCase s) "." = includes s ".".
Proof.
  unfold toLowerCase. induction s as [|c s IH]; [reflexivity|].
  cbn [map_string]. now rewrite !includes_single_cons, lower_char_dot, IH.
Qed.

(** Of the members inherited from [Object.prototype] only [constructor]
    is written in lower case. *)
Lemma lower_case_member (k : string) :
  toLowerCase k = k -> mem_string k Object_prototype_functions = true ->
  k = "constructor".
Proof.
  intros Hk H. unfold mem_string, Object_prototype_functions in H.
  cbn [existsb] in H.
  repeat (apply orb_true_iff in H as [H|H];
          [apply String.eqb_eq in H; subst k;
           first [reflexivity | discriminate Hk]|]).
  discriminate H.
Qed.

Lemma own_mimeTypes_truthy (k v : string) :
  own_get ParserHelpers.mimeTypes k = Some v -> truthy (VString v) = true.
Proof.
  unfold ParserHelpers.mimeTypes. cbn [own_get].
  repeat (destruct (String.eqb k _);
          [intro H; injection H as <-; reflexivity|]).
  discriminate.
Qed.

End MimeTypes.

(** X8.  [guessMimeType] answers with the entry of its table for the
    lower-cased text after the last dot, or with the default type when
    the table has none; the exceptions are the extensions [constructor]
    and [__proto__], which the table object inherits: for them the answer
    is not a string. *)
Theorem guessMimeType_value (filename : string) :
  let ext := toLowerCase (MediaMigrator.last_part (split filename ".")) in
  match ParserHelpers.guessMimeType filename with
  | VString s =>
      own_get ParserHelpers.mimeTypes ext = Some s \/
      (own_get ParserHelpers.mimeTypes ext = None /\
       s = "application/octet-stream")
  | VFunction k => ext = "constructor" /\ k = "constructor"
  | VObjectPrototype => ext = "__proto__"
  | VUndefined => False
  end.
Proof.
  intro ext. unfold ParserHelpers.guessMimeType. fold ext.
  assert (Hl : toLowerCase ext = ext) by apply toLowerCase_idempotent.
  unfold or_else, get_property.
  destruct (own_get ParserHelpers.mimeTypes ext) as [v|] eqn:E.
  - rewrite (@own_mimeTypes_truthy ext v E). now left.
  - unfold Object_prototype_get.
    destruct (String.eqb ext "__proto__") eqn:E1.
    + cbn [truthy]. now apply String.eqb_eq.
    + destruct (mem_string ext Object_prototype_functions) eqn:E2.
      * cbn [truthy]. pose proof (@lower_case_member ext Hl E2) as H.
        now rewrite H.
      * cbn [truthy]. now right.
Qed.

(** X9.  [guessMimeType] looks at the text after the last dot only and
    ignores its case; a name without a dot is taken as its own
    extension. *)
Theorem guessMimeType_extension (stem ext : string) :
  includes ext "." = false ->
  ParserHelpers.guessMimeType (stem ++ "." ++ ext)
    = ParserHelpers.guessMimeType ext /\
  ParserHelpers.guessMimeType (toLowerCase ext)
    = ParserHelpers.guessMimeType ext /\
  ParserHelpers.guessMimeType ext
    = or_else (get_property ParserHelpers.mimeTypes (toLowerCase ext))
              (VString "application/octet-stream").
Proof.
  intro H. unfold ParserHelpers.guessMimeType, split, MediaMigrator.last_part.
  change (stem ++ "." ++ ext)%string with (stem ++ String "." ext)%string.
  rewrite (@last_split "." stem ext "" H).
  rewrite (split_go_absent _ _ "" H).
  assert (H' : includes (toLowerCase ext) "." = false)
    by now rewrite toLowerCase_dot.
  rewrite (split_go_absent _ _ "" H').
  cbn [List.last append]. now rewrite toLowerCase_idempotent.
Qed.

Lemma guessMimeType_extension_witness :
  ParserHelpers.guessMimeType "2019/Photo.JPG" = ParserHelpers.guessMimeType "JPG".
Proof.
  apply (@guessMimeType_extension "2019/Photo" "JPG"). reflexivity.
Defined.

Section MediaErrors.

Import MediaMigrator.

Variable env : Env.
Variable o : Options.
Variable storage : bool.

Lemma run_errors (t : list effect) (st : State) :
  errors (stats (run t st)) = errors (stats st) ++ Further.failures t.
Proof.
  revert st. induction t as [|e t IH]; intro st.
  - simpl. now rewrite app_nil_r.
  - change (run (e :: t) st) with (run t (apply st e)). rewrite IH.
    destruct e; simpl; try reflexivity. now rewrite <- app_assoc.
Qed.

Lemma failures_length (t : list effect) :
  List.length (Further.failures t) = Notions.count Notions.is_failure t.
Proof.
  unfold Notions.count. induction t as [|e t IH]; [reflexivity|].
  destruct e; simpl; try exact IH. now rewrite <- IH.
Qed.

Lemma failures_In (t : list effect) (u msg : string) :
  In (u, msg) (Further.failures t) -> In (IncFailed u msg) t.
Proof.
  unfold Further.failures. rewrite in_flat_map. intros [e [He Hin]].
  destruct e; try contradiction. destruct Hin as [Hin|[]].
  now injection Hin as <- <-.
Qed.

Lemma failure_of_task (i : nat) (a : Attachment) (u msg : string) :
  In (IncFailed u msg) (processAttachment env o storage i a) ->
  u = url a /\ url a <> "" /\
  (downloadFile env i = Throw msg \/
   storage = true /\ uploadToStorage_io env i = Throw msg).
Proof.
  unfold processAttachment.
  destruct (String.eqb (url a) "") eqn:E.
  { simpl. intros [H|[]]. discriminate H. }
  apply String.eqb_neq in E.
  destruct (skipExisting o && fileExists env i).
  { simpl. intros [H|[H|[H|[]]]]; discriminate H. }
  destruct (downloadFile env i) as [x|m].
  2:{ simpl. intros [H|[]]. injection H as <- <-. repeat split; auto. }
  destruct storage.
  - destruct (uploadToStorage_io env i) as [y|m]; simpl.
    + intros [H|[H|[H|[H|[]]]]]; discriminate H.
    + intros [H|[H|[]]]; [discriminate H|].
      injection H as <- <-. repeat split; auto.
  - simpl. intros [H|[H|[H|[]]]]; discriminate H.
Qed.

Lemma startsWith_append (p x : string) : startsWith (p ++ x) p = true.
Proof.
  unfold startsWith. induction p as [|c p IH]; simpl.
  - now destruct x.
  - destruct (ascii_dec c c); [exact IH | contradiction].
Qed.

Lemma url_of_task (i : nat) (a : Attachment) (k : prim) (v : string) :
  In (SetUrl k v) (processAttachment env o storage i a) ->
  startsWith v (Further.new_url_prefix storage) = true.
Proof.
  unfold processAttachment, Further.new_url_prefix.
  destruct (String.eqb (url a) "").
  { simpl. intros [H|[]]. discriminate H. }
  destruct (skipExisting o && fileExists env i).
  { destruct storage; simpl; intros [H|[H|[H|[]]]]; try discriminate H;
      injection H as <- <-; apply startsWith_append. }
  destruct (downloadFile env i) as [x|m].
  2:{ simpl. intros [H|[]]. discriminate H. }
  destruct storage.
  - destruct (uploadToStorage_io env i) as [y|m]; simpl.
    + intros [H|[H|[H|[H|[]]]]]; try discriminate H;
        injection H as <- <-; apply startsWith_append.
    + intros [H|[H|[]]]; discriminate H.
  - simpl. intros [H|[H|[H|[]]]]; try discriminate H;
      injection H as <- <-; apply startsWith_append.
Qed.

Lemma map_set_values (P : string -> Prop) (m : JsMap) (k : prim) (v : string) :
  Forall (fun kv => P (snd kv)) m -> P v ->
  Forall (fun kv => P (snd kv)) (map_set m k v).
Proof.
  intros Hm Hv. induction Hm as [|[k' v'] m H Hm IH]; simpl.
  - now repeat constructor.
  - destruct (prim_eqb k k'); constructor; simpl; auto.
Qed.

Lemma run_values (P : string -> Prop) (t : list effect) (st : State) :
  Forall (fun kv => P (snd kv)) (urlMap st) ->
  (forall k v, In (SetUrl k v) t -> P v) ->
  Forall (fun kv => P (snd kv)) (urlMap (run t st)).
Proof.
  revert st. induction t as [|e t IH]; intros st Hst Ht; [exact Hst|].
  change (run (e :: t) st) with (run t (apply st e)). apply IH.
  - destruct e; simpl; try exact Hst.
    apply map_set_values; [exact Hst|]. apply (Ht k). now left.
  - intros k v Hin. apply (Ht k). now right.
Qed.

Lemma task_of_trace (atts : list Attachment) (trace : list effect) (e : effect) :
  Permutation (flat_map (Notions.task env o storage) (indexed atts)) trace ->
  In e trace ->
  exists i a, nth_error atts i = Some a /\
              In e (processAttachment env o storage i a).
Proof.
  intros HP Hin. apply (Permutation_in _ (Permutation_sym HP)) in Hin.
  apply in_flat_map in Hin as [[i a] [Hia He]].
  exists i, a. split; [now apply indexed_In | exact He].
Qed.

End MediaErrors.

(** X10.  After [migrate] on a fresh migrator, under every interleaving,
    the list of errors has one entry per failure counted, and every entry
    carries the url of an attachment of the list, a non-empty one, with
    the message of the download or of the upload that failed for it. *)
Theorem media_errors_recorded
  (env : MediaMigrator.Env) (o : MediaMigrator.Options) (storage : bool)
  (atts : list MediaMigrator.Attachment) (st : MediaMigrator.State) :
  MediaMigrator.migrate env o storage atts MediaMigrator.fresh st ->
  List.length (MediaMigrator.errors (MediaMigrator.stats st))
    = MediaMigrator.failed (MediaMigrator.stats st) /\
  Forall (fun e =>
            exists i a,
              nth_error atts i = Some a /\
              fst e = MediaMigrator.url a /\ MediaMigrator.url a <> "" /\
              (MediaMigrator.downloadFile env i = Throw (snd e) \/
               storage = true /\
               MediaMigrator.uploadToStorage_io env i = Throw (snd e)))
         (MediaMigrator.errors (MediaMigrator.stats st)).
Proof.
  intro H. apply migrate_trace in H as [trace [HP ->]].
  rewrite run_errors. cbn [MediaMigrator.errors MediaMigrator.stats
    MediaMigrator.set_total MediaMigrator.fresh app].
  split.
  - rewrite failures_length.
    destruct (run_counters trace
                (MediaMigrator.set_total (List.length atts) MediaMigrator.fresh))
      as (_ & _ & _ & _ & I4).
    rewrite I4. reflexivity.
  - apply Forall_forall. intros [u msg] Hin.
    apply failures_In in Hin.
    destruct (@task_of_trace env o storage atts _ _ HP Hin) as (i & a & Hn & He).
    exists i, a. split; [exact Hn|].
    now apply (@failure_of_task env o storage i a).
Qed.

Lemma media_errors_recorded_witness :
  let st := MediaMigrator.migrate_in_order Notions.second_missing
              (Notions.media_options None) false Notions.three_images
              MediaMigrator.fresh in
  List.length (MediaMigrator.errors (MediaMigrator.stats st))
    = MediaMigrator.failed (MediaMigrator.stats st).
Proof.
  apply (@media_errors_recorded Notions.second_missing
           (Notions.media_options None) false Notions.three_images).
  apply migrate_in_order_allowed.
Defined.

(** X11.  After [migrate] on a fresh migrator, under every interleaving,
    every new url of the map points into the bucket when a storage is
    set, and into the public image directory otherwise. *)
Theorem media_new_urls
  (env : MediaMigrator.Env) (o : MediaMigrator.Options) (storage : bool)
  (atts : list MediaMigrator.Attachment) (st : MediaMigrator.State) :
  MediaMigrator.migrate env o storage atts MediaMigrator.fresh st ->
  Forall (fun kv => startsWith (snd kv) (Further.new_url_prefix storage) = true)
         (MediaMigrator.urlMap st).
Proof.
  intro H. apply migrate_trace in H as [trace [HP ->]].
  apply (@run_values
           (fun v => startsWith v (Further.new_url_prefix storage) = true)).
  - constructor.
  - intros k v Hin.
    destruct (@task_of_trace env o storage atts _ _ HP Hin) as (i & a & _ & He).
    now apply (@url_of_task env o storage i a k).
Qed.

Lemma media_new_urls_witness :
  Forall (fun kv => startsWith (snd kv) "/images/" = true)
         (MediaMigrator.urlMap
            (MediaMigrator.migrate_in_order Notions.second_missing
               (Notions.media_options None) false Notions.three_images
               MediaMigrator.fresh)).
Proof.
  apply (@media_new_urls Notions.second_missing
           (Notions.media_options None) false Notions.three_images).
  apply migrate_in_order_allowed.
Defined.

Section Unwanted.

Import Dom ContentCleaner Further.











End Unwanted.


Section Attributes.

Import Dom ContentCleaner Further.

Variable opts : Options.

Lemma getAttribute_filter (g : string * string -> bool) a k :
  (forall v, g (k, v) = true) ->
  getAttribute (filter g a) k = getAttribute a k.
Proof.
  intro H. unfold getAttribute. induction a as [|[k' v] a IH]; [reflexivity|].
  cbn [filter own_get]. destruct (String.eqb k k') eqn:E.
  - apply String.eqb_eq in E. subst k'. rewrite H. cbn [own_get].
    now rewrite String.eqb_refl.
  - destruct (g (k', v)); [cbn [own_get]; now rewrite E | exact IH].
Qed.

Lemma getAttribute_remove_other a k k' :
  k' <> k -> getAttribute (removeAttribute a k) k' = getAttribute a k'.
Proof.
  intro H. unfold removeAttribute. apply getAttribute_filter.
  intro v. cbn [fst]. apply negb_true_iff, String.eqb_neq. congruence.
Qed.

Lemma getAttribute_remove_same a k :
  getAttribute (removeAttribute a k) k = None.
Proof.
  unfold getAttribute, removeAttribute.
  induction a as [|[k' v] a IH]; [reflexivity|].
  cbn [filter fst]. destruct (String.eqb k k') eqn:E; cbn [negb]; [exact IH|].
  cbn [own_get]. now rewrite E.
Qed.

(** The steps after the classes leave an attribute alone that is not
    [style], [id] or a [data-] attribute. *)
Lemma later_steps_keep (a1 : list (string * string)) (k : string) :
  is_data_attribute k = false -> k <> "style" -> k <> "id" ->
  let a3 := removeAttribute
              (filter (fun kv => negb (is_data_attribute (fst kv))) a1) "style" in
  getAttribute (if negb (String.eqb (reflect a3 "id") "")
                   && generated_id (reflect a3 "id")
                then removeAttribute a3 "id" else a3) k
  = getAttribute a1 k.
Proof.
  intros Hd Hs Hi a3.
  assert (H3 : getAttribute a3 k = getAttribute a1 k).
  { unfold a3. rewrite getAttribute_remove_other by exact Hs.
    apply getAttribute_filter. intro v. cbn [fst]. now rewrite Hd. }
  destruct (negb (String.eqb (reflect a3 "id") "")
            && generated_id (reflect a3 "id")); [|exact H3].
  now rewrite getAttribute_remove_other by exact Hi.
Qed.

Lemma clean_class_keeps (a : list (string * string)) (k : string) :
  k <> "class" -> getAttribute (clean_class opts a) k = getAttribute a k.
Proof.
  intro H. unfold clean_class. destruct (classList a); [reflexivity|].
  cbv zeta. match goal with |- context [if ?b then _ else _] => destruct b end.
  - rewrite getAttribute_remove_other by exact H.
    now apply getAttribute_set_other.
  - now apply getAttribute_set_other.
Qed.

Lemma clean_attributes_plain (t : string) (a : list (string * string)) :
  plain_attributes t (clean_attributes_of opts t a) = true.
Proof.
  unfold clean_attributes_of, plain_attributes. cbv zeta.
  set (a2 := filter (fun kv => negb (is_data_attribute (fst kv))) (clean_class opts a)).
  assert (H : forall kv, In kv (removeAttribute a2 "style") ->
                         negb (presentational (fst kv)) = true).
  { intros kv Hin. unfold removeAttribute in Hin.
    apply filter_In in Hin as [Hin Hs]. apply filter_In in Hin as [_ Hd].
    unfold presentational. rewrite negb_orb, Hd. cbn [andb].
    now rewrite String.eqb_sym. }
  match goal with |- context [if ?b then _ else _] => destruct b end.
  - apply forallb_forall. intros kv Hin. apply H.
    unfold removeAttribute in Hin at 1. now apply filter_In in Hin as [Hin _].
  - apply forallb_forall. exact H.
Qed.

Lemma clean_attributes_id (t : string) (a : list (string * string)) :
  generated_id (reflect (clean_attributes_of opts t a) "id") = false.
Proof.
  unfold clean_attributes_of. cbv zeta.
  set (a3 := removeAttribute _ "style").
  destruct (String.eqb (reflect a3 "id") "") eqn:E1; cbn [negb andb].
  - apply String.eqb_eq in E1. now rewrite E1.
  - destruct (generated_id (reflect a3 "id")) eqn:E2; [|exact E2].
    unfold reflect. now rewrite getAttribute_remove_same.
Qed.

(** *** Class lists *)

Lemma every_snoc (p : ascii -> bool) (s : string) (c : ascii) :
  every p s = true -> p c = true -> every p (snoc s c) = true.
Proof.
  intros Hs Hc. unfold snoc. induction s as [|d s IH]; cbn [append every].
  - now rewrite Hc.
  - cbn [every] in Hs. apply andb_true_iff in Hs as [H1 H2].
    now rewrite H1, IH.
Qed.

Lemma tokens_ok (s cur : string) :
  every not_space cur = true ->
  Forall (fun x => x <> "" /\ every not_space x = true) (tokens_go s cur).
Proof.
  revert cur. induction s as [|c s IH]; intros cur Hc; cbn [tokens_go].
  - destruct (String.eqb cur "") eqn:E; constructor; [|constructor].
    split; [now apply String.eqb_neq | exact Hc].
  - destruct (is_ascii_whitespace c) eqn:Ec.
    + destruct (String.eqb cur "") eqn:E; [now apply IH|].
      constructor; [|now apply IH].
      split; [now apply String.eqb_neq | exact Hc].
    + apply IH. apply every_snoc; [exact Hc|]. unfold not_space. now rewrite Ec.
Qed.

Lemma tokens_go_token (x rest cur : string) :
  every not_space x = true ->
  tokens_go (x ++ rest) cur = tokens_go rest (cur ++ x).
Proof.
  revert cur. induction x as [|c x IH]; intros cur H.
  - now rewrite append_empty_r.
  - cbn [every] in H. apply andb_true_iff in H as [H1 H2].
    change (String c x ++ rest)%string with (String c (x ++ rest)).
    cbn [tokens_go]. unfold not_space in H1. apply negb_true_iff in H1.
    rewrite H1, (IH _ H2). now rewrite snoc_append.
Qed.

Lemma tokens_join (l : list string) :
  Forall (fun x => x <> "" /\ every not_space x = true) l ->
  tokens_go (join l " ") "" = l.
Proof.
  induction 1 as [|p l [Hp1 Hp2] Hl IH]; [reflexivity|].
  destruct l as [|q r].
  - cbn [join]. rewrite <- (append_empty_r p) at 1.
    rewrite tokens_go_token by exact Hp2. cbn [append tokens_go].
    apply String.eqb_neq in Hp1. now rewrite Hp1.
  - change (join (p :: q :: r) " ") with (p ++ String " " (join (q :: r) " "))%string.
    rewrite tokens_go_token by exact Hp2. cbn [append tokens_go].
    change (is_ascii_whitespace " ") with true. cbv iota.
    apply String.eqb_neq in Hp1. now rewrite Hp1, IH.
Qed.

Lemma dedup_In (l : list string) (x : string) : In x (dedup l) -> In x l.
Proof.
  revert x. induction l as [|y l IH]; intros x; [intros []|].
  cbn [dedup]. intros [<- | H]; [now left|].
  apply filter_In in H as [H _]. right. now apply IH.
Qed.

Lemma dedup_NoDup (l : list string) : NoDup (dedup l).
Proof.
  induction l as [|x l IH]; cbn [dedup]; constructor.
  - intro H. apply filter_In in H as [_ H]. now rewrite String.eqb_refl in H.
  - now apply NoDup_filter.
Qed.

Lemma filter_all {A} (g : A -> bool) (l : list A) :
  (forall x, In x l -> g x = true) -> filter g l = l.
Proof.
  induction l as [|x l IH]; intro H; [reflexivity|].
  cbn [filter]. rewrite (H x (or_introl eq_refl)), IH; [reflexivity|].
  intros y Hy. apply H. now right.
Qed.

Lemma dedup_fixed (l : list string) : NoDup l -> dedup l = l.
Proof.
  induction 1 as [|x l Hx Hl IH]; [reflexivity|].
  cbn [dedup]. rewrite IH. f_equal. apply filter_all.
  intros y Hy. apply negb_true_iff, String.eqb_neq. congruence.
Qed.

Lemma classList_ok (a : list (string * string)) :
  Forall (fun x => x <> "" /\ every not_space x = true) (classList a).
Proof.
  unfold classList. apply Forall_forall. intros x Hx.
  apply dedup_In in Hx.
  pose proof (@tokens_ok (reflect a "class") "" eq_refl) as H.
  rewrite Forall_forall in H. now apply H.
Qed.

Lemma classList_set (a : list (string * string)) (l : list string) :
  NoDup l -> Forall (fun x => x <> "" /\ every not_space x = true) l ->
  classList (setAttribute a "class" (join l " ")) = l.
Proof.
  intros Hn Hl. unfold classList, reflect.
  rewrite getAttribute_set_same, tokens_join by exact Hl. now apply dedup_fixed.
Qed.

Lemma join_empty (l : list string) :
  Forall (fun x => x <> "" /\ every not_space x = true) l ->
  join l " " = "" -> l = [].
Proof.
  intros Hl H. destruct Hl as [|p l [Hp _] Hl]; [reflexivity|].
  destruct l; cbn [join] in H; [contradiction|].
  destruct p; [contradiction | discriminate].
Qed.

Lemma clean_class_filters (a : list (string * string)) :
  classList (clean_class opts a)
  = filter (fun cls =>
              negb (existsb (pattern_matches cls) classesToRemove)
              || existsb (pattern_matches cls) (keepClasses opts))
           (classList a).
Proof.
  unfold clean_class. destruct (classList a) as [|c cs] eqn:E.
  { now rewrite E. }
  cbv zeta. rewrite <- E. clear c cs E.
  set (kept := filter _ (classList a)).
  assert (Hn : NoDup kept) by (apply NoDup_filter, dedup_NoDup).
  assert (Hk : Forall (fun x => x <> "" /\ every not_space x = true) kept).
  { apply Forall_forall. intros x Hx. apply filter_In in Hx as [Hx _].
    pose proof (classList_ok a) as H. rewrite Forall_forall in H. now apply H. }
  destruct (String.eqb (reflect (setAttribute a "class" (join kept " ")) "class") "")
    eqn:E.
  - unfold reflect in E. rewrite getAttribute_set_same in E.
    apply String.eqb_eq in E. rewrite (@join_empty kept Hk E).
    unfold classList, reflect. now rewrite getAttribute_remove_same.
  - now apply classList_set.
Qed.

End Attributes.

(** X13.  After [cleanAttributes] no element carries a [style] attribute
    or a [data-] attribute other than [data-src], and no element has an
    id that starts with one of the generated prefixes. *)
Theorem cleanAttributes_strips (opts : ContentCleaner.Options) (f : Dom.forest) :
  forallb (Notions.all_elements
             (fun t a =>
                Further.plain_attributes t a &&
                negb (ContentCleaner.generated_id (Dom.reflect a "id"))))
          (ContentCleaner.cleanAttributes opts f) = true.
Proof.
  unfold ContentCleaner.cleanAttributes. rewrite forallb_forall.
  intros x Hx. apply in_map_iff in Hx as [y [<- _]].
  apply all_elements_map_attributes. intros t a.
  now rewrite clean_attributes_plain, clean_attributes_id.
Qed.

(** X14.  [cleanAttributes] leaves an element the classes that match no
    pattern of [classesToRemove] or match one of [keepClasses], in their
    order and without repetition. *)
Theorem cleanAttributes_classes
  (opts : ContentCleaner.Options) (t : string) (a : list (string * string))
  (cs : Dom.forest) :
  ContentCleaner.cleanAttributes opts [Dom.Element t a cs]
  = [Dom.Element t (ContentCleaner.clean_attributes_of opts t a)
                 (ContentCleaner.cleanAttributes opts cs)] /\
  Dom.classList (ContentCleaner.clean_attributes_of opts t a)
  = filter (fun cls =>
              negb (existsb (ContentCleaner.pattern_matches cls)
                            ContentCleaner.classesToRemove)
              || existsb (ContentCleaner.pattern_matches cls)
                         (ContentCleaner.keepClasses opts))
           (Dom.classList a).
Proof.
  split; [reflexivity|].
  rewrite <- clean_class_filters. unfold Dom.classList, Dom.reflect.
  unfold ContentCleaner.clean_attributes_of. cbv zeta.
  now rewrite later_steps_keep by (reflexivity || discriminate).
Qed.

(** X15.  [cleanAttributes] keeps every attribute that is not [class],
    [id], [style] or a [data-] attribute, with its value, and [data-src]
    among them. *)
Theorem cleanAttributes_keeps_others
  (opts : ContentCleaner.Options) (t : string) (a : list (string * string))
  (name : string) :
  ContentCleaner.is_data_attribute name = false ->
  name <> "class" -> name <> "style" -> name <> "id" ->
  Dom.getAttribute (ContentCleaner.clean_attributes_of opts t a) name
  = Dom.getAttribute a name.
Proof.
  intros Hd Hc Hs Hi. unfold ContentCleaner.clean_attributes_of. cbv zeta.
  rewrite later_steps_keep by assumption. now apply clean_class_keeps.
Qed.

Lemma cleanAttributes_keeps_others_witness :
  Dom.getAttribute
    (ContentCleaner.clean_attributes_of ContentCleaner.default_options "img"
       [("class", "wp-image-7"); ("data-id", "7"); ("data-src", "/a.png");
        ("style", "width:1px")])
    "data-src"
  = Some "/a.png".
Proof.
  apply (@cleanAttributes_keeps_others ContentCleaner.default_options "img"
           [("class", "wp-image-7"); ("data-id", "7"); ("data-src", "/a.png");
            ("style", "width:1px")] "data-src");
    [reflexivity | discriminate | discriminate | discriminate].
Defined.

Section Unwrapping.

Import Dom ContentCleaner Further.

Lemma concat_cons (x : string) (l : list string) :
  String.concat "" (x :: l) = (x ++ String.concat "" l)%string.
Proof. destruct l; cbn [String.concat]; [now rewrite append_empty_r | reflexivity]. Qed.

Lemma forest_text_cons (n : node) (f : forest) :
  forest_text (n :: f) = (textContent n ++ forest_text f)%string.
Proof. unfold forest_text. cbn [map]. apply concat_cons. Qed.

Lemma forest_text_app (f g : forest) :
  forest_text (f ++ g) = (forest_text f ++ forest_text g)%string.
Proof.
  induction f as [|n f IH]; [reflexivity|].
  cbn [app]. now rewrite !forest_text_cons, IH, append_assoc.
Qed.

Lemma forest_text_flat_map (g : node -> forest) (f : forest) :
  Forall (fun n => forest_text (g n) = textContent n) f ->
  forest_text (flat_map g f) = forest_text f.
Proof.
  induction 1 as [|n f Hn _ IH]; [reflexivity|].
  cbn [flat_map]. now rewrite forest_text_app, forest_text_cons, Hn, IH.
Qed.

Lemma unwrap_text (p : node -> bool) (n : node) :
  forest_text (unwrap p n) = textContent n.
Proof.
  induction n as [t a cs IH | d | d] using node_induction.
  - cbn [unwrap]. pose proof (forest_text_flat_map (unwrap p) IH) as H.
    destruct (p (Element t a cs)); [exact H|].
    rewrite forest_text_cons. cbn [textContent]. fold (forest_text (flat_map (unwrap p) cs)).
    rewrite H. apply append_empty_r.
  - reflexivity.
  - reflexivity.
Qed.

(** The attributes of the elements with a tag, in document order. *)
Lemma tagged_app (t : string) (l1 l2 : list node) :
  tagged t (l1 ++ l2) = tagged t l1 ++ tagged t l2.
Proof. unfold tagged. now rewrite filter_app, map_app. Qed.

Lemma tagged_flat_map (t : string) (g : node -> forest) (f : forest) :
  Forall (fun n => tagged t (nodes_of (g n)) = tagged t (subtree n)) f ->
  tagged t (nodes_of (flat_map g f)) = tagged t (nodes_of f).
Proof.
  induction 1 as [|n f Hn _ IH]; [reflexivity|].
  cbn [flat_map]. rewrite nodes_of_app, tagged_app, Hn, IH.
  change (nodes_of (n :: f)) with (subtree n ++ nodes_of f).
  now rewrite tagged_app.
Qed.

Lemma unwrap_tagged (p : node -> bool) (t : string) (n : node) :
  (forall m, p m = true -> matches [[Tag t]] m = false) ->
  tagged t (nodes_of (unwrap p n)) = tagged t (subtree n).
Proof.
  intro Hp. induction n as [t' a cs IH | d | d] using node_induction;
    [|reflexivity|reflexivity].
  cbn [unwrap]. pose proof (tagged_flat_map t (unwrap p) IH) as H.
  destruct (p (Element t' a cs)) eqn:E.
  - rewrite H. cbn [subtree]. unfold tagged at 2. cbn [filter].
    rewrite (Hp _ E). reflexivity.
  - unfold nodes_of at 1. cbn [flat_map subtree]. rewrite app_nil_r.
    fold (nodes_of (flat_map (unwrap p) cs)). fold (nodes_of cs).
    unfold tagged in *. cbn [filter].
    change (matches [[Tag t]] (Element t' a (flat_map (unwrap p) cs)))
      with (matches [[Tag t]] (Element t' a cs)).
    destruct (matches [[Tag t]] (Element t' a cs)); cbn [map attributes];
      now rewrite H.
Qed.

Lemma redundant_is_div (opts : Options) (t : string) (m : node) :
  t <> "div" -> redundant_div opts m = true -> matches [[Tag t]] m = false.
Proof.
  intros Ht H. unfold redundant_div in H.
  apply andb_true_iff in H as [H _]. apply andb_true_iff in H as [H _].
  destruct m as [t' a cs | d | d]; try discriminate H.
  cbn in H |- *. rewrite orb_false_r, andb_true_r in *.
  apply String.eqb_eq in H. subst t'. apply String.eqb_neq. congruence.
Qed.

End Unwrapping.

(** X16.  [unwrapDivs] removes [div] elements only, each replaced by its
    children: the text of the content is the same afterwards, and so
    are, for every other tag, the elements with that tag, in document
    order and with their attributes. *)
Theorem unwrapDivs_keeps_content
  (opts : ContentCleaner.Options) (f : Dom.forest) (t : string) :
  t <> "div" ->
  Further.forest_text (ContentCleaner.unwrapDivs opts f) = Further.forest_text f /\
  Further.tagged t (Dom.nodes_of (ContentCleaner.unwrapDivs opts f))
  = Further.tagged t (Dom.nodes_of f).
Proof.
  intro Ht. unfold ContentCleaner.unwrapDivs. split.
  - apply forest_text_flat_map. apply Forall_forall. intros n _.
    apply unwrap_text.
  - apply tagged_flat_map. apply Forall_forall. intros n _.
    apply unwrap_tagged. intros m Hm. now apply (@redundant_is_div opts t m).
Qed.

Lemma unwrapDivs_keeps_content_witness :
  Further.forest_text
    (ContentCleaner.unwrapDivs ContentCleaner.default_options
       [Dom.Element "div" [] [Dom.Element "p" [] [Dom.Text "a"]]])
  = "a".
Proof.
  apply (@unwrapDivs_keeps_content ContentCleaner.default_options
           [Dom.Element "div" [] [Dom.Element "p" [] [Dom.Text "a"]]] "p").
  discriminate.
Defined.

Section Emptying.

Import Dom ContentCleaner Further.

(** What every removal of one tag's empty elements preserves, the whole
    loop preserves. *)
Lemma remove_round_invariant (R : forest -> Prop) (f : forest) :
  (forall tag g, In tag emptyTags -> R g ->
                 R (flat_map (prune (is_empty_element tag)) g)) ->
  R f -> R (fst (remove_round f)).
Proof.
  unfold remove_round. generalize false. generalize emptyTags.
  intro tags. revert f. induction tags as [|tag tags IH]; intros f b H Hf.
  - exact Hf.
  - cbn [fold_left fst snd]. apply IH.
    + intros tag' g Hin. apply H. now right.
    + apply H; [now left | exact Hf].
Qed.

Lemma remove_loop_invariant (R : forest -> Prop) (fuel : nat) (f : forest) :
  (forall tag g, In tag emptyTags -> R g ->
                 R (flat_map (prune (is_empty_element tag)) g)) ->
  R f -> R (remove_loop fuel f).
Proof.
  intro H. revert f. induction fuel as [|fuel IH]; intros f Hf; [exact Hf|].
  cbn [remove_loop]. pose proof (@remove_round_invariant R f H Hf) as Hr.
  destruct (remove_round f) as [f' removed]. cbn [fst] in Hr.
  destruct removed; [now apply IH | exact Hr].
Qed.

Lemma prune_tagged (q : node -> bool) (t : string) (n : node) :
  (forall m, q m = true -> tagged t (subtree m) = []) ->
  tagged t (nodes_of (prune q n)) = tagged t (subtree n).
Proof.
  intro Hq. induction n as [t' a cs IH | d | d] using node_induction.
  - cbn [prune]. destruct (q (Element t' a cs)) eqn:E.
    { now rewrite (Hq _ E). }
    pose proof (tagged_flat_map t (prune q) IH) as H.
    unfold nodes_of at 1. cbn [flat_map subtree]. rewrite app_nil_r.
    fold (nodes_of (flat_map (prune q) cs)). fold (nodes_of cs).
    unfold tagged in *. cbn [filter].
    change (matches [[Tag t]] (Element t' a (flat_map (prune q) cs)))
      with (matches [[Tag t]] (Element t' a cs)).
    destruct (matches [[Tag t]] (Element t' a cs)); cbn [map attributes];
      now rewrite H.
  - cbn [prune]. destruct (q (Text d)) eqn:E; [now rewrite (Hq _ E) | reflexivity].
  - cbn [prune]. destruct (q (Comment d)) eqn:E; [now rewrite (Hq _ E) | reflexivity].
Qed.

Lemma media_tag_not_emptied (t : string) :
  In [Tag t] media -> mem_string t emptyTags = false.
Proof.
  unfold media. cbn [In].
  intro H. repeat (destruct H as [H | H]; [injection H as <-; reflexivity|]).
  destruct H.
Qed.

Lemma mem_string_In (k : string) (l : list string) :
  In k l -> mem_string k l = true.
Proof.
  intro H. unfold mem_string. apply existsb_exists. exists k.
  split; [exact H | apply String.eqb_refl].
Qed.

Lemma media_matches (t : string) (m : node) :
  In [Tag t] media -> matches [[Tag t]] m = true -> matches media m = true.
Proof.
  intros Hin H. unfold matches in *. apply existsb_exists.
  exists [Tag t]. split; [exact Hin|]. cbn [existsb] in H.
  now rewrite orb_false_r in H.
Qed.

Lemma filter_none {A} (g : A -> bool) (l : list A) :
  (forall x, In x l -> g x = false) -> filter g l = [].
Proof.
  induction l as [|x l IH]; intro H; [reflexivity|].
  cbn [filter]. rewrite (H x (or_introl eq_refl)). apply IH.
  intros y Hy. apply H. now right.
Qed.

Lemma empty_element_no_media (tag t : string) (m : node) :
  In tag emptyTags -> In [Tag t] media ->
  is_empty_element tag m = true -> tagged t (subtree m) = [].
Proof.
  intros Htag Ht H. unfold is_empty_element in H.
  apply andb_true_iff in H as [H H3]. apply andb_true_iff in H as [H1 _].
  destruct m as [t' a cs | d | d]; try discriminate H1.
  cbn in H1. rewrite orb_false_r, andb_true_r in H1.
  apply String.eqb_eq in H1. subst t'.
  unfold tagged. rewrite filter_none; [reflexivity|].
  intros x [<- | Hx].
  - cbn. rewrite orb_false_r, andb_true_r. apply String.eqb_neq. intro Heq.
    pose proof (@media_tag_not_emptied t Ht) as Hm. rewrite <- Heq in Hm.
    now rewrite (@mem_string_In tag emptyTags Htag) in Hm.
  - destruct (matches [[Tag t]] x) eqn:E; [|reflexivity].
    apply (@media_matches t x Ht) in E.
    unfold querySelector, querySelectorAll in H3.
    change (descendants (Element tag a cs)) with (flat_map subtree cs) in H3.
    destruct (filter (matches media) (flat_map subtree cs)) as [|y l] eqn:F;
      [|discriminate H3].
    assert (Hin : In x (filter (matches media) (flat_map subtree cs)))
      by (apply filter_In; now split).
    rewrite F in Hin. destruct Hin.
Qed.

(** *** Text *)

Lemma squeeze_app (a b : string) :
  squeeze (a ++ b) = (squeeze a ++ squeeze b)%string.
Proof.
  unfold squeeze. induction a as [|c a IH]; [reflexivity|].
  cbn [append Orchestrator.filter_string].
  destruct (negb (is_space c)); cbn [append]; now rewrite IH.
Qed.

Lemma trim_empty_squeeze (s : string) : trim s = "" -> squeeze s = "".
Proof.
  unfold trim, squeeze. induction s as [|c s IH]; [reflexivity|].
  cbn [trimStart Orchestrator.filter_string].
  destruct (is_space c) eqn:E; cbn [negb]; [exact IH|].
  cbn [trimEnd all_space]. rewrite E. cbn [andb]. discriminate.
Qed.

Lemma squeeze_flat_map (g : node -> forest) (f : forest) :
  Forall (fun n => squeeze (forest_text (g n)) = squeeze (textContent n)) f ->
  squeeze (forest_text (flat_map g f)) = squeeze (forest_text f).
Proof.
  induction 1 as [|n f Hn _ IH]; [reflexivity|].
  cbn [flat_map].
  now rewrite forest_text_app, forest_text_cons, !squeeze_app, Hn, IH.
Qed.

Lemma prune_squeeze (q : node -> bool) (n : node) :
  (forall m, q m = true -> squeeze (textContent m) = "") ->
  squeeze (forest_text (prune q n)) = squeeze (textContent n).
Proof.
  intro Hq. induction n as [t a cs IH | d | d] using node_induction.
  - cbn [prune]. destruct (q (Element t a cs)) eqn:E.
    { now rewrite (Hq _ E). }
    exact (squeeze_flat_map (prune q) IH).
  - cbn [prune]. destruct (q (Text d)) eqn:E; [now rewrite (Hq _ E) | reflexivity].
  - cbn [prune]. destruct (q (Comment d)) eqn:E; reflexivity.
Qed.

Lemma empty_element_no_text (tag : string) (m : node) :
  is_empty_element tag m = true -> squeeze (textContent m) = "".
Proof.
  intro H. unfold is_empty_element in H.
  apply andb_true_iff in H as [H _]. apply andb_true_iff in H as [_ H].
  apply String.eqb_eq in H. now apply trim_empty_squeeze.
Qed.

End Emptying.

(** X17.  [removeEmptyElements] removes nothing that shows: the text of
    the content is the same afterwards up to white space, and so are the
    [img], [iframe], [video], [audio], [canvas] and [svg] elements, in
    document order and with their attributes. *)
Theorem removeEmptyElements_keeps_content (f : Dom.forest) (t : string) :
  In [Dom.Tag t] ContentCleaner.media ->
  Further.squeeze (Further.forest_text (ContentCleaner.removeEmptyElements f))
  = Further.squeeze (Further.forest_text f) /\
  Further.tagged t (Dom.nodes_of (ContentCleaner.removeEmptyElements f))
  = Further.tagged t (Dom.nodes_of f).
Proof.
  intro Ht. unfold ContentCleaner.removeEmptyElements. split.
  - apply (@remove_loop_invariant
             (fun g => Further.squeeze (Further.forest_text g)
                       = Further.squeeze (Further.forest_text f)));
      [|reflexivity].
    intros tag g _ <-. apply squeeze_flat_map, Forall_forall. intros n _.
    apply prune_squeeze. intros m. apply empty_element_no_text.
  - apply (@remove_loop_invariant
             (fun g => Further.tagged t (Dom.nodes_of g)
                       = Further.tagged t (Dom.nodes_of f)));
      [|reflexivity].
    intros tag g Htag <-. apply tagged_flat_map, Forall_forall. intros n _.
    apply prune_tagged. intros m. now apply empty_element_no_media.
Qed.

Lemma removeEmptyElements_keeps_content_witness :
  Further.tagged "img"
    (Dom.nodes_of
       (ContentCleaner.removeEmptyElements
          [Dom.Element "p" [] [Dom.Element "img" [("src", "/a.png")] []];
           Dom.Element "p" [] [Dom.Text " "]]))
  = [[("src", "/a.png")]].
Proof.
  apply (@removeEmptyElements_keeps_content
           [Dom.Element "p" [] [Dom.Element "img" [("src", "/a.png")] []];
            Dom.Element "p" [] [Dom.Text " "]] "img").
  now left.
Defined.

Section Throwing.

Import Dom ContentCleaner Further.

Variable lib : Library.
Variable opts : Options.

Lemma own_get_listed {A} (own : list (string * A)) (k : string) (v : A) :
  own_get own k = Some v -> In k (map fst own).
Proof.
  induction own as [|[k' v'] own IH]; [discriminate|].
  cbn [own_get map fst In]. destruct (String.eqb k k') eqn:E.
  - intros _. left. symmetry. now apply String.eqb_eq.
  - intro H. right. now apply IH.
Qed.

Lemma converter_not_throwing (type : string) (c : node -> option forest) :
  own_get (widgetConverters lib) type = Some c ->
  mem_string type throwing_types = false.
Proof.
  intro H. apply own_get_listed in H.
  change (map fst (widgetConverters lib))
    with ["heading"; "text-editor"; "image"; "video"; "button"; "icon-list";
          "accordion"; "tabs"; "image-gallery"; "image-box"] in H.
  cbn [In] in H.
  repeat (destruct H as [H | H]; [subst type; reflexivity|]).
  destruct H.
Qed.

Lemma inherited_raises (type : string) :
  match inherited_conversion type with
  | Raised msg => msg = "TypeError" /\ mem_string type throwing_types = true
  | _ => mem_string type throwing_types = false
  end.
Proof.
  unfold inherited_conversion, Object_prototype_get, throwing_types, mem_string.
  cbn [existsb].
  destruct (String.eqb type "__proto__") eqn:E1; [now split|].
  destruct (String.eqb type "__defineGetter__") eqn:E2.
  { apply String.eqb_eq in E2. subst type. now split. }
  destruct (String.eqb type "__defineSetter__") eqn:E3.
  { apply String.eqb_eq in E3. subst type. now split. }
  destruct (existsb (String.eqb type) Object_prototype_functions); [|reflexivity].
  rewrite E2, E3. cbn [orb].
  now destruct (String.eqb type "toString" || _).
Qed.

Lemma raises_throwing (n : node) : raises lib n = throwing_widget n.
Proof.
  destruct n as [t a cs | d | d]; [|reflexivity|reflexivity].
  unfold raises, throwing_widget, convertWidget.
  destruct (widget_type (Element t a cs)) as [type|]; [|reflexivity].
  destruct (own_get (widgetConverters lib) type) as [c|] eqn:E.
  - rewrite (@converter_not_throwing type c E).
    now destruct (c (Element t a cs)).
  - pose proof (inherited_raises type) as H.
    destruct (inherited_conversion type); try (now rewrite H).
    now destruct H as [_ ->].
Qed.

Lemma existsb_ext_eq {A} (g h : A -> bool) (l : list A) :
  (forall x, g x = h x) -> existsb g l = existsb h l.
Proof.
  intro H. induction l as [|x l IH]; [reflexivity|].
  cbn [existsb]. now rewrite H, IH.
Qed.

Lemma clean_tree_result (content : forest) :
  match clean_tree lib opts content with
  | Ok _ =>
      existsb throwing_widget (nodes_of (removeUnwantedElements content)) = false
  | Throw msg =>
      msg = "TypeError" /\
      existsb throwing_widget (nodes_of (removeUnwantedElements content)) = true
  end.
Proof.
  unfold clean_tree, convertElementorWidgets.
  rewrite (existsb_ext_eq _ _ _ raises_throwing).
  destruct (existsb throwing_widget (nodes_of (removeUnwantedElements content)));
    cbn [bind]; [now split | reflexivity].
Qed.

End Throwing.

(** X18.  [clean] does not return when, after the removal of the
    unwanted elements, an element is left whose widget type is
    [__proto__], [__defineGetter__] or [__defineSetter__]: the table of
    converters inherits these members, the loop of step 2 takes them for
    converters and the call ends in a [TypeError]. *)
Theorem clean_throws_on_inherited_members
  (lib : Dom.Library) (opts : ContentCleaner.Options) (html : string) :
  html <> "" ->
  existsb Further.throwing_widget
          (Dom.nodes_of
             (ContentCleaner.removeUnwantedElements
                (Dom.parse_content lib html))) = true ->
  exists msg, ContentCleaner.clean lib opts html = Throw msg.
Proof.
  intros Hne Hw. unfold ContentCleaner.clean.
  apply String.eqb_neq in Hne. rewrite Hne.
  pose proof (clean_tree_result lib opts (Dom.parse_content lib html)) as H.
  destruct (ContentCleaner.clean_tree lib opts (Dom.parse_content lib html))
    as [c|msg]; cbn [bind].
  - congruence.
  - now exists msg.
Qed.

Lemma clean_throws_on_inherited_members_witness :
  exists msg,
    ContentCleaner.clean SimpleDom.library ContentCleaner.default_options
      "<div data-widget_type='__proto__.default'>a</div>"
    = Throw msg.
Proof.
  apply clean_throws_on_inherited_members; [discriminate | reflexivity].
Defined.

(** X19.  [semanticize] touches [img] elements only, and on them keeps
    every attribute other than [loading] that is there, with its value:
    an alternative text is never overwritten. *)
Theorem semanticize_keeps_attributes
  (lib : Dom.Library) (t : string) (a : list (string * string))
  (name v : string) :
  name <> "loading" -> Dom.getAttribute a name = Some v ->
  Dom.getAttribute (ContentCleaner.semanticize_of lib t a) name = Some v /\
  (t <> "img" -> ContentCleaner.semanticize_of lib t a = a).
Proof.
  intros Hn Hv. unfold ContentCleaner.semanticize_of.
  destruct (String.eqb t "img") eqn:E.
  2:{ split; [exact Hv | reflexivity]. }
  split; [|intro H; apply String.eqb_eq in E; contradiction].
  assert (H : Dom.getAttribute
                (if String.eqb (Dom.reflect a "alt") ""
                 then Dom.setAttribute a "alt" "" else a) name = Some v).
  { destruct (String.eqb (Dom.reflect a "alt") "") eqn:Ea; [|exact Hv].
    destruct (String.eqb name "alt") eqn:En.
    - apply String.eqb_eq in En. subst name. unfold Dom.reflect in Ea.
      rewrite Hv in Ea. apply String.eqb_eq in Ea. subst v.
      apply getAttribute_set_same.
    - apply String.eqb_neq in En. now rewrite getAttribute_set_other. }
  unfold ContentCleaner.set_loading.
  destruct (Dom.reflects_loading lib); [|exact H].
  now rewrite getAttribute_set_other.
Qed.

Lemma semanticize_keeps_attributes_witness :
  Dom.getAttribute
    (ContentCleaner.semanticize_of SimpleDom.library "img"
       [("src", "/a.png"); ("alt", "A tree")]) "alt"
  = Some "A tree".
Proof.
  apply (@semanticize_keeps_attributes SimpleDom.library "img"
           [("src", "/a.png"); ("alt", "A tree")] "alt" "A tree");
    [discriminate | reflexivity].
Defined.

Section WhiteSpace.

Import ContentCleaner Further.

Lemma take_drop (n : nat) (s : string) : (take n s ++ drop n s)%string = s.
Proof.
  revert s. induction n as [|n IH]; intros [|c s]; try reflexivity.
  cbn [take drop append]. now rewrite IH.
Qed.

Lemma take_next (n : nat) (s : string) (d : ascii) (r : string) :
  drop n s = String d r -> take (S n) s = (take n s ++ String d "")%string.
Proof.
  revert s. induction n as [|n IH]; intros [|c s] H; try discriminate H.
  - cbn [drop] in H. injection H as -> ->. now destruct r.
  - cbn [drop] in H. change (take (S (S n)) (String c s))
      with (String c (take (S n) s)).
    rewrite (IH _ H). reflexivity.
Qed.

Lemma squeeze_space (c : ascii) (s : string) :
  is_space c = true -> squeeze (String c s) = squeeze s.
Proof. intro H. unfold squeeze. cbn [Orchestrator.filter_string]. now rewrite H. Qed.

Lemma squeeze_unit (c : ascii) (s : string) :
  is_space c = false -> squeeze (String c s) = String c (squeeze s).
Proof. intro H. unfold squeeze. cbn [Orchestrator.filter_string]. now rewrite H. Qed.

Lemma space_prefix (n : nat) (s : string) :
  n <= space_run s -> squeeze (take n s) = "".
Proof.
  revert s. induction n as [|n IH]; intros [|c s] H; try reflexivity.
  cbn [space_run] in H. cbn [take].
  destruct (is_space c) eqn:E; [|lia].
  rewrite squeeze_space by exact E. apply IH. lia.
Qed.

Lemma newline_is_space (c : ascii) : is_newline c = true -> is_space c = true.
Proof.
  unfold is_newline. intro H. apply Ascii.eqb_eq in H. now subst c.
Qed.

Lemma newline_run_le (s : string) : newline_run s <= space_run s.
Proof.
  induction s as [|c s IH]; [apply le_n|].
  cbn [newline_run space_run]. destruct (is_newline c) eqn:E; [|lia].
  rewrite newline_is_space by exact E. lia.
Qed.

Lemma last_where_le (p : ascii -> bool) (n : nat) (s : string) :
  fst (last_where p n s) <= n.
Proof.
  revert s. induction n as [|n IH]; intros [|c s]; cbn [last_where fst]; try lia.
  specialize (IH s). destruct (last_where p n s) as [e count]. cbn [fst] in IH.
  destruct (p c), (count =? 0)%nat; cbn [fst]; lia.
Qed.

(** A replacement that gives, for every match, the code units of the
    match that are not white space, changes white space only. *)
Lemma replace_matches_squeeze
  (matcher : option ascii -> string -> option nat) (repl : string) :
  (forall prev s n, matcher prev s = Some (S n) ->
                    squeeze (take (S n) s) = squeeze repl) ->
  forall s prev k,
    squeeze (replace_matches matcher repl prev s k) = squeeze (drop k s).
Proof.
  intro H. induction s as [|c s IH]; intros prev k.
  - now destruct k.
  - cbn [replace_matches]. destruct k as [|k]; [|apply IH].
    cbn [drop]. destruct (matcher prev (String c s)) as [[|n]|] eqn:E.
    + unfold squeeze at 1 2. cbn [Orchestrator.filter_string].
      fold (squeeze (replace_matches matcher repl (Some c) s 0)).
      fold (squeeze s). now rewrite (IH (Some c) 0).
    + rewrite squeeze_app, (IH (Some c) n), <- (H _ _ _ E).
      rewrite <- squeeze_app. change (drop n s) with (drop (S n) (String c s)).
      now rewrite take_drop.
    + unfold squeeze at 1 2. cbn [Orchestrator.filter_string].
      fold (squeeze (replace_matches matcher repl (Some c) s 0)).
      fold (squeeze s). now rewrite (IH (Some c) 0).
Qed.

Lemma replace_regexp_squeeze
  (matcher : option ascii -> string -> option nat) (repl s : string) :
  (forall prev s n, matcher prev s = Some (S n) ->
                    squeeze (take (S n) s) = squeeze repl) ->
  squeeze (replace_regexp matcher repl s) = squeeze s.
Proof.
  intro H. unfold replace_regexp.
  now rewrite (@replace_matches_squeeze matcher repl H).
Qed.

Lemma blank_lines_white (prev : option ascii) (s : string) (n : nat) :
  blank_lines prev s = Some (S n) ->
  squeeze (take (S n) s) = squeeze (newline ++ newline).
Proof.
  unfold blank_lines. destruct s as [|c s]; [discriminate|].
  destruct (is_newline c); [|discriminate].
  pose proof (last_where_le is_newline (space_run (String c s)) (String c s)) as L.
  destruct (last_where is_newline (space_run (String c s)) (String c s))
    as [e count].
  cbn [fst] in L. destruct (3 <=? count)%nat; [|discriminate].
  intro H. injection H as ->. now rewrite space_prefix.
Qed.

Lemma between_tags_white (prev : option ascii) (s : string) (n : nat) :
  between_tags prev s = Some (S n) ->
  squeeze (take (S n) s) = squeeze (">" ++ newline ++ "<").
Proof.
  unfold between_tags. destruct s as [|c s]; [discriminate|].
  destruct (Ascii.eqb c ">") eqn:Ec; [|discriminate].
  apply Ascii.eqb_eq in Ec. subst c.
  destruct (space_run s) as [|k] eqn:Er; [discriminate|].
  destruct (drop (S k) s) as [|d r] eqn:Ed; [discriminate|].
  destruct (Ascii.eqb d "<") eqn:E; [|discriminate].
  apply Ascii.eqb_eq in E. subst d.
  intro H. injection H as <-.
  change (take (S (S (S k))) (String ">" s)) with (String ">" (take (S (S k)) s)).
  rewrite (@take_next _ _ _ _ Ed). rewrite squeeze_unit by reflexivity.
  rewrite squeeze_app, space_prefix by lia. reflexivity.
Qed.

Lemma line_edges_white (prev : option ascii) (s : string) (n : nat) :
  line_edges prev s = Some (S n) -> squeeze (take (S n) s) = squeeze "".
Proof.
  unfold line_edges. destruct (space_run s) as [|run] eqn:Er; [discriminate|].
  destruct (at_line_start prev).
  { intro H. injection H as <-. apply space_prefix. lia. }
  destruct (drop (S run) s).
  { intro H. injection H as <-. apply space_prefix. lia. }
  pose proof (last_where_le is_line_terminator (S run) s) as L.
  destruct (last_where is_line_terminator (S run) s) as [e count].
  cbn [fst] in L. destruct (count =? 0)%nat; [discriminate|].
  intro H. injection H as H. apply space_prefix. lia.
Qed.

Lemma outer_newlines_white (prev : option ascii) (s : string) (n : nat) :
  outer_newlines prev s = Some (S n) -> squeeze (take (S n) s) = squeeze "".
Proof.
  unfold outer_newlines. pose proof (newline_run_le s) as L.
  destruct (newline_run s) as [|run]; [discriminate|].
  destruct prev as [c|].
  - destruct (drop (S run) s); [|discriminate].
    intro H. injection H as <-. now apply space_prefix.
  - intro H. injection H as <-. now apply space_prefix.
Qed.

Lemma all_space_squeeze (s : string) : all_space s = true -> squeeze s = "".
Proof.
  induction s as [|c s IH]; [reflexivity|].
  cbn [all_space]. intro H. apply andb_true_iff in H as [H1 H2].
  rewrite squeeze_space by exact H1. now apply IH.
Qed.

Lemma trimStart_squeeze (s : string) : squeeze (trimStart s) = squeeze s.
Proof.
  induction s as [|c s IH]; [reflexivity|].
  cbn [trimStart]. destruct (is_space c) eqn:E; [|reflexivity].
  now rewrite squeeze_space by exact E.
Qed.

Lemma trimEnd_squeeze (s : string) : squeeze (trimEnd s) = squeeze s.
Proof.
  induction s as [|c s IH]; [reflexivity|].
  cbn [trimEnd]. destruct (all_space (String c s)) eqn:E.
  - symmetry. now apply all_space_squeeze.
  - destruct (is_space c) eqn:Ec.
    + rewrite !squeeze_space by exact Ec. exact IH.
    + rewrite !squeeze_unit by exact Ec. now rewrite IH.
Qed.

End WhiteSpace.

(** X20.  [cleanWhitespace], and the [trim] that follows it in [clean],
    change white space only: the code units of a serialisation that are
    not white space come out the same, in the same order. *)
Theorem cleanWhitespace_only_white_space (html : string) :
  Further.squeeze (ContentCleaner.cleanWhitespace html) = Further.squeeze html /\
  Further.squeeze (trim (ContentCleaner.cleanWhitespace html))
  = Further.squeeze html.
Proof.
  assert (H : Further.squeeze (ContentCleaner.cleanWhitespace html)
              = Further.squeeze html).
  { unfold ContentCleaner.cleanWhitespace.
    rewrite (@replace_regexp_squeeze _ _ _ outer_newlines_white).
    rewrite (@replace_regexp_squeeze _ _ _ line_edges_white).
    rewrite (@replace_regexp_squeeze _ _ _ between_tags_white).
    now rewrite (@replace_regexp_squeeze _ _ _ blank_lines_white). }
  split; [exact H|].
  unfold trim. now rewrite trimEnd_squeeze, trimStart_squeeze.
Qed.

Section Preparing.

Import Orchestrator Further.

Variable options : CliOptions.
Variable w : World.

Lemma yields_ret {A} (Q : A -> Prop) (a : A) : Q a -> yields Q (ret a).
Proof. intros H log log' b [= _ <-]. exact H. Qed.

Lemma yields_throw {A} (Q : A -> Prop) (msg : string) : yields Q (throw msg).
Proof. intros log log' b [=]. Qed.

Lemma yields_lift {A} (r : result A) : yields (fun a => r = Ok a) (lift r).
Proof. intros log log' b [= _ ->]. reflexivity. Qed.

Lemma yields_bind {A B} (P : A -> Prop) (Q : B -> Prop) (c : M A) (k : A -> M B) :
  yields P c -> (forall a, P a -> yields Q (k a)) -> yields Q (mbind c k).
Proof.
  intros Hc Hk log log' b. unfold mbind.
  destruct (c log) as [log1 [a|msg]] eqn:E; [|discriminate].
  intro H. exact (Hk a (Hc _ _ _ E) _ _ _ H).
Qed.

Lemma yields_any {A} (c : M A) : yields (fun _ => True) c.
Proof. intros log log' a _. exact I. Qed.

Lemma prepare_yields : yields (prepared_from w) (prepare options w).
Proof.
  unfold prepare. destruct (inputFile options) as [input|];
    [|apply yields_throw].
  destruct (String.eqb input ""); [apply yields_throw|].
  destruct (negb (inputExists w)); [apply yields_throw|].
  eapply yields_bind; [apply yields_any | intros _ _].
  eapply yields_bind; [apply yields_any | intros _ _].
  eapply yields_bind; [apply yields_lift | intros d Hd].
  eapply yields_bind; [apply yields_any | intros m _].
  eapply yields_bind; [apply yields_lift | intros fromPages H1].
  eapply yields_bind; [apply yields_lift | intros fromPosts H2].
  destruct (fold_left assign_menu (menus d) (fromPages ++ fromPosts, []))
    as [docs secs] eqn:E.
  apply yields_ret. split; [exact Hd|].
  exists fromPages, fromPosts. cbn [data migrator documents sections].
  now repeat split.
Qed.

(** *** Documents *)

Lemma substring0_length (n : nat) (s : string) :
  String.length (substring0 n s) <= n.
Proof.
  revert s. induction n as [|n IH]; intros [|c s]; cbn [substring0 String.length];
    try lia.
  specialize (IH s). lia.
Qed.

Lemma toDocuments_fields (m : option Migrator) (news : bool) (l : list WpPage)
  (ds : list PageDocument) :
  toDocuments w m news l = Ok ds ->
  map doc_slug ds = map slug l /\ map doc_title ds = map title l /\
  Forall (fun d => String.length (metaDescription d) <= 160) ds.
Proof.
  revert ds. induction l as [|page l IH]; intros ds H.
  - injection H as <-. repeat split. constructor.
  - cbn [toDocuments] in H. unfold toDocument in H.
    destruct (clean w (content page)) as [c|]; [|discriminate H].
    destruct (clean w (excerpt page)) as [e|]; [|discriminate H].
    cbn [bind] in H.
    destruct (toDocuments w m news l) as [ds'|]; [|discriminate H].
    cbn [bind] in H. injection H as <-.
    destruct (IH ds' eq_refl) as (I1 & I2 & I3).
    cbn [map doc_slug doc_title]. rewrite I1, I2.
    repeat split. constructor; [|exact I3].
    exact (substring0_length 160 e).
Qed.

Lemma assign_first_map {B} (g : PageDocument -> B) menuName item docs :
  (forall p, g (assigned menuName item p) = g p) ->
  map g (assign_first menuName item docs) = map g docs.
Proof.
  intro H. induction docs as [|p docs IH]; [reflexivity|].
  cbn [assign_first].
  destruct (String.eqb (doc_slug p) (strip_slashes (item_url item))
            || String.eqb (doc_title p) (item_title item)); cbn [map].
  - now rewrite H.
  - now rewrite IH.
Qed.

Lemma assign_items_map {B} (g : PageDocument -> B) menuName items docs :
  (forall item p, g (assigned menuName item p) = g p) ->
  map g (fold_left (assign_item menuName) items docs) = map g docs.
Proof.
  intro H. revert docs. induction items as [|item items IH]; intro docs;
    [reflexivity|].
  cbn [fold_left]. rewrite IH. unfold assign_item.
  destruct (String.eqb (objectType item) "page"); [|reflexivity].
  apply assign_first_map. apply H.
Qed.

(** The menus change the section and the order of a document, nothing
    else. *)
Lemma assign_menus_map {B} (g : PageDocument -> B) menus acc :
  (forall menuName item p, g (assigned menuName item p) = g p) ->
  map g (fst (fold_left assign_menu menus acc)) = map g (fst acc).
Proof.
  intro H. revert acc. induction menus as [|menu menus IH]; intro acc;
    [reflexivity|].
  cbn [fold_left]. rewrite IH. unfold assign_menu.
  destruct (snd menu) as [|item items]; [reflexivity|].
  cbn [fst]. apply assign_items_map. intros. apply H.
Qed.

Lemma assign_menus_sections menus acc :
  let r := snd (fold_left assign_menu menus acc) in
  let named := filter has_items menus in
  map section_title r = map section_title (snd acc) ++ map fst named /\
  map section_id r
  = map section_id (snd acc) ++ map (fun menu => slugify (fst menu)) named /\
  map section_order r
  = map section_order (snd acc)
    ++ seq (List.length (snd acc)) (List.length named) /\
  (forallb visible (snd acc) = true -> forallb visible r = true).
Proof.
  revert acc. induction menus as [|menu menus IH]; intro acc; cbv zeta.
  - cbn [fold_left filter map List.length seq]. rewrite !app_nil_r. now repeat split.
  - cbn [fold_left filter]. specialize (IH (assign_menu acc menu)).
    cbv zeta in IH. destruct IH as (I1 & I2 & I3 & I4).
    unfold assign_menu, has_items in *.
    destruct (snd menu) as [|item items].
    + now repeat split.
    + cbn [snd] in *. rewrite I1, I2, I3.
      rewrite !map_app, <- !app_assoc, length_app. cbn [map List.length seq app
        section_title section_id section_order].
      rewrite Nat.add_1_r. repeat split.
      intro Hv. apply I4. now rewrite forallb_app, Hv.
Qed.

End Preparing.

(** X21.  When stages 1 to 3 complete, the menu sections of the report
    are the menus of the export that have items, in their order: titled
    by the menu name, identified by its slug, numbered from 0 without a
    gap, and visible. *)
Theorem menu_sections_from_menus
  (options : Orchestrator.CliOptions) (w : Orchestrator.World)
  (log log' : list Orchestrator.event) (p : Orchestrator.Prepared) :
  Orchestrator.prepare options w log = (log', Ok p) ->
  let named := filter Further.has_items
                      (Orchestrator.menus (Orchestrator.data p)) in
  Orchestrator.parse w = Ok (Orchestrator.data p) /\
  map Orchestrator.section_title (Orchestrator.sections p) = map fst named /\
  map Orchestrator.section_id (Orchestrator.sections p)
  = map (fun menu => Orchestrator.slugify (fst menu)) named /\
  map Orchestrator.section_order (Orchestrator.sections p)
  = seq 0 (List.length (Orchestrator.sections p)) /\
  forallb Orchestrator.visible (Orchestrator.sections p) = true.
Proof.
  intros H named. destruct (@prepare_yields options w _ _ _ H) as (Hd & fp & fq & _ & _ & E).
  split; [exact Hd|].
  pose proof (assign_menus_sections
                (Orchestrator.menus (Orchestrator.data p)) (fp ++ fq, [])) as A.
  cbv zeta in A. rewrite E in A. cbn [snd map app List.length] in A.
  destruct A as (A1 & A2 & A3 & A4).
  split; [exact A1|]. split; [exact A2|]. split; [|now apply A4].
  rewrite A3. f_equal.
  rewrite <- (length_map Orchestrator.section_title (Orchestrator.sections p)), A1.
  now rewrite length_map.
Qed.

Lemma menu_sections_from_menus_witness :
  exists p,
    map Orchestrator.section_id (Orchestrator.sections p) = ["main-menu"] /\
    map Orchestrator.section_order (Orchestrator.sections p) = [0].
Proof.
  destruct (Orchestrator.prepare (Notions.command_line true false false)
              Notions.no_credentials []) as [log [p|msg]] eqn:E;
    [|vm_compute in E; discriminate E].
  exists p.
  destruct (@menu_sections_from_menus _ _ _ _ _ E) as (Hd & _ & H2 & H3 & _).
  injection Hd as Hd. rewrite <- Hd in H2. rewrite H2, H3.
  assert (L : List.length (map Orchestrator.section_id (Orchestrator.sections p)) = 1)
    by now rewrite H2.
  rewrite length_map in L. rewrite L. split; reflexivity.
Defined.

(** X22.  When stages 1 to 3 complete, there is one document per page
    and per post of the export, pages first, each with the slug and the
    title of its source; no meta description is longer than 160 code
    units; and the count the report gives as [pages] is the number of
    pages and posts together. *)
Theorem documents_from_pages_and_posts
  (options : Orchestrator.CliOptions) (w : Orchestrator.World)
  (log log' : list Orchestrator.event) (p : Orchestrator.Prepared) :
  Orchestrator.prepare options w log = (log', Ok p) ->
  let d := Orchestrator.data p in
  Orchestrator.parse w = Ok d /\
  map Orchestrator.doc_slug (Orchestrator.documents p)
  = map Orchestrator.slug (Orchestrator.pages d ++ Orchestrator.posts d) /\
  map Orchestrator.doc_title (Orchestrator.documents p)
  = map Orchestrator.title (Orchestrator.pages d ++ Orchestrator.posts d) /\
  Forall (fun doc => String.length (Orchestrator.metaDescription doc) <= 160)
         (Orchestrator.documents p) /\
  Orchestrator.stats_pages (Orchestrator.report_of options w p)
  = List.length (Orchestrator.pages d) + List.length (Orchestrator.posts d).
Proof.
  intros H d. destruct (@prepare_yields options w _ _ _ H) as (Hd & fp & fq & H1 & H2 & E).
  split; [exact Hd|].
  apply toDocuments_fields in H1 as (S1 & T1 & M1).
  apply toDocuments_fields in H2 as (S2 & T2 & M2).
  assert (F : fst (fold_left Orchestrator.assign_menu
                     (Orchestrator.menus (Orchestrator.data p)) (fp ++ fq, []))
              = Orchestrator.documents p) by now rewrite E.
  assert (HS : map Orchestrator.doc_slug (Orchestrator.documents p)
               = map Orchestrator.slug (Orchestrator.pages d ++ Orchestrator.posts d)).
  { rewrite <- F, assign_menus_map by reflexivity.
    cbn [fst]. now rewrite !map_app, S1, S2. }
  split; [exact HS|]. split; [|split].
  - rewrite <- F, assign_menus_map by reflexivity.
    cbn [fst]. now rewrite !map_app, T1, T2.
  - assert (HM : map Orchestrator.metaDescription (Orchestrator.documents p)
                 = map Orchestrator.metaDescription (fp ++ fq)).
    { rewrite <- F. now rewrite assign_menus_map by reflexivity. }
    assert (HF : Forall (fun s => String.length s <= 160)
                        (map Orchestrator.metaDescription (Orchestrator.documents p))).
    { rewrite HM. apply Forall_map, Forall_app. now split. }
    now apply Forall_map in HF.
  - cbn [Orchestrator.report_of Orchestrator.stats_pages].
    rewrite <- (length_map Orchestrator.doc_slug), HS, length_map.
    apply length_app.
Qed.

Lemma documents_from_pages_and_posts_witness :
  exists p,
    map Orchestrator.doc_slug (Orchestrator.documents p) = ["about-us"].
Proof.
  destruct (Orchestrator.prepare (Notions.command_line true false false)
              Notions.no_credentials []) as [log [p|msg]] eqn:E;
    [|vm_compute in E; discriminate E].
  exists p.
  destruct (@documents_from_pages_and_posts _ _ _ _ _ E) as (Hd & H1 & _).
  injection Hd as Hd. rewrite <- Hd in H1. exact H1.
Defined.

Section CommandLine.

Import Cli Further.

Lemma chosen_input_flag (arg : string) (rest : list string) :
  positional arg = false -> chosen_input (arg :: rest) = chosen_input rest.
Proof.
  intro H. unfold chosen_input. cbn [find existsb]. now rewrite H.
Qed.

Lemma mem_string_cons (k arg : string) (rest : list string) :
  mem_string k (arg :: rest) = String.eqb arg k || mem_string k rest.
Proof. unfold mem_string. cbn [existsb]. now rewrite String.eqb_sym. Qed.

Ltac settle :=
  cbn; f_equal;
  rewrite ?orb_true_r, ?orb_false_r, ?orb_true_l, ?orb_false_l;
  try reflexivity.

Lemma flagged_cons (arg : string) (rest : list string) (o : Parsed) :
  plain_flag arg = true ->
  flagged (arg :: rest) o
  = flagged rest
      (if String.eqb arg "--dry-run" then with_dryRun o
       else if String.eqb arg "--download-media" then with_downloadMedia o
       else if String.eqb arg "--upload-media" then with_uploadMedia o
       else if String.eqb arg "--verbose" || String.eqb arg "-v"
       then with_verbose o
       else if negb (startsWith arg "-") && no_input o
       then with_inputFile o arg
       else o).
Proof.
  intro Hp. unfold flagged. rewrite !mem_string_cons.
  destruct (String.eqb arg "--dry-run") eqn:E1.
  { apply String.eqb_eq in E1. subst arg.
    rewrite chosen_input_flag by reflexivity.
    settle. }
  destruct (String.eqb arg "--download-media") eqn:E2.
  { apply String.eqb_eq in E2. subst arg.
    rewrite chosen_input_flag by reflexivity.
    settle. }
  destruct (String.eqb arg "--upload-media") eqn:E3.
  { apply String.eqb_eq in E3. subst arg.
    rewrite chosen_input_flag by reflexivity.
    settle. }
  destruct (String.eqb arg "--verbose") eqn:E4.
  { apply String.eqb_eq in E4. subst arg.
    rewrite chosen_input_flag by reflexivity.
    settle. }
  destruct (String.eqb arg "-v") eqn:E5.
  { apply String.eqb_eq in E5. subst arg.
    rewrite chosen_input_flag by reflexivity.
    settle. }
  cbn [orb]. fold (positional arg).
  destruct (positional arg) eqn:Ea.
  - destruct (no_input o) eqn:En; cbn [andb].
    + unfold no_input at 1. cbn [inputFile with_inputFile dryRun downloadMedia
        uploadMedia verbose outputDir].
      unfold chosen_input. cbn [find existsb]. rewrite Ea. cbn [andb orb].
      destruct (String.eqb arg "") eqn:E0; cbn [negb].
      * apply String.eqb_eq in E0. subst arg.
        destruct (find _ rest); [reflexivity|].
        now destruct (existsb positional rest).
      * reflexivity.
    + rewrite En. reflexivity.
  - cbn [andb]. now rewrite chosen_input_flag by exact Ea.
Qed.

Lemma parse_from_flagged (args : list string) (o : Parsed) :
  forallb plain_flag args = true -> parse_from args o = Some (flagged args o).
Proof.
  revert o. induction args as [|arg rest IH]; intros o H.
  - unfold flagged, chosen_input, mem_string. cbn [find existsb parse_from].
    rewrite !orb_false_r. destruct o as [i ? ? ? ? ?].
    cbn. now destruct (no_input _).
  - cbn [forallb] in H. apply andb_true_iff in H as [Hp Hr].
    rewrite (@flagged_cons arg rest o Hp). cbn [parse_from].
    unfold plain_flag, mem_string in Hp. cbn [existsb] in Hp.
    rewrite orb_false_r in Hp. apply negb_true_iff in Hp.
    rewrite !(String.eqb_sym arg) in *.
    apply orb_false_iff in Hp as [H1 Hp]. apply orb_false_iff in Hp as [H2 Hp].
    apply orb_false_iff in Hp as [H3 H4].
    rewrite H1, H2, H3, H4. cbn [orb].
    repeat match goal with
           | |- context [if ?b then _ else _] => destruct b; [now apply IH|]
           end.
    now apply IH.
Qed.

End CommandLine.

(** X24.  For a command line without [--output], [-o], [--help] and
    [-h], [parseArgs] does not depend on the order of the arguments
    except among the files: each flag is set when it occurs anywhere,
    the input file is the first argument without a leading hyphen that
    is not empty, arguments it does not know are ignored, and the output
    directory is the default. *)
Theorem parseArgs_flags (args : list string) :
  forallb Further.plain_flag args = true ->
  Cli.parseArgs args
  = Some {| Cli.inputFile := Further.chosen_input args;
            Cli.dryRun := mem_string "--dry-run" args;
            Cli.downloadMedia := mem_string "--download-media" args;
            Cli.uploadMedia := mem_string "--upload-media" args;
            Cli.verbose := mem_string "--verbose" args || mem_string "-v" args;
            Cli.outputDir := Some "./migration/output" |}.
Proof.
  intro H. unfold Cli.parseArgs. rewrite (@parse_from_flagged args Cli.initial H).
  unfold Further.flagged. cbn. now destruct (Further.chosen_input args).
Qed.

Lemma parseArgs_flags_witness :
  Cli.parseArgs ["--verbose"; "export.xml"; "--dry-run"; "other.xml"]
  = Some {| Cli.inputFile := Some "export.xml";
            Cli.dryRun := true;
            Cli.downloadMedia := false;
            Cli.uploadMedia := false;
            Cli.verbose := true;
            Cli.outputDir := Some "./migration/output" |}.
Proof.
  apply (@parseArgs_flags ["--verbose"; "export.xml"; "--dry-run"; "other.xml"]).
  reflexivity.
Defined.

Section Batches.

Import Orchestrator Further.

Variable options : CliOptions.
Variable w : World.
Hypothesis succeed : commits_succeed w.

Lemma commit_batch_ok (e : event) (log : list event) :
  commit_batch w e log = (log ++ [e], Ok tt).
Proof. unfold commit_batch. now rewrite succeed. Qed.

Lemma for_each_commit_ok {A} (g : A -> event) (l : list A) (log : list event) :
  for_each l (fun x => commit_batch w (g x)) log = (log ++ map g l, Ok tt).
Proof.
  revert log. induction l as [|x l IH]; intro log.
  - cbn [for_each map]. unfold ret. now rewrite app_nil_r.
  - cbn [for_each map]. unfold mbind. rewrite commit_batch_ok, IH.
    now rewrite <- app_assoc.
Qed.

End Batches.

(** X23.  In a run that is not dry and uploads no media, when every
    commit succeeds: stage 5 commits the menu sections in one batch, if
    there are any, and then the page documents in their order, in
    batches of at most 500 of which none is empty; every document is
    written once. *)
Theorem firestore_page_batches
  (options : Orchestrator.CliOptions) (w : Orchestrator.World)
  (p : Orchestrator.Prepared) (log : list Orchestrator.event) :
  Further.commits_succeed w ->
  Orchestrator.uploadMedia options = false ->
  let batches := MediaMigrator.chunk (Orchestrator.documents p)
                                     Orchestrator.maxBatchSize in
  Orchestrator.writeToFirestore options w p log
  = (log
     ++ match Orchestrator.sections p with
        | [] => []
        | secs => [Orchestrator.CommitSections secs]
        end
     ++ map Orchestrator.CommitPages batches,
     Ok tt) /\
  List.concat batches = Orchestrator.documents p /\
  Forall (fun b => 0 < List.length b <= 500) batches.
Proof.
  intros Hs Hu batches. split; [|split].
  - unfold Orchestrator.writeToFirestore. rewrite Hu.
    unfold Orchestrator.mbind at 1.
    assert (E : (match Orchestrator.sections p with
                 | [] => Orchestrator.ret tt
                 | secs => Orchestrator.commit_batch w
                             (Orchestrator.CommitSections secs)
                 end) log
                = (log ++ match Orchestrator.sections p with
                          | [] => []
                          | secs => [Orchestrator.CommitSections secs]
                          end, Ok tt)).
    { destruct (Orchestrator.sections p).
      - unfold Orchestrator.ret. now rewrite app_nil_r.
      - now apply commit_batch_ok. }
    rewrite E. unfold Orchestrator.mbind.
    rewrite (@for_each_commit_ok w Hs _ (fun b => Orchestrator.CommitPages b)).
    rewrite <- app_assoc.
    now destruct (Orchestrator.migrator p).
  - apply chunk_concat. unfold Orchestrator.maxBatchSize. lia.
  - unfold batches, MediaMigrator.chunk.
    apply chunk_go_shape; [unfold Orchestrator.maxBatchSize; lia | apply le_n].
Qed.

Lemma firestore_page_batches_witness :
  exists p log,
    Orchestrator.prepare (Notions.command_line true false false)
      Notions.no_credentials [] = (log, Ok p) /\
    Orchestrator.writeToFirestore (Notions.command_line true false false)
      Notions.no_credentials p []
    = ([Orchestrator.CommitSections (Orchestrator.sections p);
        Orchestrator.CommitPages (Orchestrator.documents p)], Ok tt).
Proof.
  eexists. eexists. split; [vm_compute; reflexivity|].
  apply (@firestore_page_batches (Notions.command_line true false false)
           Notions.no_credentials);
    [intro n; reflexivity | reflexivity].
Defined.

Section Sections.

Import Orchestrator Further.

Variable w : World.

Lemma section_known_more (secs more : list MenuSection) (d : PageDocument) :
  section_known secs d -> section_known (secs ++ more) d.
Proof.
  unfold section_known. destruct (menuSection d) as [s|]; [|auto].
  intros [H | H]; [now left | right].
  rewrite map_app. apply in_or_app. now left.
Qed.

Lemma toDocuments_section (m : option Migrator) (news : bool) (l : list WpPage)
  (ds : list PageDocument) :
  toDocuments w m news l = Ok ds -> Forall (section_known []) ds.
Proof.
  revert ds. induction l as [|page l IH]; intros ds H.
  - injection H as <-. constructor.
  - cbn [toDocuments] in H. unfold toDocument in H.
    destruct (clean w (content page)) as [c|]; [|discriminate H].
    destruct (clean w (excerpt page)) as [e|]; [|discriminate H].
    cbn [bind] in H.
    destruct (toDocuments w m news l) as [ds'|]; [|discriminate H].
    cbn [bind] in H. injection H as <-.
    constructor; [|now apply IH].
    unfold section_known. cbn [menuSection]. destruct news; [now left | exact I].
Qed.

Lemma assign_first_known secs menuName item docs :
  In (slugify menuName) (map section_id secs) ->
  Forall (section_known secs) docs ->
  Forall (section_known secs) (assign_first menuName item docs).
Proof.
  intros Hin. induction 1 as [|p docs Hp Hd IH]; [constructor|].
  cbn [assign_first].
  destruct (String.eqb (doc_slug p) (strip_slashes (item_url item))
            || String.eqb (doc_title p) (item_title item)).
  - constructor; [|exact Hd]. unfold section_known. cbn [menuSection assigned].
    now right.
  - now constructor.
Qed.

Lemma assign_items_known secs menuName items docs :
  In (slugify menuName) (map section_id secs) ->
  Forall (section_known secs) docs ->
  Forall (section_known secs) (fold_left (assign_item menuName) items docs).
Proof.
  intro Hin. revert docs. induction items as [|item items IH]; intros docs H;
    [exact H|].
  cbn [fold_left]. apply IH. unfold assign_item.
  destruct (String.eqb (objectType item) "page"); [|exact H].
  now apply assign_first_known.
Qed.

Lemma assign_menus_known menus acc :
  Forall (section_known (snd acc)) (fst acc) ->
  Forall (section_known (snd (fold_left assign_menu menus acc)))
         (fst (fold_left assign_menu menus acc)).
Proof.
  revert acc. induction menus as [|menu menus IH]; intros acc H; [exact H|].
  cbn [fold_left]. apply IH. unfold assign_menu.
  destruct (snd menu) as [|item items]; [exact H|].
  cbn [fst snd]. apply assign_items_known.
  - rewrite map_app. apply in_or_app. right. now left.
  - apply Forall_forall. intros d Hd. apply section_known_more.
    rewrite Forall_forall in H. now apply H.
Qed.

End Sections.

(** X25.  When stages 1 to 3 complete, every document belongs to no
    section, or to a section of the report, named by its id, or to
    [news]; for [news], which every post is given, the run makes no
    section of its own. *)
Theorem documents_name_known_sections
  (options : Orchestrator.CliOptions) (w : Orchestrator.World)
  (log log' : list Orchestrator.event) (p : Orchestrator.Prepared) :
  Orchestrator.prepare options w log = (log', Ok p) ->
  Forall (Further.section_known (Orchestrator.sections p))
         (Orchestrator.documents p).
Proof.
  intro H. destruct (@prepare_yields options w _ _ _ H)
    as (_ & fp & fq & H1 & H2 & E).
  pose proof (@assign_menus_known
                (Orchestrator.menus (Orchestrator.data p)) (fp ++ fq, [])) as A.
  rewrite E in A. cbn [fst snd] in A. apply A.
  apply Forall_app. split; eapply toDocuments_section; eassumption.
Qed.

Lemma documents_name_known_sections_witness :
  exists p,
    Forall (Further.section_known (Orchestrator.sections p))
           (Orchestrator.documents p) /\
    map Orchestrator.menuSection (Orchestrator.documents p) = [Some "main-menu"].
Proof.
  destruct (Orchestrator.prepare (Notions.command_line true false false)
              Notions.no_credentials []) as [log [p|msg]] eqn:E;
    [|vm_compute in E; discriminate E].
  exists p. split.
  - exact (@documents_name_known_sections _ _ _ _ _ E).
  - vm_compute in E. injection E as _ <-. reflexivity.
Defined.

Section Pipeline.

Import Dom ContentCleaner Further Notions.

Variable lib : Library.
Variable opts : Options.

Lemma unwrap_removes (p : node -> bool) (n m : node) :
  shallow p -> (forall x, is_element x = false -> p x = false) ->
  In m (nodes_of (unwrap p n)) -> p m = false.
Proof.
  intros Hp He. revert m.
  induction n as [t a cs IH | d | d] using node_induction; intros m Hin.
  - cbn [unwrap] in Hin.
    assert (Hcs : forall x, In x (nodes_of (flat_map (unwrap p) cs)) -> p x = false).
    { intros x Hx. apply in_flat_map in Hx as [y [Hy Hx]].
      apply in_flat_map in Hy as [c [Hc Hy]].
      rewrite Forall_forall in IH. apply (IH c Hc).
      apply in_flat_map. now exists y. }
    destruct (p (Element t a cs)) eqn:E; [now apply Hcs|].
    unfold nodes_of in Hin. cbn [flat_map subtree] in Hin.
    rewrite app_nil_r in Hin. destruct Hin as [<- | Hin].
    + now rewrite (Hp t a _ cs).
    + now apply Hcs.
  - destruct Hin as [<- | []]. now apply He.
  - destruct Hin as [<- | []]. now apply He.
Qed.

Lemma containers_shallow : shallow (matches elementor_containers).
Proof. intros t a cs cs'. reflexivity. Qed.

Lemma containers_elements (x : node) :
  is_element x = false -> matches elementor_containers x = false.
Proof. destruct x; [discriminate | reflexivity | reflexivity]. Qed.

(** *** Attributes through the later steps *)

Lemma all_elements_map_preserved P g n :
  (forall t a, P t a = true -> P t (g t a) = true) ->
  all_elements P n = true -> all_elements P (map_attributes g n) = true.
Proof.
  intro H. induction n as [t a cs IH | d | d] using node_induction;
    [|reflexivity|reflexivity].
  cbn [all_elements map_attributes]. intro Hn.
  apply andb_true_iff in Hn as [H1 H2]. rewrite (H _ _ H1). cbn [andb].
  rewrite forallb_forall. intros x Hx. apply in_map_iff in Hx as [y [<- Hy]].
  rewrite Forall_forall in IH. rewrite forallb_forall in H2.
  apply (IH y Hy). now apply H2.
Qed.

Lemma forest_map_preserved P g f :
  (forall t a, P t a = true -> P t (g t a) = true) ->
  forallb (all_elements P) f = true ->
  forallb (all_elements P) (map (map_attributes g) f) = true.
Proof.
  intros H Hf. rewrite forallb_forall in *. intros x Hx.
  apply in_map_iff in Hx as [y [<- Hy]].
  apply all_elements_map_preserved; [exact H | now apply Hf].
Qed.

Lemma setAttribute_names (q : string -> bool) a k v :
  forallb (fun kv => q (fst kv)) a = true -> q k = true ->
  forallb (fun kv => q (fst kv)) (setAttribute a k v) = true.
Proof.
  intros Ha Hk. induction a as [|[k' v'] a IH]; cbn [setAttribute forallb fst].
  - now rewrite Hk.
  - cbn [forallb fst] in Ha. apply andb_true_iff in Ha as [H1 H2].
    destruct (String.eqb k k'); cbn [forallb fst]; rewrite H1; cbn [andb];
      [exact H2 | now apply IH].
Qed.

Lemma setAttribute_stripped t a k v :
  presentational k = false -> k <> "id" ->
  stripped t a = true -> stripped t (setAttribute a k v) = true.
Proof.
  intros Hk Hi H. unfold stripped in *. apply andb_true_iff in H as [H1 H2].
  apply andb_true_iff. split.
  - unfold plain_attributes in *.
    apply (setAttribute_names (fun name => negb (presentational name)));
      [exact H1 | now rewrite Hk].
  - unfold reflect in *. rewrite getAttribute_set_other; [exact H2|].
    congruence.
Qed.

Lemma fix_urls_stripped t a :
  stripped t a = true -> stripped t (fix_urls_of lib opts t a) = true.
Proof.
  intro H. unfold fix_urls_of.
  destruct (String.eqb t "a" && hasAttribute a "href").
  { apply setAttribute_stripped; [reflexivity | discriminate | exact H]. }
  destruct (String.eqb t "img" && hasAttribute a "src"); [|exact H].
  assert (H' : stripped t (setAttribute a "src"
                             (convertUrl opts (reflect_url lib a "src"))) = true)
    by (apply setAttribute_stripped; [reflexivity | discriminate | exact H]).
  destruct (getAttribute _ "data-src") as [d|]; [|exact H'].
  destruct (String.eqb d ""); [exact H'|].
  apply setAttribute_stripped; [reflexivity | discriminate | exact H'].
Qed.

Lemma semanticize_stripped t a :
  stripped t a = true -> stripped t (semanticize_of lib t a) = true.
Proof.
  intro H. unfold semanticize_of. destruct (String.eqb t "img"); [|exact H].
  assert (H' : stripped t (if String.eqb (reflect a "alt") ""
                           then setAttribute a "alt" "" else a) = true).
  { destruct (String.eqb (reflect a "alt") ""); [|exact H].
    apply setAttribute_stripped; [reflexivity | discriminate | exact H]. }
  unfold set_loading. destruct (reflects_loading lib); [|exact H'].
  apply setAttribute_stripped; [reflexivity | discriminate | exact H'].
Qed.

Lemma cleanAttributes_stripped f :
  forallb (all_elements stripped) (cleanAttributes opts f) = true.
Proof.
  unfold cleanAttributes. rewrite forallb_forall.
  intros x Hx. apply in_map_iff in Hx as [y [<- _]].
  apply all_elements_map_attributes. intros t a. unfold stripped.
  now rewrite clean_attributes_plain, clean_attributes_id.
Qed.

End Pipeline.

(** X26.  When the widget conversion of step 2 returns, no element of
    the content has one of the Elementor container classes
    [elementor-section], [elementor-column] and [elementor-widget-wrap],
    at any depth, also not inside what a converter has produced. *)
Theorem convertElementorWidgets_unwraps_containers
  (lib : Dom.Library) (f c : Dom.forest) (m : Dom.node) :
  ContentCleaner.convertElementorWidgets lib f = Ok c ->
  In m (Dom.nodes_of c) ->
  Dom.matches ContentCleaner.elementor_containers m = false.
Proof.
  unfold ContentCleaner.convertElementorWidgets.
  destruct (existsb _ _); [discriminate|]. intros [= <-] Hin.
  apply in_flat_map in Hin as [x [Hx Hm]].
  apply in_flat_map in Hx as [n [Hn Hx]].
  apply (@unwrap_removes (Dom.matches ContentCleaner.elementor_containers) n m
           containers_shallow containers_elements).
  apply in_flat_map. now exists x.
Qed.

Lemma convertElementorWidgets_unwraps_containers_witness :
  Dom.matches ContentCleaner.elementor_containers
    (Dom.Element "p" [] [Dom.Text "a"]) = false.
Proof.
  apply (@convertElementorWidgets_unwraps_containers SimpleDom.library
           [Dom.Element "div" [("class", "elementor-section")]
              [Dom.Element "p" [] [Dom.Text "a"]]]
           [Dom.Element "p" [] [Dom.Text "a"]]);
    [reflexivity | now left].
Defined.

(** X27.  What steps 1 to 7 of [clean] hand to the serialisation has no
    [style] attribute, no [data-] attribute other than [data-src] and no
    generated id on any element: the later steps set [href], [src],
    [data-src], [alt] and [loading] only, and remove elements. *)
Theorem cleaned_tree_is_stripped
  (lib : Dom.Library) (opts : ContentCleaner.Options) (content c : Dom.forest) :
  ContentCleaner.clean_tree lib opts content = Ok c ->
  forallb (Notions.all_elements Further.stripped) c = true.
Proof.
  unfold ContentCleaner.clean_tree.
  destruct (ContentCleaner.convertElementorWidgets lib _) as [c2|];
    [|discriminate].
  cbn [bind]. intros [= <-].
  pose proof (cleanAttributes_stripped opts (ContentCleaner.unwrapDivs opts c2))
    as H4.
  assert (H5 : forallb (Notions.all_elements Further.stripped)
                 (ContentCleaner.fixUrls lib opts
                    (ContentCleaner.cleanAttributes opts
                       (ContentCleaner.unwrapDivs opts c2))) = true).
  { unfold ContentCleaner.fixUrls.
    destruct (String.eqb _ "" || String.eqb _ ""); [exact H4|].
    apply forest_map_preserved; [apply fix_urls_stripped | exact H4]. }
  set (c5 := ContentCleaner.fixUrls lib opts _) in *.
  assert (H6 : forallb (Notions.all_elements Further.stripped)
                 (if ContentCleaner.semanticize_opt opts
                  then ContentCleaner.semanticize lib c5 else c5) = true).
  { destruct (ContentCleaner.semanticize_opt opts); [|exact H5].
    apply forest_map_preserved; [apply semanticize_stripped | exact H5]. }
  destruct (ContentCleaner.removeEmpty opts); [|exact H6].
  now apply remove_loop_all_elements.
Qed.

Lemma cleaned_tree_is_stripped_witness :
  forallb (Notions.all_elements Further.stripped)
    [Dom.Element "p" [] [Dom.Text "a"]] = true.
Proof.
  apply (@cleaned_tree_is_stripped SimpleDom.library
           ContentCleaner.default_options
           [Dom.Element "p" [("style", "color:red"); ("data-id", "7")]
              [Dom.Text "a"]]).
  vm_compute. reflexivity.
Defined.

Section RoundTrip.

Lemma prefix_split (p s : string) :
  String.prefix p s = true -> exists t, s = (p ++ t)%string.
Proof.
  revert s. induction p as [|c p IH]; intros s H.
  - now exists s.
  - destruct s as [|d s]; [discriminate H|]. cbn [String.prefix] in H.
    destruct (ascii_dec c d) as [->|]; [|discriminate H].
    destruct (IH s H) as [t ->]. now exists t.
Qed.

Lemma split_go_some (sep s : string) (k : nat) (cur : string) :
  split_go sep s k cur <> [].
Proof.
  revert k cur. induction s as [|c s IH]; intros k cur; [discriminate|].
  cbn [split_go]. destruct k; [|apply IH].
  destruct (startsWith (String c s) sep); [discriminate | apply IH].
Qed.

Lemma split_go_skip (sep a t cur : string) :
  split_go sep (a ++ t) (String.length a) cur = split_go sep t 0 cur.
Proof.
  induction a as [|c a IH]; [reflexivity|].
  cbn [append String.length split_go]. exact IH.
Qed.

Lemma join_cons (p : string) (rest : list string) (sep : string) :
  rest <> [] -> join (p :: rest) sep = (p ++ sep ++ join rest sep)%string.
Proof. destruct rest; [contradiction | reflexivity]. Qed.

Lemma append_length (a b : string) :
  String.length (a ++ b) = String.length a + String.length b.
Proof. induction a as [|c a IH]; cbn [append String.length]; [reflexivity | now rewrite IH]. Qed.

Lemma join_split_go (sep : string) (n : nat) :
  sep <> "" ->
  forall s cur, String.length s <= n ->
                join (split_go sep s 0 cur) sep = (cur ++ s)%string.
Proof.
  intro Hsep. induction n as [|n IH]; intros s cur Hn.
  - destruct s; [|cbn in Hn; lia]. cbn. now rewrite append_empty_r.
  - destruct s as [|c s]; [cbn; now rewrite append_empty_r|].
    cbn [String.length] in Hn. cbn [split_go].
    destruct (startsWith (String c s) sep) eqn:E.
    + unfold startsWith in E. apply prefix_split in E as [t E].
      destruct sep as [|d sep']; [contradiction|].
      cbn [append] in E. injection E as <- ->.
      match goal with
      | |- context [String.length (String ?x sep') - 1] =>
          replace (String.length (String x sep') - 1) with (String.length sep')
            by (cbn [String.length]; lia)
      end.
      rewrite split_go_skip.
      rewrite join_cons by apply split_go_some.
      rewrite IH.
      * reflexivity.
      * rewrite append_length in Hn. lia.
    + rewrite IH by lia. apply snoc_append.
Qed.

Lemma join_chars (s : string) : join (chars s) "" = s.
Proof.
  induction s as [|c s IH]; [reflexivity|].
  cbn [chars]. destruct s as [|d s]; [reflexivity|].
  rewrite join_cons by discriminate. now rewrite IH.
Qed.

Lemma join_split (s sep : string) : join (split s sep) sep = s.
Proof.
  unfold split. destruct sep as [|d sep]; [apply join_chars|].
  now apply (@join_split_go (String d sep) (String.length s)).
Qed.

End RoundTrip.

(** X28.  The substitution [split(old).join(new)] of [updateContentUrls]
    puts back what it took out when the new url is the old one: a map
    that sends every url it substitutes to itself leaves every content
    as it is. *)
Theorem updateContentUrls_identity (m : JsMap) (content : string) :
  (forall k v, In (k, v) m -> Notions.substituted k = true -> k = Str v) ->
  MediaMigrator.updateContentUrls m content = content.
Proof.
  unfold MediaMigrator.updateContentUrls. revert content.
  induction m as [|[k v] m IH]; intros content H; [reflexivity|].
  cbn [fold_left].
  assert (E : MediaMigrator.substitute content (k, v) = content).
  { unfold MediaMigrator.substitute. cbn [fst snd].
    destruct k as [| |z|u]; try reflexivity.
    destruct (startsWith u "http") eqn:Eh; [|reflexivity].
    assert (Hk : Str u = Str v) by (apply (H (Str u) v); [now left | exact Eh]).
    injection Hk as ->. apply join_split. }
  rewrite E. apply IH. intros k' v' Hin. apply H. now right.
Qed.

Lemma updateContentUrls_identity_witness :
  MediaMigrator.updateContentUrls
    [(Str "http://old.example/a.png", "http://old.example/a.png")]
    "<img src='http://old.example/a.png'>"
  = "<img src='http://old.example/a.png'>".
Proof.
  apply updateContentUrls_identity.
  intros k v [H | []] _. now injection H as <- <-.
Defined.
